(** * openrecovery-sales: the sheet-to-JSON build scripts

    A shallow embedding of [scripts/build-data.mjs] and of its two earlier
    variants, with the properties of the CSV reader, the field resolver, the
    key normalisers and the reconciler.

    JavaScript strings are sequences of UTF-16 code units: a string is a
    [list N], a character its code unit.  Objects used as records of cells
    are finite maps; the [Map] that holds the companies keeps insertion
    order, so it is an association list with unique keys. *)

From Stdlib Require Import NArith Ascii String.
From stdpp Require Import gmap strings list fin_maps.

Open Scope N_scope.

Abbreviation str := (list N).

(** A literal of the script, code unit by code unit (ASCII only). *)
Definition lit (s : string) : str := Ascii.N_of_ascii <$> String.list_ascii_of_string s.
Arguments lit s%_string.

Definition DQUOTE : N := 34.
Definition COMMA : N := 44.
Definition LF : N := 10.
Definition CR : N := 13.
Definition SPACE : N := 32.
Definition HYPHEN : N := 45.
Definition UNDERSCORE : N := 95.
Definition AMPERSAND : N := 38.
Definition PIPE : N := 124.
Definition NBSP : N := 160.

(** ECMAScript WhiteSpace and LineTerminator code units: what [trim] strips
    and what the class [\s] matches. *)
Definition isWhite (c : N) : bool :=
  (c =? 9) || (c =? 10) || (c =? 11) || (c =? 12) || (c =? 13) || (c =? 32)
  || (c =? 160) || (c =? 5760) || ((8192 <=? c) && (c <=? 8202))
  || (c =? 8232) || (c =? 8233) || (c =? 8239) || (c =? 8287)
  || (c =? 12288) || (c =? 65279).

(** [a-z0-9] *)
Definition isLowerAlnum (c : N) : bool :=
  ((97 <=? c) && (c <=? 122)) || ((48 <=? c) && (c <=? 57)).

(** A string is truthy when it is not empty. *)
Definition truthy (s : str) : bool :=
  match s with [] => false | _ :: _ => true end.

(** [a || b] on strings. *)
Definition orElse (a b : str) : str := if truthy a then a else b.

(** The string without its longest prefix (suffix) of characters of the
    class [p]. *)
Fixpoint dropStart (p : N -> bool) (s : str) : str :=
  match s with
  | [] => []
  | c :: r => if p c then dropStart p r else s
  end.

Definition dropEnd (p : N -> bool) (s : str) : str :=
  reverse (dropStart p (reverse s)).

Definition trimStart (s : str) : str := dropStart isWhite s.
Definition trimEnd (s : str) : str := dropEnd isWhite s.

(** [String.prototype.trim] *)
Definition trim (s : str) : str := trimEnd (trimStart s).

(** [s.split(sep)] for a one-character separator: never an empty list. *)
Fixpoint splitOn (sep : N) (s : str) : list str :=
  match s with
  | [] => [[]]
  | c :: r =>
      if c =? sep then [] :: splitOn sep r
      else match splitOn sep r with
           | p :: ps => (c :: p) :: ps
           | [] => [[c]]
           end
  end.

(** [s.replace(/[p]+/g, rep)]: every maximal run of characters of the class
    [p] becomes the single character [rep]; [inRun] says that the previous
    character was in the class. *)
Fixpoint squeeze (p : N -> bool) (rep : N) (inRun : bool) (s : str) : str :=
  match s with
  | [] => []
  | c :: r =>
      if p c then (if inRun then squeeze p rep true r else rep :: squeeze p rep true r)
      else c :: squeeze p rep false r
  end.

Definition replaceRuns (p : N -> bool) (rep : N) (s : str) : str :=
  squeeze p rep false s.

(** [String.prototype.toLowerCase] is the host's Unicode lower-casing; the
    scripts only rely on it being a function on strings, so it is a
    parameter of the development. *)
Class JsLower := toLowerCase : str -> str.

(** Lower-casing of the ASCII letters, which is what [toLowerCase] does on
    ASCII text; used to run the scripts on concrete ASCII tables. *)
Definition asciiLower : JsLower :=
  fmap (fun c => if (65 <=? c) && (c <=? 90) then c + 32 else c).

(** [const norm = (x) => (x || "").toString().trim().toLowerCase()] *)
Definition norm `{JsLower} (x : str) : str := toLowerCase (trim x).

(** ** The CSV scanner (the loop shared by the three variants of [parseCSV]) *)

Module Csv.

Record state := State {
  rows : list (list str);
  row : list str;
  cur : str;
  inQuotes : bool
}.

Definition init : state := State [] [] [] false.

(** [cur += c] *)
Definition addChar (c : N) (st : state) : state :=
  State (rows st) (row st) (cur st ++ [c]) (inQuotes st).

(** [inQuotes = !inQuotes] *)
Definition toggle (st : state) : state :=
  State (rows st) (row st) (cur st) (negb (inQuotes st)).

(** [row.push(cur); cur = ""] *)
Definition endCell (st : state) : state :=
  State (rows st) (row st ++ [cur st]) [] (inQuotes st).

(** [row.some((v) => v.trim())] *)
Definition someCell (r : list str) : bool := existsb (fun v => truthy (trim v)) r.

(** [row.push(cur); cur = ""; if (row.some(...)) rows.push(row); row = []] *)
Definition endRow (st : state) : state :=
  let r := row st ++ [cur st] in
  State (if someCell r then rows st ++ [r] else rows st) [] [] (inQuotes st).

(** One iteration of the loop at character [c], with [n] the next character
    ([None] past the end of the text); the boolean says whether the
    iteration also consumed [n] (the [i++] of the body). *)
Definition step (c : N) (n : option N) (st : state) : state * bool :=
  if (c =? DQUOTE) && inQuotes st && bool_decide (n = Some DQUOTE) then
    (addChar DQUOTE st, true)
  else if c =? DQUOTE then (toggle st, false)
  else if (c =? COMMA) && negb (inQuotes st) then (endCell st, false)
  else if ((c =? LF) || (c =? CR)) && negb (inQuotes st) then
    (endRow st, (c =? CR) && bool_decide (n = Some LF))
  else (addChar c st, false).

Fixpoint scan (text : str) (st : state) {struct text} : state :=
  match text with
  | [] => st
  | c :: rest =>
      let '(st', skip) := step c (head rest) st in
      if skip then match rest with
                   | _ :: rest' => scan rest' st'
                   | [] => st'
                   end
      else scan rest st'
  end.

(** [if (cur || row.length) { row.push(cur); rows.push(row); }] *)
Definition finish (st : state) : list (list str) :=
  if truthy (cur st) || negb (Nat.eqb (length (row st)) 0)
  then rows st ++ [row st ++ [cur st]]
  else rows st.

(** The array [rows] when the loop and the trailing push are done. *)
Definition rawRows (text : str) : list (list str) := finish (scan text init).

End Csv.

(** ** Row objects *)

(** A row object: column name to cell. *)
Abbreviation rowobj := (gmap str str).

(** [o[k] = v] on a plain object, for a string [v]: the key [__proto__]
    names the prototype accessor, which ignores a string, so no property is
    created for it. *)
Definition setProp (o : rowobj) (k v : str) : rowobj :=
  if bool_decide (k = lit "__proto__") then o else <[k := v]> o.

(** [r[i] || ""] *)
Definition cellAt (r : list str) (i : nat) : str := default [] (r !! i).

(** [cell.split("|").map((x) => x.trim()).filter(Boolean)] *)
Definition orgTypes (cell : str) : list str :=
  List.filter truthy (trim <$> splitOn PIPE cell).

(** A JavaScript [Map] with string keys: the entries in insertion order, no
    key twice.  [set] on a key that is present replaces the value where it
    stands. *)
Definition jsMap (V : Type) : Type := list (str * V).

Fixpoint mapGet {V} (k : str) (m : jsMap V) : option V :=
  match m with
  | [] => None
  | (k', v) :: m' => if bool_decide (k' = k) then Some v else mapGet k m'
  end.

Fixpoint mapSet {V} (k : str) (v : V) (m : jsMap V) : jsMap V :=
  match m with
  | [] => [(k, v)]
  | (k', v') :: m' =>
      if bool_decide (k' = k) then (k, v) :: m' else (k', v') :: mapSet k v m'
  end.

(** [[...m.values()]] *)
Definition mapValues {V} (m : jsMap V) : list V := m.*2.

(** ** scripts/build-data.mjs *)

Module BuildData.

Inductive error : Type :=
| MissingSheetId
| NetworkError (sheetName : str)
| LoadFailed (sheetName : str) (status : nat)
| ZeroRows (sheetName : str)
| MissingColumns (sheetName : str) (missing : list str) (present : gset str)
| TypeError.

Inductive result (A : Type) : Type :=
| Ok (a : A)
| Throw (e : error).
Arguments Ok {A} a.
Arguments Throw {A} e.

#[global] Instance result_ret : MRet result := fun A a => Ok a.
#[global] Instance result_bind : MBind result := fun A B f m =>
  match m with Ok a => f a | Throw e => Throw e end.

(** [headers.forEach((h, i) => { if (!h) return; o[h] = (r[i] || "").trim(); })]
    from index [i] on. *)
Fixpoint fillObject (headers : list str) (i : nat) (r : list str) (o : rowobj) : rowobj :=
  match headers with
  | [] => o
  | h :: hs =>
      fillObject hs (S i) r (if truthy h then setProp o h (trim (cellAt r i)) else o)
  end.

Definition parseCSV (text : str) : list rowobj :=
  match Csv.rawRows text with
  | [] => []
  | first :: rest =>
      let headers := trim <$> first in
      (fun r => fillObject headers 0 r ∅) <$> rest
  end.

(** [pick(obj, keys)]; [obj] is [None] for [undefined], on which
    [Object.prototype.hasOwnProperty.call] raises a TypeError. *)
Fixpoint pick (obj : option rowobj) (keys : list str) : result str :=
  match keys with
  | [] => Ok []
  | k :: ks =>
      match obj with
      | None => Throw TypeError
      | Some o =>
          match o !! k with
          | Some v => if truthy (trim v) then Ok (trim v) else pick obj ks
          | None => pick obj ks
          end
      end
  end.

(** [pick] at a row object, where it cannot raise: every call of the script
    passes an element of a parsed table. *)
Fixpoint pickOf (o : rowobj) (keys : list str) : str :=
  match keys with
  | [] => []
  | k :: ks =>
      match o !! k with
      | Some v => if truthy (trim v) then trim v else pickOf o ks
      | None => pickOf o ks
      end
  end.

(** [x.replace(/&/g, "and")] *)
Definition replaceAmp (s : str) : str :=
  concat ((fun c => if c =? AMPERSAND then lit "and" else [c]) <$> s).

(** [x.replace(/^-+|-+$/g, "")] *)
Definition stripHyphens (s : str) : str :=
  dropEnd (N.eqb HYPHEN) (dropStart (N.eqb HYPHEN) s).

Definition slug `{JsLower} (x : str) : str :=
  stripHyphens (replaceRuns (fun c => negb (isLowerAlnum c)) HYPHEN (replaceAmp (norm x))).

Record Problem := {
  problem : str;
  solution : str;
  feature : str
}.

Record Company := {
  id : str;
  name : str;
  website : str;
  location : str;
  target : str;
  org_types : list str;
  solutions : list Problem;
  problems : list str
}.

(** The object literal of [problemMap.set]. *)
Definition mkProblem (p : rowobj) (prob : str) : Problem :=
  {| problem := prob;
     solution := pickOf p [lit "Solution"];
     feature := pickOf p [lit "Feature"; lit "OpenRecovery Feature"] |}.

(** [problems.forEach((p) => { ... })], one row. *)
Definition addProblem `{JsLower} (problemMap : gmap str Problem) (p : rowobj)
    : gmap str Problem :=
  let prob := pickOf p [lit "Problem"] in
  if negb (truthy prob) then problemMap
  else <[norm prob := mkProblem p prob]> problemMap.

(** The object literal of [companyMap.set]. *)
Definition mkCompany `{JsLower} (c : rowobj) (name key : str) : Company :=
  {| id := orElse (orElse (pickOf c [lit "Company ID"]) (slug name))
                  (replaceRuns isWhite HYPHEN key);
     name := name;
     website := pickOf c [lit "Website"; lit "URL"];
     location := pickOf c [lit "Location"];
     target := pickOf c [lit "Target"; lit "Target Audience"];
     org_types :=
       orgTypes (orElse (pickOf c [lit "Org Types"; lit "Org Type"; lit "Category"]) []);
     solutions := [];
     problems := [] |}.

(** [companies.forEach((c) => { ... })], one row. *)
Definition addCompany `{JsLower} (companyMap : jsMap Company) (c : rowobj)
    : jsMap Company :=
  let name := pickOf c [lit "Company Name"; lit "Company"] in
  if negb (truthy name) then companyMap
  else let key := norm name in mapSet key (mkCompany c name key) companyMap.

(** What the attach loop changes: the companies and the two counters. *)
Record tally := Tally {
  companyMap : jsMap Company;
  missingCompany : nat;
  missingProblem : nat
}.

(** [company.solutions.push(p)] *)
Definition pushSolution (company : Company) (p : Problem) : Company :=
  {| id := id company; name := name company; website := website company;
     location := location company; target := target company;
     org_types := org_types company;
     solutions := solutions company ++ [p];
     problems := problems company |}.

(** [company.solutions.some((x) => norm(x.problem) === norm(p.problem))] *)
Definition hasProblem `{JsLower} (company : Company) (p : Problem) : bool :=
  existsb (fun x => bool_decide (norm (problem x) = norm (problem p))) (solutions company).

(** [companySolutions.forEach((s) => { ... })], one link row.  The company
    found under [cname] is the record stored there, so the push is an update
    of the entry of [cname]. *)
Definition attach `{JsLower} (problemMap : gmap str Problem) (st : tally) (s : rowobj)
    : tally :=
  let cname := norm (pickOf s [lit "Company Name"; lit "Company"]) in
  let probRaw := pickOf s [lit "Problem"; lit "Common Problem"] in
  if negb (truthy cname) || negb (truthy probRaw) then st
  else
    match mapGet cname (companyMap st) with
    | None => Tally (companyMap st) (S (missingCompany st)) (missingProblem st)
    | Some company =>
        match problemMap !! norm probRaw with
        | None => Tally (companyMap st) (missingCompany st) (S (missingProblem st))
        | Some p =>
            if hasProblem company p then st
            else Tally (mapSet cname (pushSolution company p) (companyMap st))
                       (missingCompany st) (missingProblem st)
        end
    end.

(** [c.problems = c.solutions.map((s) => s.problem)] *)
Definition deriveProblems (c : Company) : Company :=
  {| id := id c; name := name c; website := website c; location := location c;
     target := target c; org_types := org_types c; solutions := solutions c;
     problems := problem <$> solutions c |}.

(** What a run leaves behind: the [companies] array written to [data.json]
    and the two counts of the closing log lines. *)
Record output := Output {
  companies : list Company;
  missingCompanies : nat;
  missingProblems : nat
}.

(** The script from "Build Problem lookup" to "Write output", on the three
    parsed tables. *)
Definition reconcile `{JsLower} (companies problems companySolutions : list rowobj)
    : output :=
  let problemMap := foldl addProblem ∅ problems in
  let companyMap0 := foldl addCompany [] companies in
  let st := foldl (attach problemMap) (Tally companyMap0 0 0) companySolutions in
  Output (deriveProblems <$> mapValues (companyMap st))
         (missingCompany st) (missingProblem st).

(** The outside of a run: the environment variable and, for every sheet
    name, what [fetch] of its CSV address gives ([None]: the request itself
    failed). *)
Record response := Response { ok : bool; status : nat; text : str }.
Record env := Env { SHEET_ID : option str; fetch : str -> option response }.

Definition loadCSV (e : env) (sheetName : str) : result (list rowobj) :=
  match fetch e sheetName with
  | None => Throw (NetworkError sheetName)
  | Some res =>
      if negb (ok res) then Throw (LoadFailed sheetName (status res))
      else
        let rows := parseCSV (text res) in
        if Nat.eqb (length rows) 0 then Throw (ZeroRows sheetName) else Ok rows
  end.

Definition assertHas (sheetName : str) (rows : list rowobj) (required : list str)
    : result unit :=
  let present : gset str := dom (default ∅ (head rows)) in
  let missing := List.filter (fun h => negb (bool_decide (h ∈ present))) required in
  if negb (Nat.eqb (length missing) 0)
  then Throw (MissingColumns sheetName missing present)
  else Ok tt.

(** The whole module, top to bottom. *)
Definition main `{JsLower} (e : env) : result output :=
  match SHEET_ID e with
  | None | Some [] => Throw MissingSheetId
  | Some _ =>
      companies ← loadCSV e (lit "Companies");
      problems ← loadCSV e (lit "Problems");
      companySolutions ← loadCSV e (lit "Company Solutions");
      _ ← assertHas (lit "Companies") companies [lit "Company Name"];
      _ ← assertHas (lit "Problems") problems [lit "Problem"; lit "Solution"; lit "Feature"];
      _ ← assertHas (lit "Company Solutions") companySolutions
            [lit "Company Name"; lit "Problem"];
      Ok (reconcile companies problems companySolutions)
  end.

End BuildData.

(** ** The variant with [keyify] (src/unnamed/part_001) *)

Module Part001.

(** [headers.forEach((h, i) => o[h] = (r[i] || "").trim())] from index [i]
    on: this variant also stores the cells of a column without a name. *)
Fixpoint fillObject (headers : list str) (i : nat) (r : list str) (o : rowobj) : rowobj :=
  match headers with
  | [] => o
  | h :: hs => fillObject hs (S i) r (setProp o h (trim (cellAt r i)))
  end.

(** As in [scripts/build-data.mjs], with the rows filtered once more before
    they are turned into objects. *)
Definition parseCSV (text : str) : list rowobj :=
  match Csv.rawRows text with
  | [] => []
  | first :: rest =>
      let headers := trim <$> first in
      (fun r => fillObject headers 0 r ∅) <$> List.filter Csv.someCell rest
  end.

(** [x.replace(/[from]/g, to)] for a class of characters. *)
Definition replaceChars (from : N -> bool) (to : N) (s : str) : str :=
  (fun c => if from c then to else c) <$> s.

(** The class [[^a-z0-9\s-]] is what is dropped; this is its complement. *)
Definition keptByKeyify (c : N) : bool :=
  isLowerAlnum c || isWhite c || (c =? HYPHEN).

Definition keyify `{JsLower} (x : str) : str :=
  let s1 := replaceChars (N.eqb NBSP) SPACE (norm x) in
  let s2 := replaceChars (fun c => (c =? 8220) || (c =? 8221)) DQUOTE s1 in
  let s3 := replaceChars (fun c => (c =? 8216) || (c =? 8217)) 39 s2 in
  let s4 := List.filter keptByKeyify s3 in
  let s5 := replaceChars (fun c => (c =? HYPHEN) || (c =? UNDERSCORE)) SPACE s4 in
  let s6 := replaceRuns isWhite SPACE s5 in
  trim s6.

End Part001.

(** ** The earliest variant (src/unnamed/part_000) *)

(** This variant keeps its two indices in plain objects, under keys read
    from the sheets.  A plain object inherits the properties of
    [Object.prototype], and an assignment to [__proto__] replaces the
    prototype instead of adding a property.  The model below follows the
    script on every table whose keys stay clear of those names and gives
    [None] on the others, rather than a result the script would not give. *)

Module Part000.

(** [parseCSV] of this variant: the header is taken with
    [rows.shift().map(h => h.trim())], which raises a TypeError on a text
    without rows ([None] here), the cells are stored by the callback that
    part_001 has too, and no row is filtered after the loop. *)
Definition parseCSV (text : str) : option (list rowobj) :=
  match Csv.rawRows text with
  | [] => None
  | first :: rest =>
      let headers := trim <$> first in
      Some ((fun r => Part001.fillObject headers 0 r ∅) <$> rest)
  end.

(** The names every plain object inherits. *)
Definition inheritedNames : list str :=
  [lit "__proto__"; lit "constructor"; lit "hasOwnProperty"; lit "isPrototypeOf";
   lit "propertyIsEnumerable"; lit "toLocaleString"; lit "toString"; lit "valueOf";
   lit "__defineGetter__"; lit "__defineSetter__"; lit "__lookupGetter__";
   lit "__lookupSetter__"].

Definition inherited (k : str) : bool := bool_decide (k ∈ inheritedNames).

(** The own properties of a plain object, in the order of their creation. *)
Definition dict (V : Type) : Type := list (str * V).

(** [d[k]]: [Some None] is [undefined]. *)
Definition dictGet {V} (k : str) (d : dict V) : option (option V) :=
  match mapGet k d with
  | Some v => Some (Some v)
  | None => if inherited k then None else Some None
  end.

(** [d[k] = v] *)
Definition dictSet {V} (k : str) (v : V) (d : dict V) : option (dict V) :=
  if bool_decide (k = lit "__proto__") then None else Some (mapSet k v d).

Definition isDigit (c : N) : bool := (48 <=? c) && (c <=? 57).

Definition digitsValue (k : str) : N := foldl (fun acc c => 10 * acc + (c - 48)) 0 k.

(** The array index a property key denotes, if any: a canonical decimal
    numeral below 2^32 - 1. *)
Definition arrayIndex (k : str) : option N :=
  match k with
  | [] => None
  | c :: r =>
      if forallb isDigit k && (negb (c =? 48) || bool_decide (r = []))
         && (digitsValue k <? 4294967295)
      then Some (digitsValue k) else None
  end.

Fixpoint insertByIndex {V} (i : N) (e : str * V) (l : list (N * (str * V)))
    : list (N * (str * V)) :=
  match l with
  | [] => [(i, e)]
  | (j, e') :: l' => if i <? j then (i, e) :: l else (j, e') :: insertByIndex i e l'
  end.

(** The own properties in the order [Object.values] follows: array indices
    in ascending order, then the other keys in creation order. *)
Definition ownEntries {V} (d : dict V) : list (str * V) :=
  let indexed := foldr (fun e acc =>
                          match arrayIndex e.1 with
                          | Some i => insertByIndex i e acc
                          | None => acc
                          end) [] d in
  indexed.*2 ++ List.filter (fun e => negb (bool_decide (is_Some (arrayIndex e.1)))) d.

(** [Object.values(d)] *)
Definition dictValues {V} (d : dict V) : list V := (ownEntries d).*2.

(** A cell read as [row.Name]: [None] is [undefined]. *)
Record Problem := {
  problem : str;
  solution : option str;
  feature : option str
}.

Record Company := {
  id : str;
  name : str;
  website : option str;
  location : option str;
  target : option str;
  org_types : list str;
  solutions : list Problem
}.

(** [x] as a condition, for a cell. *)
Definition present (x : option str) : bool :=
  match x with Some v => truthy v | None => false end.

(** [norm(x)] of a cell: [(x || "")] first. *)
Definition normCell `{JsLower} (x : option str) : str := norm (default [] x).

(** [problems.forEach(p => { ... })], one row. *)
Definition addProblem (problemMap : dict Problem) (p : rowobj) : option (dict Problem) :=
  match p !! lit "Problem" with
  | Some k =>
      if truthy k
      then dictSet k {| problem := k; solution := p !! lit "Solution";
                        feature := p !! lit "Feature" |} problemMap
      else Some problemMap
  | None => Some problemMap
  end.

(** [companies.forEach(c => { ... })], one row. *)
Definition addCompany (companyMap : dict Company) (c : rowobj) : option (dict Company) :=
  if negb (present (c !! lit "Company ID")) || negb (present (c !! lit "Company Name"))
  then Some companyMap
  else
    let cid := default [] (c !! lit "Company ID") in
    dictSet cid
      {| id := cid;
         name := default [] (c !! lit "Company Name");
         website := c !! lit "Website";
         location := c !! lit "Location";
         target := c !! lit "Target";
         org_types := orgTypes (default [] (c !! lit "Org Types"));
         solutions := [] |}
      companyMap.

(** [company.solutions.push(p)] *)
Definition pushSolution (company : Company) (p : Problem) : Company :=
  {| id := id company; name := name company; website := website company;
     location := location company; target := target company;
     org_types := org_types company;
     solutions := solutions company ++ [p] |}.

(** [companyMap[cid] || Object.values(companyMap).find(c => norm(c.name) === cname)]:
    the key under which the company stands, if there is one. *)
Definition findCompany `{JsLower} (companyMap : dict Company) (cid cname : str)
    : option (option str) :=
  byId ← dictGet cid companyMap;
  match byId with
  | Some _ => Some (Some cid)
  | None =>
      Some (fst <$> List.find (fun e => bool_decide (norm (name e.2) = cname))
                              (ownEntries companyMap))
  end.

(** [solutions.forEach(s => { ... })], one link row.  A missing [Problem]
    cell reads the property named [undefined]. *)
Definition attach `{JsLower} (problemMap : dict Problem) (companyMap : dict Company)
    (s : rowobj) : option (dict Company) :=
  let cid := normCell (s !! lit "Company ID") in
  let cname := normCell (s !! lit "Company Name") in
  found ← findCompany companyMap cid cname;
  match found with
  | None => Some companyMap
  | Some key =>
      p ← dictGet (default (lit "undefined") (s !! lit "Problem")) problemMap;
      match p, mapGet key companyMap with
      | Some p, Some company => Some (mapSet key (pushSolution company p) companyMap)
      | _, _ => Some companyMap
      end
  end.

(** A loop whose body may leave the model. *)
Fixpoint forEach {S A} (f : S -> A -> option S) (s : S) (l : list A) : option S :=
  match l with
  | [] => Some s
  | a :: l' => s' ← f s a; forEach f s' l'
  end.

(** The script from "Build problem lookup" to the [companies] array of the
    output, on the three parsed tables. *)
Definition reconcile `{JsLower} (companies problems solutions : list rowobj)
    : option (list Company) :=
  problemMap ← forEach addProblem [] problems;
  companyMap ← forEach addCompany [] companies;
  companyMap' ← forEach (attach problemMap) companyMap solutions;
  Some (dictValues companyMap').

End Part000.

(** ** The variant with [keyify], continued: its field resolver and its reconciler *)

(** This variant also keeps its two indices in plain objects, so it shares
    the model of plain objects of the earliest variant.  Its [pick] reads a
    row with [row[k]] and through a second object, [row.__keyMap], which it
    builds from [Object.keys(row)]: the rows are modelled with their own
    properties in creation order.  The model follows the script wherever no
    inherited property is read and gives [None] elsewhere. *)

Module Part001Run.

(** A row object: its own properties, in creation order. *)
Abbreviation row := (Part000.dict str).

(** [o[h] = v] on a row, for a string [v]: nothing for [__proto__]; a
    column that is there already keeps its place. *)
Definition setCell (o : row) (h v : str) : row :=
  if bool_decide (h = lit "__proto__") then o else mapSet h v o.

(** [headers.forEach((h, i) => o[h] = (r[i] || "").trim())] from index [i] on. *)
Fixpoint fillRow (headers : list str) (i : nat) (r : list str) (o : row) : row :=
  match headers with
  | [] => o
  | h :: hs => fillRow hs (S i) r (setCell o h (trim (cellAt r i)))
  end.

(** [parseCSV] of this variant, with the order of the columns kept. *)
Definition parseCSV (text : str) : list row :=
  match Csv.rawRows text with
  | [] => []
  | first :: rest =>
      let headers := trim <$> first in
      (fun r => fillRow headers 0 r []) <$> List.filter Csv.someCell rest
  end.

(** [Object.keys(row)] *)
Definition keysOf (o : row) : list str := (Part000.ownEntries o).*1.

(** [k.trim().toLowerCase()] *)
Definition lowerKey `{JsLower} (k : str) : str := toLowerCase (trim k).

(** The properties every string has besides its indices: [length] and the
    names of [String.prototype]. *)
Definition stringNames : list str :=
  [lit "length"; lit "anchor"; lit "at"; lit "big"; lit "blink"; lit "bold";
   lit "charAt"; lit "charCodeAt"; lit "codePointAt"; lit "concat"; lit "endsWith";
   lit "fixed"; lit "fontcolor"; lit "fontsize"; lit "includes"; lit "indexOf";
   lit "isWellFormed"; lit "italics"; lit "lastIndexOf"; lit "link";
   lit "localeCompare"; lit "match"; lit "matchAll"; lit "normalize"; lit "padEnd";
   lit "padStart"; lit "repeat"; lit "replace"; lit "replaceAll"; lit "search";
   lit "slice"; lit "small"; lit "split"; lit "startsWith"; lit "strike"; lit "sub";
   lit "substr"; lit "substring"; lit "sup"; lit "toLocaleLowerCase";
   lit "toLocaleUpperCase"; lit "toLowerCase"; lit "toUpperCase"; lit "toWellFormed";
   lit "trim"; lit "trimEnd"; lit "trimLeft"; lit "trimRight"; lit "trimStart"].

(** [k] may name a property of a string. *)
Definition stringProperty (k : str) : bool :=
  bool_decide (k ∈ stringNames) || Part000.inherited k
  || bool_decide (is_Some (Part000.arrayIndex k)).

(** [map[lc]] for [map = row.__keyMap || (row.__keyMap = Object.fromEntries(
    Object.keys(row).map(k => [k.trim().toLowerCase(), k])))]; [Some None] is
    [undefined].  A column [__keyMap] with a cell that is not empty is the
    map itself, a string; otherwise the map holds, for every lower-case
    form, the last column with it. *)
Definition keyMapGet `{JsLower} (o : row) (lc : str) : option (option str) :=
  match mapGet (lit "__keyMap") o with
  | Some (_ :: _) => if stringProperty lc then None else Some None
  | _ =>
      match last (List.filter (fun k => bool_decide (lowerKey k = lc)) (keysOf o)) with
      | Some real => Some (Some real)
      | None => if Part000.inherited lc then None else Some None
      end
  end.

(** [v !== undefined && String(v).trim() !== ""], with [String(v).trim()]. *)
Definition nonBlank (v : option str) : option str :=
  match v with
  | Some v => if truthy (trim v) then Some (trim v) else None
  | None => None
  end.

(** The loop of [pick] over the aliases.  [row[k]] is read as a property of
    a plain object; [__keyMap] itself holds the map once [pick] has run, so
    reading it leaves the model. *)
Fixpoint pickFrom `{JsLower} (o : row) (keys : list str) : option str :=
  match keys with
  | [] => Some []
  | k :: ks =>
      if bool_decide (k = lit "__keyMap") then None
      else
        direct ← Part000.dictGet k o;
        match nonBlank direct with
        | Some v => Some v
        | None =>
            real ← keyMapGet o (lowerKey k);
            match real with
            | Some real =>
                if bool_decide (real = lit "__keyMap") then None
                else
                  match (if truthy real then nonBlank (mapGet real o) else None) with
                  | Some v => Some v
                  | None => pickFrom o ks
                  end
            | None => pickFrom o ks
            end
        end
  end.

(** [pick(row, keys)]; [row] is [None] for [undefined]. *)
Definition pick `{JsLower} (r : option row) (keys : list str) : option str :=
  match r with
  | None => Some []
  | Some o => pickFrom o keys
  end.

Record Problem := {
  problem : str;
  solution : str;
  feature : str
}.

Record Company := {
  id : str;
  name : str;
  website : str;
  location : str;
  target : str;
  org_types : list str;
  solutions : list Problem
}.

(** [problemsRows.forEach(r => { ... })], one row (without the count of the
    closing log line). *)
Definition addProblem `{JsLower} (problemMap : Part000.dict Problem) (r : row)
    : option (Part000.dict Problem) :=
  problem ← pick (Some r) [lit "Problem"; lit "Common Problem"; lit "Common Problem "];
  if negb (truthy problem) then Some problemMap
  else
    solution ← pick (Some r) [lit "Solution"; lit "Our Solution"];
    feature ← pick (Some r) [lit "OpenRecovery Feature"; lit "Open Recovery Feature";
                             lit "Feature"];
    Part000.dictSet (Part001.keyify problem)
      {| problem := problem; solution := solution; feature := feature |} problemMap.

(** The object literal of [companyMap[idKey] = { ... }]. *)
Definition mkCompany `{JsLower} (r : row) (id name : str) : option Company :=
  website ← pick (Some r) [lit "Website"; lit "URL"];
  location ← pick (Some r) [lit "Location"];
  target ← pick (Some r) [lit "Target"];
  types ← pick (Some r) [lit "Org Types"; lit "Org Types "];
  Some {| id := id; name := name; website := website; location := location;
          target := target; org_types := orgTypes (orElse types []);
          solutions := [] |}.

(** [companiesRows.forEach(r => { ... })], one row. *)
Definition addCompany `{JsLower} (companyMap : Part000.dict Company) (r : row)
    : option (Part000.dict Company) :=
  id ← pick (Some r) [lit "Company ID"; lit "ID"];
  name ← pick (Some r) [lit "Company Name"; lit "Name"];
  if negb (truthy id) || negb (truthy name) then Some companyMap
  else
    company ← mkCompany r id name;
    Part000.dictSet (norm id) company companyMap.

(** What the link loop changes: the companies, the two counters and the set
    of problem texts without a problem, in the order they were added. *)
Record tally := Tally {
  companyMap : Part000.dict Company;
  matchedLinks : nat;
  unmatchedCompanies : nat;
  unmatchedProblems : list str
}.

(** [company.solutions.push(p)] *)
Definition pushSolution (company : Company) (p : Problem) : Company :=
  {| id := id company; name := name company; website := website company;
     location := location company; target := target company;
     org_types := org_types company;
     solutions := solutions company ++ [p] |}.

(** [(cidKey && companyMap[cidKey]) || Object.values(companyMap).find(c => norm(c.name) === cname)]:
    the key under which the company stands, if there is one. *)
Definition findCompany `{JsLower} (companyMap : Part000.dict Company) (cidKey cname : str)
    : option (option str) :=
  byId ← (if truthy cidKey then Part000.dictGet cidKey companyMap else Some None);
  match byId with
  | Some _ => Some (Some cidKey)
  | None =>
      Some (fst <$> List.find (fun e => bool_decide (norm (name e.2) = cname))
                              (Part000.ownEntries companyMap))
  end.

(** [company.solutions.some(x => keyify(x.problem) === keyify(p.problem))] *)
Definition already `{JsLower} (company : Company) (p : Problem) : bool :=
  existsb (fun x => bool_decide (Part001.keyify (problem x) = Part001.keyify (problem p)))
          (solutions company).

(** [unmatchedProblems.add(x)] *)
Definition setAdd (x : str) (s : list str) : list str :=
  if bool_decide (x ∈ s) then s else s ++ [x].

(** [linksRows.forEach(r => { ... })], one link row. *)
Definition attach `{JsLower} (problemMap : Part000.dict Problem) (st : tally) (r : row)
    : option tally :=
  cid ← pick (Some r) [lit "Company ID"; lit "ID"];
  cn ← pick (Some r) [lit "Company Name"; lit "Company"];
  found ← findCompany (companyMap st) (norm cid) (norm cn);
  match found with
  | None =>
      Some (Tally (companyMap st) (matchedLinks st) (S (unmatchedCompanies st))
                  (unmatchedProblems st))
  | Some key =>
      company ← mapGet key (companyMap st);
      problemText ← pick (Some r) [lit "Problem"; lit "Common Problem"];
      p ← Part000.dictGet (Part001.keyify problemText) problemMap;
      match p with
      | None =>
          Some (Tally (companyMap st) (matchedLinks st) (unmatchedCompanies st)
                      (if truthy problemText
                       then setAdd problemText (unmatchedProblems st)
                       else unmatchedProblems st))
      | Some p =>
          if already company p then Some st
          else Some (Tally (mapSet key (pushSolution company p) (companyMap st))
                           (S (matchedLinks st)) (unmatchedCompanies st)
                           (unmatchedProblems st))
      end
  end.

(** What a run leaves behind: the [companies] array written to [data.json]
    and what the closing log lines count. *)
Record output := Output {
  companies : list Company;
  matched : nat;
  noCompany : nat;
  noProblem : list str
}.

(** The script from "Build problem lookup" to "Output", on the three parsed
    tables. *)
Definition reconcile `{JsLower} (companiesRows problemsRows linksRows : list row)
    : option output :=
  problemMap ← Part000.forEach addProblem [] problemsRows;
  companyMap0 ← Part000.forEach addCompany [] companiesRows;
  st ← Part000.forEach (attach problemMap) (Tally companyMap0 0 0 []) linksRows;
  Some (Output (Part000.dictValues (companyMap st)) (matchedLinks st)
               (unmatchedCompanies st) (unmatchedProblems st)).

End Part001Run.

(** ** Vocabulary of the statements *)

(** *** Strings *)

(** The pieces [ps] with [r] appended to the last one. *)
Fixpoint appLast (ps : list str) (r : str) : list str :=
  match ps with
  | [] => [r]
  | [q] => [q ++ r]
  | q :: ps' => q :: appLast ps' r
  end.

(** The characters [keyify] can leave in a key: [a-z0-9] and the space. *)
Definition plain (c : N) : Prop := isLowerAlnum c = true \/ c = SPACE.

Definition plainText (s : str) : Prop := Forall plain s.

(** A plain text in which no space follows a space; [afterSpace] says that
    the character before [s] was one. *)
Fixpoint tidy (afterSpace : bool) (s : str) : bool :=
  match s with
  | [] => true
  | c :: r =>
      if c =? SPACE then negb afterSpace && tidy true r
      else isLowerAlnum c && tidy false r
  end.

(** What the scripts assume of the host's [toLowerCase]: it leaves a text of
    lower-case ASCII letters, digits and spaces as it is. *)
Definition LowerKeepsPlain `{JsLower} : Prop :=
  forall s, plainText s -> toLowerCase s = s.

(** *** The field resolver *)

(** The cell a list of aliases resolves to: the cell of the first alias
    that is a column of the row and is not blank. *)
Fixpoint resolvedCell (o : rowobj) (keys : list str) : option str :=
  match keys with
  | [] => None
  | k :: ks =>
      match o !! k with
      | Some v => if truthy (trim v) then Some v else resolvedCell o ks
      | None => resolvedCell o ks
      end
  end.

(** *** Companies, link rows and runs of scripts/build-data.mjs *)

(** A company record without what reconciliation attaches to it. *)
Definition blankLists (c : BuildData.Company) : BuildData.Company :=
  {| BuildData.id := BuildData.id c; BuildData.name := BuildData.name c;
     BuildData.website := BuildData.website c;
     BuildData.location := BuildData.location c;
     BuildData.target := BuildData.target c;
     BuildData.org_types := BuildData.org_types c;
     BuildData.solutions := []; BuildData.problems := [] |}.

(** The company name of a Companies row, as [companies.forEach] reads it. *)
Definition rowName (r : rowobj) : str :=
  BuildData.pickOf r [lit "Company Name"; lit "Company"].

(** The identity key of a Companies row in the name-keyed script. *)
Definition rowKey `{JsLower} (r : rowobj) : str := norm (rowName r).

(** The identity key of a company of the output of the name-keyed script. *)
Definition companyKey `{JsLower} (c : BuildData.Company) : str :=
  norm (BuildData.name c).

(** [c] is the record the script builds from the Companies row [r], whatever
    was attached to it afterwards. *)
Definition builtFrom `{JsLower} (r : rowobj) (c : BuildData.Company) : Prop :=
  truthy (rowName r) = true /\
  blankLists c = BuildData.mkCompany r (rowName r) (rowKey r).

(** What holds of every entry of the company map all along a run: the key is
    the normalized name, and the record is the one built from some row. *)
Definition entryOk `{JsLower} (cs : list rowobj) (e : str * BuildData.Company) : Prop :=
  e.1 = companyKey e.2 /\ exists r, r ∈ cs /\ builtFrom r e.2.

(** The company reference and the problem text of a link row, as
    [companySolutions.forEach] reads them. *)
Definition linkCompany `{JsLower} (s : rowobj) : str :=
  norm (BuildData.pickOf s [lit "Company Name"; lit "Company"]).

Definition linkProblem (s : rowobj) : str :=
  BuildData.pickOf s [lit "Problem"; lit "Common Problem"].

(** The normalized key of an attached problem in the name-keyed script. *)
Definition problemKey `{JsLower} (p : BuildData.Problem) : str :=
  norm (BuildData.problem p).

(** The company under [k] has a solution whose normalized key is [pk]. *)
Definition attached `{JsLower} (m : jsMap BuildData.Company) (k pk : str) : Prop :=
  exists c, mapGet k m = Some c /\ pk ∈ problemKey <$> BuildData.solutions c.

(** The counters of a run after one more unmatched company. *)
Definition oneMoreMissingCompany (o : BuildData.output) : BuildData.output :=
  BuildData.Output (BuildData.companies o) (S (BuildData.missingCompanies o))
                   (BuildData.missingProblems o).

(** The three sheets load and pass the header checks of a run in [e]. *)
Definition sheetsAccepted (e : BuildData.env) (cs ps ls : list rowobj) : Prop :=
  (exists c i, BuildData.SHEET_ID e = Some (c :: i)) /\
  BuildData.loadCSV e (lit "Companies") = BuildData.Ok cs /\
  BuildData.loadCSV e (lit "Problems") = BuildData.Ok ps /\
  BuildData.loadCSV e (lit "Company Solutions") = BuildData.Ok ls /\
  BuildData.assertHas (lit "Companies") cs [lit "Company Name"] = BuildData.Ok tt /\
  BuildData.assertHas (lit "Problems") ps [lit "Problem"; lit "Solution"; lit "Feature"]
    = BuildData.Ok tt /\
  BuildData.assertHas (lit "Company Solutions") ls [lit "Company Name"; lit "Problem"]
    = BuildData.Ok tt.

(** ** The serializer of the round-trip property *)

(** The serializer that the round-trip property speaks of is not in the
    repository.  The definitions of this section follow RFC 4180, which the
    spec names: a field that contains a double quote, a comma, a line feed
    or a carriage return is enclosed in double quotes, with every double
    quote inside it doubled; the fields of a record are separated by
    commas; a line break ends a record.  What is left to the writer is a
    [dialect]: which other fields it quotes, which of the three line breaks
    that the spec lists it writes (RFC 4180 itself has CR LF), and whether
    a line break follows the last record. *)

(** Modelled from the spec: the test for a field that RFC 4180 wants
    quoted (the serializer is missing from the repository). *)
Definition needsQuotes (v : str) : bool :=
  existsb (fun c => (c =? DQUOTE) || (c =? COMMA) || (c =? LF) || (c =? CR)) v.

(** Modelled from the spec: the doubling of the double quotes inside a
    quoted field (the serializer is missing from the repository). *)
Fixpoint escapeQuotes (v : str) : str :=
  match v with
  | [] => []
  | c :: v' => if c =? DQUOTE then DQUOTE :: DQUOTE :: escapeQuotes v'
               else c :: escapeQuotes v'
  end.

(** Modelled from the spec: the row terminators it lists for the parser,
    as the choices of the missing serializer. *)
Inductive lineBreak : Type := CRLF | LFonly | CRonly.

(** Modelled from the spec: the text of a row terminator. *)
Definition breakText (b : lineBreak) : str :=
  match b with
  | CRLF => [CR; LF]
  | LFonly => [LF]
  | CRonly => [CR]
  end.

(** Modelled from the spec: what RFC 4180 leaves to the missing serializer. *)
Record dialect := Dialect {
  quoteAlso : str -> bool;
  eol : lineBreak;
  finalBreak : bool
}.

(** Modelled from the spec: the serializer's plain dialect, quotes where
    they are needed and CR LF after every record. *)
Definition rfc4180 : dialect := Dialect (fun _ => false) CRLF true.

(** Modelled from the spec: a field as the missing serializer writes it. *)
Definition serializeField (d : dialect) (v : str) : str :=
  if needsQuotes v || quoteAlso d v then DQUOTE :: escapeQuotes v ++ [DQUOTE] else v.

(** Modelled from the spec: a record as the missing serializer writes it,
    without its line break. *)
Fixpoint serializeRecord (d : dialect) (r : list str) : str :=
  match r with
  | [] => []
  | [v] => serializeField d v
  | v :: r' => serializeField d v ++ COMMA :: serializeRecord d r'
  end.

(** Modelled from the spec: records as the missing serializer writes them,
    each with its line break. *)
Fixpoint serializeRows (d : dialect) (rows : list (list str)) : str :=
  match rows with
  | [] => []
  | r :: rows' => serializeRecord d r ++ breakText (eol d) ++ serializeRows d rows'
  end.

(** Modelled from the spec: the missing serializer, "serializing a known set
    of rows" to CSV text. *)
Definition serializeCSV (d : dialect) (rows : list (list str)) : str :=
  if finalBreak d then serializeRows d rows
  else match rows with
       | [] => []
       | _ :: _ => serializeRows d (removelast rows) ++ serializeRecord d (List.last rows [])
       end.

(** The data rows as row mappings under the header row: the name of column
    [j] is mapped to cell [j]. *)
Definition tableOf (headers : list str) (rows : list (list str)) : list rowobj :=
  (fun r => list_to_map (zip headers r)) <$> rows.

(** A header row and data rows that the parsers can give back as they are:
    the column names are distinct, not empty, without white space around
    them and not [__proto__]; every data row has one cell per column, no
    cell has white space around it, and no row is empty throughout. *)
Definition plainTable (headers : list str) (rows : list (list str)) : Prop :=
  headers <> [] /\ NoDup headers /\
  Forall (fun h => h <> [] /\ trim h = h /\ h <> lit "__proto__") headers /\
  Forall (fun r => length r = length headers /\
                   Forall (fun v => trim v = v) r /\
                   Exists (fun v => v <> []) r) rows.

(** ** Sample tables *)

(** A row object from its cells. *)
Definition rowOf (cells : list (string * string)) : rowobj :=
  list_to_map ((fun kv => (lit kv.1, lit kv.2)) <$> cells).

(** Lines of text joined by line feeds, one after each line. *)
Definition textOf (lines : list string) : str :=
  concat ((fun l => lit l ++ [LF]) <$> lines).

Definition acmeRow : rowobj :=
  rowOf [("Company Name", "Acme"); ("Website", "first.example"); ("Org Types", "Clinic | |Payer")].

Definition acmeAgainRow : rowobj :=
  rowOf [("Company Name", "ACME"); ("Website", "second.example")].

Definition betaRow : rowobj :=
  rowOf [("Company", "Beta"); ("Category", "Lab")].

Definition slowRow : rowobj :=
  rowOf [("Problem", "Slow onboarding"); ("Solution", "Add checklist");
         ("Feature", "Checklist tool")].

Definition acmeSlowLink : rowobj :=
  rowOf [("Company Name", "acme"); ("Problem", "slow onboarding")].

Definition ghostLink : rowobj :=
  rowOf [("Company Name", "Ghost"); ("Problem", "Slow onboarding")].

Definition ghostBlankLink : rowobj :=
  rowOf [("Company Name", "Ghost"); ("Problem", "")].

(** A run whose three sheets are the sample tables, as CSV text. *)
Definition sampleEnv : BuildData.env :=
  BuildData.Env (Some (lit "sheet-1"))
    (fun sheetName =>
       if bool_decide (sheetName = lit "Companies") then
         Some (BuildData.Response true 200
                 (textOf ["Company Name,Website,Org Types";
                          "Acme,first.example,Clinic | |Payer"]))
       else if bool_decide (sheetName = lit "Problems") then
         Some (BuildData.Response true 200
                 (textOf ["Problem,Solution,Feature";
                          "Slow onboarding,Add checklist,Checklist tool"]))
       else if bool_decide (sheetName = lit "Company Solutions") then
         Some (BuildData.Response true 200
                 (textOf ["Company Name,Problem";
                          "acme,slow onboarding";
                          "Ghost,Slow onboarding"]))
       else None).

(** Sample tables of the earliest variant, which finds companies by id. *)
Definition acmeIdRow : rowobj :=
  rowOf [("Company ID", "c1"); ("Company Name", "Acme")].

Definition acmeIdSlowLink : rowobj :=
  rowOf [("Company ID", "c1"); ("Problem", "Slow onboarding")].

(** A link row that names a company of the sample tables and a problem that
    is not in them. *)
Definition acmeUnknownLink : rowobj :=
  rowOf [("Company Name", "Acme"); ("Problem", "No such problem")].

(** The two indices of the earliest variant after the sample tables
    [acmeIdRow] and [slowRow]. *)
Definition slowProblem000 : Part000.Problem :=
  {| Part000.problem := lit "Slow onboarding";
     Part000.solution := Some (lit "Add checklist");
     Part000.feature := Some (lit "Checklist tool") |}.

Definition acmeCompany000 : Part000.Company :=
  {| Part000.id := lit "c1"; Part000.name := lit "Acme";
     Part000.website := None; Part000.location := None; Part000.target := None;
     Part000.org_types := []; Part000.solutions := [] |}.

(** ** Vocabulary of the further properties *)

(** No [x] follows an [x] in [s]. *)
Fixpoint noRepeat (x : N) (s : str) : bool :=
  match s with
  | c :: r => negb ((c =? x) && bool_decide (head r = Some x)) && noRepeat x r
  | [] => true
  end.

(** A cell without a comma or a line break. *)
Definition noSeparator (v : str) : Prop :=
  Forall (fun c => c <> COMMA /\ c <> LF /\ c <> CR) v.

(** The scanner outside quotes, with no separator in any cell so far. *)
Definition cleanState (st : Csv.state) : Prop :=
  Csv.inQuotes st = false /\ Forall (Forall noSeparator) (Csv.rows st) /\
  Forall noSeparator (Csv.row st) /\ noSeparator (Csv.cur st).

(** What scripts/build-data.mjs assumes of the host's [toLowerCase] where it
    falls back on the key for an id: the lower-casing of a text that is not
    empty is not empty. *)
Definition LowerKeepsText `{JsLower} : Prop :=
  forall s, s <> [] -> toLowerCase s <> [].

(** The counters of a run after one more unmatched problem. *)
Definition oneMoreMissingProblem (o : BuildData.output) : BuildData.output :=
  BuildData.Output (BuildData.companies o) (BuildData.missingCompanies o)
                   (S (BuildData.missingProblems o)).

(** A link row with a company reference and a problem text. *)
Definition linkComplete `{JsLower} (s : rowobj) : bool :=
  truthy (linkCompany s) && truthy (linkProblem s).

(** A complete link row whose company reference is no key of the index [m]. *)
Definition namesNoCompany `{JsLower} (m : jsMap BuildData.Company) (s : rowobj) : bool :=
  linkComplete s &&
  match mapGet (linkCompany s) m with None => true | Some _ => false end.

(** A complete link row whose company is in the index [m] and whose problem
    text is no key of the problem index [pm]. *)
Definition namesNoProblem `{JsLower} (m : jsMap BuildData.Company)
    (pm : gmap str BuildData.Problem) (s : rowobj) : bool :=
  linkComplete s &&
  match mapGet (linkCompany s) m with
  | None => false
  | Some _ => match pm !! norm (linkProblem s) with None => true | Some _ => false end
  end.

(** The number of solutions attached to the companies [cs]. *)
Definition attachedCount (cs : list BuildData.Company) : nat :=
  sum_list ((fun c => length (BuildData.solutions c)) <$> cs).

(** The link rows the attach loop has accounted for: the two counters and
    the solutions attached so far. *)
Definition accounted (st : BuildData.tally) : nat :=
  (BuildData.missingCompany st + BuildData.missingProblem st +
   attachedCount (mapValues (BuildData.companyMap st)))%nat.

(** The company key and the problem key a link row names. *)
Definition linkPair `{JsLower} (s : rowobj) : str * str :=
  (linkCompany s, norm (linkProblem s)).

(** A company record of the earliest variant with [ps] pushed onto its
    solutions, one after the other. *)
Definition pushAll (company : Part000.Company) (ps : list Part000.Problem)
    : Part000.Company :=
  foldl Part000.pushSolution company ps.

(** A row object without a cell that is not blank. *)
Definition blankRow (o : rowobj) : Prop := map_Forall (fun _ v => trim v = []) o.

(** A row object of empty cells. *)
Definition blankObject : rowobj :=
  <[lit "Company Name" := []]> {[ lit "Problem" := [] ]}.



(** ** Vocabulary of the properties of part_001 *)

(** The cells of a row of part_001 as a row mapping. *)
Definition cellsOf (o : Part001Run.row) : rowobj := list_to_map o.

(** An alias that [pick] of part_001 can look for inside the model: it is
    not [__keyMap], it is no name that every object inherits, its lower-case
    form is no name of a property of a string, and is not the lower-case form
    of [__keyMap]. *)
Definition safeAlias `{JsLower} (k : str) : Prop :=
  k <> lit "__keyMap" /\ Part000.inherited k = false /\
  Part001Run.stringProperty (Part001Run.lowerKey k) = false /\
  Part001Run.lowerKey k <> Part001Run.lowerKey (lit "__keyMap").

(** What the scripts assume of the host's [toLowerCase] on ASCII text: it is
    the lower-casing of the ASCII letters. *)
Definition LowerAscii `{JsLower} : Prop :=
  forall s, Forall (fun c => c < 128) s -> toLowerCase s = @toLowerCase asciiLower s.

(** The column names part_001 passes to [pick]. *)
Definition aliases001 : list str :=
  [lit "Problem"; lit "Common Problem"; lit "Common Problem "; lit "Solution";
   lit "Our Solution"; lit "OpenRecovery Feature"; lit "Open Recovery Feature";
   lit "Feature"; lit "Company ID"; lit "ID"; lit "Company Name"; lit "Name";
   lit "Website"; lit "URL"; lit "Location"; lit "Target"; lit "Org Types";
   lit "Org Types "; lit "Company"].

(** The row has no [__keyMap] column with text, so that [pick] builds the key
    map from the column names. *)
Definition keyMapBuilt (o : Part001Run.row) : Prop :=
  mapGet (lit "__keyMap") o = None \/ mapGet (lit "__keyMap") o = Some [].

(** The column [h] is the one the key map gives for the alias [k]: the last
    column, in the order of [Object.keys], whose trimmed lower-case name is
    that of [k]. *)
Definition mappedColumn `{JsLower} (o : Part001Run.row) (k h : str) : Prop :=
  exists before after,
    Part001Run.keysOf o = before ++ h :: after /\
    Part001Run.lowerKey h = Part001Run.lowerKey k /\
    Forall (fun h' => Part001Run.lowerKey h' <> Part001Run.lowerKey k) after.

(** The cells the alias [k] stands for in the row [o] of part_001: the cell
    of the column [k] itself, and the cell of the column the key map gives
    for [k], when that column has a name. *)
Definition aliasCell `{JsLower} (o : Part001Run.row) (k v : str) : Prop :=
  mapGet k o = Some v \/
  (keyMapBuilt o /\ exists h, h <> [] /\ mappedColumn o k h /\ mapGet h o = Some v).

(** The key part_001 files a Companies row under, if it files it: the
    normalized id of a row that has an id and a name. *)
Definition filedUnder `{JsLower} (r : Part001Run.row) : option str :=
  i ← Part001Run.pick (Some r) [lit "Company ID"; lit "ID"];
  n ← Part001Run.pick (Some r) [lit "Company Name"; lit "Name"];
  if truthy i && truthy n then Some (norm i) else None.

(** The record part_001 builds from a Companies row, if it files it. *)
Definition recordOf `{JsLower} (r : Part001Run.row) : option Part001Run.Company :=
  i ← Part001Run.pick (Some r) [lit "Company ID"; lit "ID"];
  n ← Part001Run.pick (Some r) [lit "Company Name"; lit "Name"];
  if truthy i && truthy n then Part001Run.mkCompany r i n else None.

(** A company record of part_001 without what the link loop attaches to it. *)
Definition withoutSolutions (c : Part001Run.Company) : Part001Run.Company :=
  {| Part001Run.id := Part001Run.id c; Part001Run.name := Part001Run.name c;
     Part001Run.website := Part001Run.website c;
     Part001Run.location := Part001Run.location c;
     Part001Run.target := Part001Run.target c;
     Part001Run.org_types := Part001Run.org_types c;
     Part001Run.solutions := [] |}.

(** [c] is the record part_001 builds from the Companies row [r], whatever
    was attached to it afterwards. *)
Definition builtFrom001 `{JsLower} (r : Part001Run.row) (c : Part001Run.Company) : Prop :=
  recordOf r = Some (withoutSolutions c).

(** The identity key of a company of the output of the id-keyed script. *)
Definition companyKey001 `{JsLower} (c : Part001Run.Company) : str :=
  norm (Part001Run.id c).

(** The id key and the problem key of a link row of part_001. *)
Definition linkIdKey `{JsLower} (r : Part001Run.row) : option str :=
  norm <$> Part001Run.pick (Some r) [lit "Company ID"; lit "ID"].

Definition linkProblemKey `{JsLower} (r : Part001Run.row) : option str :=
  Part001.keyify <$> Part001Run.pick (Some r) [lit "Problem"; lit "Common Problem"].

(** A key that is no name every plain object inherits. *)
Definition notInherited (k : option str) : Prop :=
  forall k', k = Some k' -> Part000.inherited k' = false.

(** Tables whose keys stay clear of the names every plain object inherits:
    no Companies row is filed under [__proto__], and no link row has an id
    key or a problem key that is an inherited name. *)
Definition covered `{JsLower} (cs ls : list Part001Run.row) : Prop :=
  Forall (fun r => filedUnder r <> Some (lit "__proto__")) cs /\
  Forall (fun r => notInherited (linkIdKey r) /\ notInherited (linkProblemKey r)) ls.

(** The problem key of a solution in part_001. *)
Definition problemKey001 `{JsLower} (p : Part001Run.Problem) : str :=
  Part001.keyify (Part001Run.problem p).

(** What the link loop of part_001 looks for a company with: the key the
    link row [r] leads to in the company index [cm], if any. *)
Definition linkTarget `{JsLower} (cm : Part000.dict Part001Run.Company)
    (r : Part001Run.row) : option (option str) :=
  cid ← Part001Run.pick (Some r) [lit "Company ID"; lit "ID"];
  cn ← Part001Run.pick (Some r) [lit "Company Name"; lit "Company"];
  Part001Run.findCompany cm (norm cid) (norm cn).

(** A link row that leads to no company of the index [cm]. *)
Definition noTarget `{JsLower} (cm : Part000.dict Part001Run.Company)
    (r : Part001Run.row) : bool :=
  match linkTarget cm r with Some None => true | _ => false end.

(** The link row [r] of part_001 resolves to no company of the index [cm]:
    its id key is empty or the key of no company, and its normalized company
    name is the normalized name of no company. *)
Definition resolvesToNone `{JsLower} (cm : Part000.dict Part001Run.Company)
    (r : Part001Run.row) : Prop :=
  exists i n,
    Part001Run.pick (Some r) [lit "Company ID"; lit "ID"] = Some i /\
    Part001Run.pick (Some r) [lit "Company Name"; lit "Company"] = Some n /\
    (norm i = [] \/ mapGet (norm i) cm = None) /\
    Forall (fun e => norm (Part001Run.name e.2) <> norm n) cm.

(** The number of solutions attached to the companies [cs] of part_001. *)
Definition attachedCount001 (cs : list Part001Run.Company) : nat :=
  sum_list ((fun c => length (Part001Run.solutions c)) <$> cs).

(** The keys and the names of a company index. *)
Definition skeleton (cm : Part000.dict Part001Run.Company) : list (str * str) :=
  prod_map id Part001Run.name <$> cm.

(** What a run of part_001 leaves behind after one more unmatched company. *)
Definition oneMoreNoCompany (o : Part001Run.output) : Part001Run.output :=
  Part001Run.Output (Part001Run.companies o) (Part001Run.matched o)
                    (S (Part001Run.noCompany o)) (Part001Run.noProblem o).

(** Pieces put together again with the separator between them. *)
Fixpoint joinWith (sep : N) (pieces : list str) : str :=
  match pieces with
  | [] => []
  | [p] => p
  | p :: ps => p ++ sep :: joinWith sep ps
  end.

(** A row of part_001 with the given columns, in order. *)
Definition row001 (cells : list (string * string)) : Part001Run.row :=
  (fun kv => (lit kv.1, lit kv.2)) <$> cells.

(** The sample tables as part_001 reads them. *)
Definition acmeIdRow001 : Part001Run.row :=
  row001 [("Company ID", "c1"); ("Company Name", "Acme")].

Definition acmeAgainIdRow001 : Part001Run.row :=
  row001 [("Company ID", " C1 "); ("Company Name", "ACME"); ("Org Types", " Clinic | |Payer")].

Definition slowRow001 : Part001Run.row :=
  row001 [("Problem", "Slow onboarding"); ("Solution", "Add checklist");
          ("Feature", "Checklist tool")].

Definition acmeIdSlowLink001 : Part001Run.row :=
  row001 [("Company ID", "c1"); ("Problem", "Slow onboarding")].

Definition acmeUnknownLink001 : Part001Run.row :=
  row001 [("Company Name", "Acme"); ("Problem", "No such problem")].

Definition ghostBlankLink001 : Part001Run.row :=
  row001 [("Company Name", "Ghost"); ("Problem", " ")].

(** The records part_001 builds from the sample tables. *)
Definition acmeCompany001 : Part001Run.Company :=
  {| Part001Run.id := lit "c1"; Part001Run.name := lit "Acme";
     Part001Run.website := []; Part001Run.location := []; Part001Run.target := [];
     Part001Run.org_types := []; Part001Run.solutions := [] |}.

Definition slowProblem001 : Part001Run.Problem :=
  {| Part001Run.problem := lit "Slow onboarding";
     Part001Run.solution := lit "Add checklist";
     Part001Run.feature := lit "Checklist tool" |}.

(** * Properties *)

(** ** Strings *)

Section Strings.

Implicit Types (s t : str) (p : N -> bool) (c : N).

Lemma truthy_true s : truthy s = true <-> s <> [].
Proof. destruct s; simpl; split; congruence. Qed.

Lemma dropStart_app p s t :
  dropStart p (s ++ t) =
  match dropStart p s with [] => dropStart p t | r => r ++ t end.
Proof.
  induction s as [|c s IH]; simpl; [by destruct (dropStart p t)|].
  destruct (p c); [exact IH | reflexivity].
Qed.

Lemma dropStart_idem p s : dropStart p (dropStart p s) = dropStart p s.
Proof.
  induction s as [|c s IH]; simpl; [done|].
  destruct (p c) eqn:E; [exact IH | simpl; by rewrite E].
Qed.

(** What is left starts with a character outside the class. *)
Lemma dropStart_head p s c r : dropStart p s = c :: r -> p c = false.
Proof.
  induction s as [|d s IH]; simpl; [done|].
  destruct (p d) eqn:E; [exact IH | congruence].
Qed.

Lemma dropStart_suffix p s : exists t, s = t ++ dropStart p s /\ forallb p t = true.
Proof.
  induction s as [|c s [t [Ht Hp]]]; simpl; [by exists []|].
  destruct (p c) eqn:E.
  - exists (c :: t). simpl. rewrite E, Hp. split; [by f_equal | done].
  - by exists [].
Qed.

Lemma dropStart_all p s : forallb p s = true -> dropStart p s = [].
Proof.
  induction s as [|c s IH]; simpl; [done|].
  intros [-> H]%andb_true_iff. auto.
Qed.

Lemma dropStart_nil_all p s : dropStart p s = [] -> forallb p s = true.
Proof.
  induction s as [|c s IH]; simpl; [done|].
  destruct (p c); [exact IH | done].
Qed.

Lemma dropStart_keep p c s : p c = false -> dropStart p (c :: s) = c :: s.
Proof. intros E. simpl. by rewrite E. Qed.

(** The structural reading of [dropEnd]. *)
Lemma dropEnd_cons p c s :
  dropEnd p (c :: s) =
  match dropEnd p s with
  | [] => if p c then [] else [c]
  | r => c :: r
  end.
Proof.
  unfold dropEnd. rewrite reverse_cons, dropStart_app.
  destruct (dropStart p (reverse s)) as [|d r] eqn:E.
  - simpl. by destruct (p c).
  - rewrite reverse_app, reverse_singleton. simpl.
    destruct (reverse (d :: r)) eqn:E'; [|done].
    apply (f_equal reverse) in E'. rewrite reverse_involutive in E'. done.
Qed.

Lemma dropEnd_idem p s : dropEnd p (dropEnd p s) = dropEnd p s.
Proof.
  unfold dropEnd. by rewrite reverse_involutive, dropStart_idem.
Qed.

Lemma dropEnd_prefix p s : exists t, s = dropEnd p s ++ t /\ forallb p t = true.
Proof.
  destruct (dropStart_suffix p (reverse s)) as [t [Ht Hp]].
  exists (reverse t). split.
  - unfold dropEnd. rewrite <- reverse_app, <- Ht. by rewrite reverse_involutive.
  - rewrite forallb_forall in *. intros x Hx. apply Hp.
    apply list_elem_of_In. apply list_elem_of_In in Hx. by apply elem_of_reverse.
Qed.

Lemma dropEnd_all p s : forallb p s = true -> dropEnd p s = [].
Proof.
  intros H. unfold dropEnd. rewrite dropStart_all; [done|].
  rewrite forallb_forall in *. intros x Hx. apply H.
  apply list_elem_of_In. apply list_elem_of_In in Hx. by rewrite elem_of_reverse in Hx.
Qed.

(** [dropEnd] keeps a first character that is outside the class. *)
Lemma dropEnd_keeps_head p c s :
  p c = false -> exists r, dropEnd p (c :: s) = c :: r.
Proof.
  intros E. rewrite dropEnd_cons. destruct (dropEnd p s); rewrite ?E; eauto.
Qed.

Lemma dropStart_dropEnd p s :
  dropStart p (dropEnd p (dropStart p s)) = dropEnd p (dropStart p s).
Proof.
  destruct (dropStart p s) as [|c r] eqn:E; [done|].
  apply dropStart_head in E.
  destruct (dropEnd_keeps_head p c r E) as [r' ->]. by apply dropStart_keep.
Qed.

Lemma trim_idem s : trim (trim s) = trim s.
Proof.
  unfold trim, trimStart, trimEnd.
  by rewrite dropStart_dropEnd, dropEnd_idem.
Qed.

(** [trim] leaves nothing exactly when every character is white space. *)
Lemma trim_nil_iff s : trim s = [] <-> forallb isWhite s = true.
Proof.
  unfold trim, trimStart, trimEnd. split.
  - intros H. destruct (dropStart isWhite s) as [|c r] eqn:E.
    + by apply dropStart_nil_all in E.
    + apply dropStart_head in E.
      destruct (dropEnd_keeps_head isWhite c r E) as [r' Hr]. congruence.
  - intros H. by rewrite dropStart_all.
Qed.

(** A trimmed string is the original without white space at both ends. *)
Lemma trim_middle s :
  exists l r, s = l ++ trim s ++ r /\ forallb isWhite l = true /\ forallb isWhite r = true.
Proof.
  unfold trim, trimStart, trimEnd.
  destruct (dropStart_suffix isWhite s) as [l [Hl Hwl]].
  destruct (dropEnd_prefix isWhite (dropStart isWhite s)) as [r [Hr Hwr]].
  exists l, r. by rewrite <- Hr.
Qed.

Lemma trim_Forall (P : N -> Prop) s : Forall P s -> Forall P (trim s).
Proof.
  intros H. destruct (trim_middle s) as (l & r & E & _). rewrite E in H.
  by apply Forall_app in H as [_ [H _]%Forall_app].
Qed.

Lemma dropEnd_app_all p s t : forallb p t = true -> dropEnd p (s ++ t) = dropEnd p s.
Proof.
  intros Ht. unfold dropEnd. rewrite reverse_app, dropStart_app.
  rewrite (dropStart_all p (reverse t)); [done|].
  rewrite forallb_forall in *. intros x Hx. apply Ht.
  apply list_elem_of_In. apply list_elem_of_In in Hx. by rewrite elem_of_reverse in Hx.
Qed.

Lemma trim_app_white_l l s : forallb isWhite l = true -> trim (l ++ s) = trim s.
Proof.
  intros Hl. unfold trim, trimStart. by rewrite dropStart_app, (dropStart_all _ l Hl).
Qed.

Lemma trim_app_white_r s r : forallb isWhite r = true -> trim (s ++ r) = trim s.
Proof.
  intros Hr. unfold trim, trimStart, trimEnd. rewrite dropStart_app.
  destruct (dropStart isWhite s) as [|c q] eqn:E.
  - by rewrite (dropStart_all _ r Hr).
  - by apply dropEnd_app_all.
Qed.

(** A trimmed string that is not empty has a character that is not white
    space: it is neither empty nor blank. *)
Lemma trim_truthy_not_blank s :
  truthy (trim s) = true -> trim s <> [] /\ forallb isWhite (trim s) = false.
Proof.
  intros Ht. apply truthy_true in Ht. split; [done|].
  destruct (forallb isWhite (trim s)) eqn:E; [|done].
  apply trim_nil_iff in E. by rewrite trim_idem in E.
Qed.

(** ** [split] on a character *)

Lemma splitOn_not_nil sep s : splitOn sep s <> [].
Proof.
  destruct s as [|c s]; simpl; [done|].
  destruct (c =? sep); [done|]. by destruct (splitOn sep s).
Qed.

Lemma splitOn_app_l sep l s :
  Forall (fun c => c <> sep) l ->
  splitOn sep (l ++ s) =
  match splitOn sep s with p :: ps => (l ++ p) :: ps | [] => [l] end.
Proof.
  induction 1 as [|c l Hc Hl IH]; simpl.
  - destruct (splitOn sep s) eqn:E; [by apply splitOn_not_nil in E | done].
  - apply N.eqb_neq in Hc. rewrite Hc, IH.
    destruct (splitOn sep s) eqn:E; [by apply splitOn_not_nil in E | done].
Qed.

Lemma splitOn_app_r sep s r :
  Forall (fun c => c <> sep) r ->
  splitOn sep (s ++ r) = appLast (splitOn sep s) r.
Proof.
  intros Hr. induction s as [|c s IH]; simpl.
  - pose proof (splitOn_app_l sep r [] Hr) as E. rewrite app_nil_r in E.
    rewrite E. simpl. by rewrite app_nil_r.
  - destruct (c =? sep).
    + rewrite IH. destruct (splitOn sep s) eqn:E; [by apply splitOn_not_nil in E | done].
    + rewrite IH. destruct (splitOn sep s) as [|q [|q' ps]] eqn:E;
        [by apply splitOn_not_nil in E | done | done].
Qed.

Lemma trim_appLast ps r :
  ps <> [] -> forallb isWhite r = true -> trim <$> appLast ps r = trim <$> ps.
Proof.
  intros Hps Hr. induction ps as [|q ps IH]; [done|].
  destruct ps as [|q' ps].
  - simpl. by rewrite trim_app_white_r.
  - change (appLast (q :: q' :: ps) r) with (q :: appLast (q' :: ps) r).
    rewrite !fmap_cons. f_equal. rewrite <- fmap_cons. by apply IH.
Qed.

Lemma white_not_pipe s : forallb isWhite s = true -> Forall (fun c => c <> PIPE) s.
Proof.
  intros Hs. apply Forall_forall. intros c Hc%list_elem_of_In.
  rewrite forallb_forall in Hs. specialize (Hs c Hc). intros ->. done.
Qed.

(** The org types of a cell do not depend on white space around it. *)
Lemma orgTypes_trim v : orgTypes (trim v) = orgTypes v.
Proof.
  destruct (trim_middle v) as (l & r & E & Hl & Hr).
  unfold orgTypes. f_equal. rewrite E at 2.
  rewrite (splitOn_app_l PIPE l _ (white_not_pipe l Hl)).
  rewrite (splitOn_app_r PIPE _ r (white_not_pipe r Hr)).
  destruct (appLast (splitOn PIPE (trim v)) r) as [|q ps] eqn:Ea.
  - exfalso. destruct (splitOn PIPE (trim v)) as [|q [|q' ps]] eqn:Es; simpl in Ea;
      [by apply splitOn_not_nil in Es | done | done].
  - rewrite fmap_cons, trim_app_white_l by done. rewrite <- fmap_cons, <- Ea.
    apply eq_sym, trim_appLast; [apply splitOn_not_nil | done].
Qed.

(** No org type is empty or blank. *)
Lemma orgTypes_not_blank v :
  Forall (fun x => x <> [] /\ forallb isWhite x = false) (orgTypes v).
Proof.
  unfold orgTypes. apply Forall_forall. intros x Hx%list_elem_of_In.
  apply filter_In in Hx as [Hx Ht].
  apply list_elem_of_In, list_elem_of_fmap in Hx as [y [-> _]].
  by apply trim_truthy_not_blank.
Qed.

End Strings.

(** ** [keyify] *)

Section Keyify.

Context `{JsLower}.

Ltac chars :=
  unfold plain, Part001.keptByKeyify, isLowerAlnum, isWhite, SPACE, NBSP, HYPHEN,
    UNDERSCORE, DQUOTE in *;
  rewrite ?orb_true_iff, ?orb_false_iff, ?andb_true_iff, ?andb_false_iff,
    ?N.eqb_eq, ?N.eqb_neq, ?N.leb_le, ?N.leb_gt in *.

Lemma alnum_not_white c : isLowerAlnum c = true -> isWhite c = false.
Proof. chars. lia. Qed.

Lemma alnum_not_space c : isLowerAlnum c = true -> (c =? SPACE) = false.
Proof. chars. lia. Qed.

Lemma tidy_weaken b s : tidy b s = true -> tidy false s = true.
Proof. destruct s as [|c s]; simpl; [done|]. destruct (c =? SPACE), b; simpl; done. Qed.

Lemma tidy_plain b s : tidy b s = true -> plainText s.
Proof.
  revert b. induction s as [|c s IH]; intros b; simpl; [constructor|].
  destruct (N.eqb_spec c SPACE) as [->|Hc].
  - intros [_ Hs]%andb_true_iff. constructor; [by right | by eapply IH].
  - intros [Hc' Hs]%andb_true_iff. constructor; [by left | by eapply IH].
Qed.

Lemma tidy_app_l b s t : tidy b (s ++ t) = true -> tidy b s = true.
Proof.
  revert b. induction s as [|c s IH]; intros b; simpl; [done|].
  destruct (c =? SPACE).
  - intros [-> Hs]%andb_true_iff. simpl. by eapply IH.
  - intros [-> Hs]%andb_true_iff. simpl. by eapply IH.
Qed.

Lemma tidy_app_r b s t : tidy b (s ++ t) = true -> tidy false t = true.
Proof.
  revert b. induction s as [|c s IH]; intros b; simpl; [apply tidy_weaken|].
  destruct (c =? SPACE); intros [_ Hs]%andb_true_iff; by eapply IH.
Qed.

Lemma tidy_trim s : tidy false s = true -> tidy false (trim s) = true.
Proof.
  intros Hs. destruct (trim_middle s) as (l & r & E & _). rewrite E in Hs.
  apply tidy_app_r in Hs. by apply tidy_app_l in Hs.
Qed.

(** Squeezing runs of white space leaves a tidy text, when every other
    character is in [a-z0-9]. *)
Lemma squeeze_tidy b s :
  Forall (fun c => isLowerAlnum c = true \/ isWhite c = true) s ->
  tidy b (squeeze isWhite SPACE b s) = true.
Proof.
  intros Hs. revert b. induction Hs as [|c s Hc Hs IH]; intros b; simpl; [done|].
  destruct (isWhite c) eqn:Ew.
  - destruct b; [apply IH|]. simpl. apply IH.
  - destruct Hc as [Hc|Hc]; [|congruence]. simpl.
    rewrite (alnum_not_space c Hc), Hc. simpl. apply IH.
Qed.

(** A tidy text has no run to squeeze. *)
Lemma squeeze_tidy_id b s : tidy b s = true -> squeeze isWhite SPACE b s = s.
Proof.
  revert b. induction s as [|c s IH]; intros b; simpl; [done|].
  destruct (N.eqb_spec c SPACE) as [->|Hc].
  - intros [Hb Hs]%andb_true_iff. destruct b; [done|].
    change (isWhite SPACE) with true. simpl. f_equal. by apply IH.
  - intros [Ha Hs]%andb_true_iff. rewrite (alnum_not_white c Ha).
    f_equal. by apply IH.
Qed.

Lemma replaceChars_id (from : N -> bool) to s :
  Forall (fun c => from c = false) s -> Part001.replaceChars from to s = s.
Proof.
  unfold Part001.replaceChars. induction 1 as [|c s Hc Hs IH]; simpl; [done|].
  rewrite Hc. by f_equal.
Qed.

(** The result of [keyify] is tidy: letters, digits and single spaces. *)
Lemma keyify_tidy x : tidy false (Part001.keyify x) = true.
Proof.
  unfold Part001.keyify, replaceRuns. apply tidy_trim, squeeze_tidy.
  match goal with |- context [List.filter _ ?l] => generalize l end.
  intros l. unfold Part001.replaceChars.
  induction l as [|c l IH]; simpl; [constructor|].
  destruct (Part001.keptByKeyify c) eqn:E; [|exact IH].
  simpl. constructor; [|exact IH].
  destruct ((c =? HYPHEN) || (c =? UNDERSCORE)) eqn:E'.
  - by right.
  - revert E E'. chars. lia.
Qed.

(** [keyify] leaves a tidy text unchanged, when [toLowerCase] does. *)
Lemma keyify_fixed s :
  LowerKeepsPlain -> tidy false s = true -> trim s = s -> Part001.keyify s = s.
Proof.
  intros Hlow Ht Htrim. pose proof (tidy_plain _ _ Ht) as Hp.
  unfold Part001.keyify, norm. rewrite Htrim, (Hlow s Hp).
  assert (Hid : forall from to,
             (forall c, plain c -> from c = false) ->
             Part001.replaceChars from to s = s).
  { intros from to Hf. apply replaceChars_id.
    eapply Forall_impl; [exact Hp | exact Hf]. }
  rewrite (Hid (N.eqb NBSP)) by (intros c; chars; lia).
  rewrite (Hid (fun c => (c =? 8220) || (c =? 8221))) by (intros c; chars; lia).
  rewrite (Hid (fun c => (c =? 8216) || (c =? 8217))) by (intros c; chars; lia).
  rewrite forallb_filter_id.
  - rewrite (Hid (fun c => (c =? HYPHEN) || (c =? UNDERSCORE)))
      by (intros c; chars; lia).
    unfold replaceRuns. by rewrite squeeze_tidy_id.
  - apply forallb_forall. intros c Hc%list_elem_of_In.
    eapply Forall_forall in Hp; [|exact Hc]. revert Hp. chars. lia.
Qed.

End Keyify.

Lemma asciiLower_keeps_plain : @LowerKeepsPlain asciiLower.
Proof.
  intros s Hs. unfold toLowerCase, asciiLower.
  induction Hs as [|c s Hc Hs IH]; [done|].
  rewrite fmap_cons, IH. f_equal.
  destruct ((65 <=? c) && (c <=? 90)) eqn:E; [|done].
  revert Hc E. unfold plain, isLowerAlnum, SPACE.
  rewrite ?orb_true_iff, ?andb_true_iff, ?N.leb_le. lia.
Qed.

(** C8.  [keyify] is idempotent: applied to one of its own results it
    returns that result, for every string, on any host whose [toLowerCase]
    leaves lower-case ASCII letters, digits and spaces alone. *)
Theorem keyify_idempotent `{JsLower} :
  LowerKeepsPlain ->
  forall s, Part001.keyify (Part001.keyify s) = Part001.keyify s.
Proof.
  intros Hlow s. apply keyify_fixed; [exact Hlow | apply keyify_tidy |].
  unfold Part001.keyify at 2. apply trim_idem.
Qed.

Lemma keyify_idempotent_witness :
  @LowerKeepsPlain asciiLower /\
  @Part001.keyify asciiLower
    (@Part001.keyify asciiLower (lit "  Slow_On-boarding:  it's HARD! " ++ [NBSP; 8221])) =
  @Part001.keyify asciiLower (lit "  Slow_On-boarding:  it's HARD! " ++ [NBSP; 8221]).
Proof.
  split; [exact asciiLower_keeps_plain|].
  exact (@keyify_idempotent asciiLower asciiLower_keeps_plain
           (lit "  Slow_On-boarding:  it's HARD! " ++ [NBSP; 8221])).
Defined.

Example keyify_sample :
  @Part001.keyify asciiLower (lit "  Slow_On-boarding:  it's HARD! " ++ [NBSP; 8221]) =
  lit "slowon boarding its hard".
Proof. vm_compute. reflexivity. Qed.

(** ** The insertion-ordered map *)

Section JsMap.

Context {V : Type}.
Implicit Types (m : jsMap V) (k : str) (v : V).

Lemma mapGet_mapSet_eq k v m : mapGet k (mapSet k v m) = Some v.
Proof.
  induction m as [|[k' v'] m IH]; simpl; [by rewrite bool_decide_eq_true_2|].
  destruct (bool_decide (k' = k)) eqn:E; simpl.
  - by rewrite bool_decide_eq_true_2.
  - by rewrite E.
Qed.

Lemma mapGet_mapSet_ne k k' v m : k <> k' -> mapGet k' (mapSet k v m) = mapGet k' m.
Proof.
  intros Hne. induction m as [|[k0 v0] m IH]; simpl.
  - by rewrite bool_decide_eq_false_2.
  - destruct (bool_decide (k0 = k)) eqn:E; simpl.
    + apply bool_decide_eq_true in E as ->.
      by rewrite !bool_decide_eq_false_2.
    + by rewrite IH.
Qed.

Lemma mapGet_Some_elem k v m : mapGet k m = Some v -> (k, v) ∈ m.
Proof.
  induction m as [|[k' v'] m IH]; simpl; [done|].
  case_bool_decide as E.
  - intros [= ->]. subst. left.
  - intros Hm. right. auto.
Qed.

Lemma mapGet_None_keys k m : mapGet k m = None <-> k ∉ m.*1.
Proof.
  induction m as [|[k' v'] m IH]; simpl.
  - split; [intros _; apply not_elem_of_nil | done].
  - case_bool_decide as E.
    + subst. split; [done|]. intros Hn. exfalso. apply Hn. left.
    + rewrite IH, not_elem_of_cons.
      split; [intros ?; split; [congruence | done] | by intros [_ ?]].
Qed.

(** [set] on a key that is present keeps the keys and their order. *)
Lemma mapSet_keys_present k v m : k ∈ m.*1 -> (mapSet k v m).*1 = m.*1.
Proof.
  induction m as [|[k' v'] m IH]; simpl; [by intros ?%elem_of_nil|].
  case_bool_decide as E; simpl.
  - intros _. congruence.
  - intros [?|Hin]%elem_of_cons; [congruence|]. f_equal. by apply IH.
Qed.

(** [set] on a new key adds it at the end. *)
Lemma mapSet_keys_absent k v m : k ∉ m.*1 -> (mapSet k v m).*1 = m.*1 ++ [k].
Proof.
  induction m as [|[k' v'] m IH]; simpl; [done|].
  intros [Hne Hin]%not_elem_of_cons.
  rewrite bool_decide_eq_false_2 by congruence. simpl. f_equal. by apply IH.
Qed.

Lemma mapSet_NoDup k v m : NoDup m.*1 -> NoDup (mapSet k v m).*1.
Proof.
  intros Hnd. destruct (decide (k ∈ m.*1)) as [Hin|Hin].
  - by rewrite mapSet_keys_present.
  - rewrite mapSet_keys_absent by done.
    apply NoDup_app. split_and!; [done | | apply NoDup_singleton].
    intros x Hx Hx'%list_elem_of_singleton. by subst.
Qed.

Lemma mapSet_Forall (P : str * V -> Prop) k v m :
  Forall P m -> P (k, v) -> Forall P (mapSet k v m).
Proof.
  intros Hm Hkv. induction Hm as [|[k' v'] m Hx Hm IH]; simpl.
  - by constructor.
  - case_bool_decide; constructor; auto.
Qed.

Lemma mapGet_Some_keys k v m : mapGet k m = Some v -> k ∈ m.*1.
Proof.
  intros Hg. apply mapGet_Some_elem in Hg.
  apply list_elem_of_fmap. by exists (k, v).
Qed.

Lemma mapGet_Some_value k v m : mapGet k m = Some v -> v ∈ mapValues m.
Proof.
  intros Hg. apply mapGet_Some_elem in Hg.
  apply list_elem_of_fmap. by exists (k, v).
Qed.

End JsMap.

(** ** The reconciler of scripts/build-data.mjs *)

Section Reconcile.

Context `{JsLower}.

Implicit Types (pm : gmap str BuildData.Problem) (st : BuildData.tally)
  (s r : rowobj) (m : jsMap BuildData.Company).

(** The four ways a link row can go. *)
Lemma attach_cases pm st s :
  BuildData.attach pm st s = st
  \/ (truthy (linkCompany s) = true /\ truthy (linkProblem s) = true /\
      mapGet (linkCompany s) (BuildData.companyMap st) = None /\
      BuildData.attach pm st s =
        BuildData.Tally (BuildData.companyMap st) (S (BuildData.missingCompany st))
                        (BuildData.missingProblem st))
  \/ (pm !! norm (linkProblem s) = None /\
      BuildData.attach pm st s =
        BuildData.Tally (BuildData.companyMap st) (BuildData.missingCompany st)
                        (S (BuildData.missingProblem st)))
  \/ (exists company p,
        mapGet (linkCompany s) (BuildData.companyMap st) = Some company /\
        pm !! norm (linkProblem s) = Some p /\
        BuildData.hasProblem company p = false /\
        BuildData.attach pm st s =
          BuildData.Tally
            (mapSet (linkCompany s) (BuildData.pushSolution company p)
                    (BuildData.companyMap st))
            (BuildData.missingCompany st) (BuildData.missingProblem st)).
Proof.
  unfold BuildData.attach. fold (linkCompany s). fold (linkProblem s).
  destruct (truthy (linkCompany s)) eqn:Ec; simpl; [|by left].
  destruct (truthy (linkProblem s)) eqn:Ep; simpl; [|by left].
  destruct (mapGet (linkCompany s) (BuildData.companyMap st)) as [company|] eqn:Eg.
  - destruct (pm !! norm (linkProblem s)) as [p|] eqn:El.
    + destruct (BuildData.hasProblem company p) eqn:Eh; [by left|].
      right; right; right. by exists company, p.
    + right; right; left. done.
  - right; left. done.
Qed.

(** A property of the company map that every push keeps is kept by the
    whole loop. *)
Lemma attach_fold_invariant pm (Inv : jsMap BuildData.Company -> Prop) :
  (forall m k company p key,
      Inv m -> mapGet k m = Some company -> pm !! key = Some p ->
      BuildData.hasProblem company p = false ->
      Inv (mapSet k (BuildData.pushSolution company p) m)) ->
  forall ls st,
    Inv (BuildData.companyMap st) ->
    Inv (BuildData.companyMap (foldl (BuildData.attach pm) st ls)).
Proof.
  intros Hstep ls. induction ls as [|s ls IH]; intros st Hst; simpl; [done|].
  apply IH.
  destruct (attach_cases pm st s) as [-> | [(_ & _ & _ & ->) | [(_ & ->) | Hpush]]];
    try done.
  destruct Hpush as (company & p & Hg & Hl & Hh & ->). simpl. eauto.
Qed.

(** The loop neither adds nor removes nor reorders a key. *)
Lemma attach_fold_keys pm ls st :
  (BuildData.companyMap (foldl (BuildData.attach pm) st ls)).*1 =
  (BuildData.companyMap st).*1.
Proof.
  apply (attach_fold_invariant pm
           (fun m => m.*1 = (BuildData.companyMap st).*1)); [|done].
  intros m k company p key Hm Hg _ _.
  rewrite mapSet_keys_present; [done|]. by eapply mapGet_Some_keys.
Qed.

(** The counter of unmatched companies is only ever passed along. *)
Lemma attach_bump pm m a b s :
  BuildData.attach pm (BuildData.Tally m (S a) b) s =
  let st := BuildData.attach pm (BuildData.Tally m a b) s in
  BuildData.Tally (BuildData.companyMap st) (S (BuildData.missingCompany st))
                  (BuildData.missingProblem st).
Proof.
  unfold BuildData.attach. simpl.
  repeat (match goal with
          | |- context [if ?b then _ else _] => destruct b
          | |- context [match ?o with Some _ => _ | None => _ end] => destruct o
          end; simpl; try done).
Qed.

Lemma attach_fold_bump pm ls m a b :
  foldl (BuildData.attach pm) (BuildData.Tally m (S a) b) ls =
  let st := foldl (BuildData.attach pm) (BuildData.Tally m a b) ls in
  BuildData.Tally (BuildData.companyMap st) (S (BuildData.missingCompany st))
                  (BuildData.missingProblem st).
Proof.
  revert m a b. induction ls as [|s ls IH]; intros m a b; simpl; [done|].
  rewrite attach_bump. simpl.
  destruct (BuildData.attach pm (BuildData.Tally m a b) s) as [m' a' b']. simpl.
  apply IH.
Qed.

(** A link row that is skipped leaves the run as it would be without it. *)
Lemma reconcile_skip cs ps pre s post :
  (forall pm st, BuildData.attach pm st s = st) ->
  BuildData.reconcile cs ps (pre ++ s :: post) = BuildData.reconcile cs ps (pre ++ post).
Proof.
  intros Hs. unfold BuildData.reconcile. rewrite !foldl_app. simpl. by rewrite Hs.
Qed.

End Reconcile.

(** ** Sample runs *)

Example sample_sheets_parsed :
  BuildData.parseCSV
    (textOf ["Company Name,Problem"; "acme,slow onboarding"; "Ghost,Slow onboarding"])
  = [acmeSlowLink; ghostLink].
Proof. vm_compute. reflexivity. Qed.

Example sample_run :
  @BuildData.main asciiLower sampleEnv =
  BuildData.Ok
    (BuildData.Output
       [ {| BuildData.id := lit "acme"; BuildData.name := lit "Acme";
            BuildData.website := lit "first.example"; BuildData.location := [];
            BuildData.target := [];
            BuildData.org_types := [lit "Clinic"; lit "Payer"];
            BuildData.solutions :=
              [ {| BuildData.problem := lit "Slow onboarding";
                   BuildData.solution := lit "Add checklist";
                   BuildData.feature := lit "Checklist tool" |} ];
            BuildData.problems := [lit "Slow onboarding"] |} ]
       1 0).
Proof. vm_compute. reflexivity. Qed.


(** ** The run as a whole *)

(** Once the sheets are loaded and their headers accepted, the run ends
    with the reconciled output: nothing in reconciliation raises. *)
Lemma main_completes `{JsLower} e cs ps ls :
  sheetsAccepted e cs ps ls ->
  BuildData.main e = BuildData.Ok (BuildData.reconcile cs ps ls).
Proof.
  intros ((c & i & Hid) & Hc & Hp & Hl & Hac & Hap & Hal).
  unfold BuildData.main. rewrite Hid, Hc. simpl. rewrite Hp. simpl.
  rewrite Hl. simpl. rewrite Hac. simpl. rewrite Hap. simpl. by rewrite Hal.
Qed.

(** C9.  In scripts/build-data.mjs a link row whose company reference or
    whose problem text is blank is skipped before any lookup: the loop body
    returns the state it was given (both counters and every company
    unchanged), and the run is the run without that row. *)
Theorem blank_link_row_skipped `{JsLower} (s : rowobj) :
  truthy (linkCompany s) = false \/ truthy (linkProblem s) = false ->
  (forall pm st, BuildData.attach pm st s = st) /\
  (forall cs ps pre post,
      BuildData.reconcile cs ps (pre ++ s :: post) =
      BuildData.reconcile cs ps (pre ++ post)).
Proof.
  intros Hblank.
  assert (Hskip : forall pm st, BuildData.attach pm st s = st).
  { intros pm st. unfold BuildData.attach.
    fold (linkCompany s). fold (linkProblem s).
    destruct Hblank as [-> | ->]; simpl; [done|].
    by destruct (truthy (linkCompany s)). }
  split; [exact Hskip|].
  intros cs ps pre post. by apply reconcile_skip.
Qed.

Lemma blank_link_row_skipped_witness :
  (truthy (@linkCompany asciiLower ghostBlankLink) = false \/
   truthy (linkProblem ghostBlankLink) = false) /\
  @BuildData.reconcile asciiLower [acmeRow] [slowRow] ([acmeSlowLink] ++ ghostBlankLink :: []) =
  @BuildData.reconcile asciiLower [acmeRow] [slowRow] ([acmeSlowLink] ++ []).
Proof.
  split; [right; reflexivity|].
  apply (@blank_link_row_skipped asciiLower ghostBlankLink). right. reflexivity.
Defined.

(** In scripts/build-data.mjs a link row with a company reference and a
    problem text, whose company reference is the key of no company, adds one
    to the count of unmatched companies and changes nothing else: the run is
    the run without the row, with that count one higher.  With such a row
    in the table a run whose sheets were accepted still ends normally. *)
Lemma missing_company_bumps `{JsLower} cs ps pre r post :
  truthy (linkCompany r) = true ->
  truthy (linkProblem r) = true ->
  mapGet (linkCompany r) (foldl BuildData.addCompany [] cs) = None ->
  BuildData.reconcile cs ps (pre ++ r :: post) =
    oneMoreMissingCompany (BuildData.reconcile cs ps (pre ++ post))
  /\ forall e, sheetsAccepted e cs ps (pre ++ r :: post) ->
       BuildData.main e = BuildData.Ok (BuildData.reconcile cs ps (pre ++ r :: post)).
Proof.
  intros Hc Hp Hnone. split; [|intros e He; by apply main_completes].
  unfold BuildData.reconcile, oneMoreMissingCompany. simpl.
  rewrite !foldl_app. simpl.
  set (pm := foldl BuildData.addProblem ∅ ps).
  set (st := foldl (BuildData.attach pm)
               (BuildData.Tally (foldl BuildData.addCompany [] cs) 0 0) pre).
  assert (Hst : mapGet (linkCompany r) (BuildData.companyMap st) = None).
  { apply mapGet_None_keys. subst st. rewrite attach_fold_keys. simpl.
    by apply mapGet_None_keys. }
  assert (Hr : BuildData.attach pm st r =
               BuildData.Tally (BuildData.companyMap st)
                 (S (BuildData.missingCompany st)) (BuildData.missingProblem st)).
  { unfold BuildData.attach. fold (linkCompany r). fold (linkProblem r).
    by rewrite Hc, Hp, Hst. }
  rewrite Hr. destruct st as [m a b]. simpl. by rewrite attach_fold_bump.
Qed.

(** The claim C7 as it is written fails on a link row without a problem
    text: its company reference matches no company, yet the count of
    unmatched companies stays where it was. *)
Lemma unmatched_company_counterexample :
  mapGet (@linkCompany asciiLower ghostBlankLink)
         (foldl (@BuildData.addCompany asciiLower) [] [acmeRow]) = None /\
  @BuildData.reconcile asciiLower [acmeRow] [slowRow] ([] ++ ghostBlankLink :: []) <>
  oneMoreMissingCompany (@BuildData.reconcile asciiLower [acmeRow] [slowRow] ([] ++ [])).
Proof.
  split; [reflexivity|]. intros Heq.
  apply (f_equal BuildData.missingCompanies) in Heq.
  vm_compute in Heq. discriminate Heq.
Qed.

(** C2.  In the output of scripts/build-data.mjs the [problems] of every
    company is the list of the [problem] texts of its [solutions], in
    order: equal lengths and equal entries at every index. *)
Theorem problems_derived `{JsLower} cs ps ls :
  Forall (fun c =>
            BuildData.problems c = BuildData.problem <$> BuildData.solutions c /\
            length (BuildData.problems c) = length (BuildData.solutions c) /\
            forall i, BuildData.problems c !! i =
                      BuildData.problem <$> (BuildData.solutions c !! i))
         (BuildData.companies (BuildData.reconcile cs ps ls)).
Proof.
  unfold BuildData.reconcile. simpl. apply Forall_fmap, Forall_forall.
  intros c _. simpl. split_and!; [done | by rewrite length_fmap |].
  intros i. by rewrite list_lookup_fmap.
Qed.

(** ** The company index of scripts/build-data.mjs *)

Section Companies.

Context `{JsLower}.

Implicit Types (r : rowobj) (m : jsMap BuildData.Company) (c : BuildData.Company).

Lemma blankLists_derive c : blankLists (BuildData.deriveProblems c) = blankLists c.
Proof. reflexivity. Qed.

Lemma blankLists_mkCompany r n k :
  blankLists (BuildData.mkCompany r n k) = BuildData.mkCompany r n k.
Proof. reflexivity. Qed.

(** One row of the Companies table: skipped, or stored under its key. *)
Lemma addCompany_cases m r :
  (truthy (rowName r) = false /\ BuildData.addCompany m r = m) \/
  (truthy (rowName r) = true /\
   BuildData.addCompany m r =
     mapSet (rowKey r) (BuildData.mkCompany r (rowName r) (rowKey r)) m).
Proof.
  unfold BuildData.addCompany. fold (rowName r). fold (rowKey r).
  destruct (truthy (rowName r)); simpl; auto.
Qed.

Lemma addCompany_fold_invariant (Inv : jsMap BuildData.Company -> Prop) cs :
  (forall m r, Inv m -> r ∈ cs -> truthy (rowName r) = true ->
               Inv (mapSet (rowKey r) (BuildData.mkCompany r (rowName r) (rowKey r)) m)) ->
  forall m, Inv m -> Inv (foldl BuildData.addCompany m cs).
Proof.
  induction cs as [|r cs IH]; intros Hstep m Hm; simpl; [done|].
  apply IH.
  - intros m' r' Hm' Hr'. apply Hstep; [done | by right].
  - destruct (addCompany_cases m r) as [[_ ->] | [Ht ->]]; [done|].
    apply Hstep; [done | left | done].
Qed.

(** A key that no later row produces keeps its record. *)
Lemma addCompany_fold_other k cs m :
  (forall r, r ∈ cs -> truthy (rowName r) = true -> rowKey r <> k) ->
  mapGet k (foldl BuildData.addCompany m cs) = mapGet k m.
Proof.
  revert m. induction cs as [|r cs IH]; intros m Hcs; simpl; [done|].
  rewrite IH by (intros r' Hr'; apply Hcs; by right).
  destruct (addCompany_cases m r) as [[_ ->] | [Ht ->]]; [done|].
  apply mapGet_mapSet_ne. apply Hcs; [left | done].
Qed.

(** The index holds, under a key, the record of the last row with it. *)
Lemma addCompany_fold_last pre r post :
  truthy (rowName r) = true ->
  (forall r', r' ∈ post -> truthy (rowName r') = true -> rowKey r' <> rowKey r) ->
  mapGet (rowKey r) (foldl BuildData.addCompany [] (pre ++ r :: post)) =
  Some (BuildData.mkCompany r (rowName r) (rowKey r)).
Proof.
  intros Ht Hpost. rewrite foldl_app. simpl.
  rewrite addCompany_fold_other by done.
  destruct (addCompany_cases (foldl BuildData.addCompany [] pre) r)
    as [[Hf _] | [_ ->]]; [congruence|].
  apply mapGet_mapSet_eq.
Qed.

Lemma companyMap_initial cs :
  NoDup (foldl BuildData.addCompany [] cs).*1 /\
  Forall (entryOk cs) (foldl BuildData.addCompany [] cs).
Proof.
  apply (addCompany_fold_invariant (fun m => NoDup m.*1 /\ Forall (entryOk cs) m)).
  - intros m r [Hnd Hall] Hr Ht. split; [by apply mapSet_NoDup|].
    apply mapSet_Forall; [done|]. split; [done|]. exists r. by split.
  - split; [constructor | constructor].
Qed.

Lemma companyMap_final cs pm ls :
  let m := BuildData.companyMap
             (foldl (BuildData.attach pm)
                    (BuildData.Tally (foldl BuildData.addCompany [] cs) 0 0) ls) in
  NoDup m.*1 /\ Forall (entryOk cs) m.
Proof.
  simpl. split.
  - rewrite attach_fold_keys. apply companyMap_initial.
  - apply (attach_fold_invariant pm (Forall (entryOk cs))); [|apply companyMap_initial].
    intros m k company p key Hall Hg _ _.
    apply mapSet_Forall; [done|].
    apply mapGet_Some_elem in Hg.
    eapply Forall_forall in Hall; [|exact Hg].
    destruct Hall as [Hk (r & Hr & Hb)]. split; [exact Hk|]. by exists r.
Qed.

(** Pushing solutions never changes the rest of a record. *)
Lemma attach_fold_blankLists pm ls st k :
  blankLists <$> mapGet k (BuildData.companyMap (foldl (BuildData.attach pm) st ls)) =
  blankLists <$> mapGet k (BuildData.companyMap st).
Proof.
  revert k.
  apply (attach_fold_invariant pm
           (fun m => forall k, blankLists <$> mapGet k m =
                               blankLists <$> mapGet k (BuildData.companyMap st)));
    [|done].
  intros m k0 company p key Hm Hg _ _ k.
  destruct (decide (k0 = k)) as [->|Hne].
  - rewrite mapGet_mapSet_eq, <- Hm, Hg. done.
  - by rewrite mapGet_mapSet_ne.
Qed.

(** The keys of the companies of the output, in order, are the keys of the
    company map. *)
Lemma output_keys cs ps ls :
  companyKey <$> BuildData.companies (BuildData.reconcile cs ps ls) =
  (BuildData.companyMap
     (foldl (BuildData.attach (foldl BuildData.addProblem ∅ ps))
            (BuildData.Tally (foldl BuildData.addCompany [] cs) 0 0) ls)).*1.
Proof.
  unfold BuildData.reconcile. simpl.
  destruct (companyMap_final cs (foldl BuildData.addProblem ∅ ps) ls) as [_ Hall].
  simpl in Hall. unfold mapValues. rewrite <- !list_fmap_compose.
  apply Forall_fmap_ext_1. eapply Forall_impl; [exact Hall|].
  intros [k c] [Hk _]. simpl in *. by rewrite Hk.
Qed.

(** In scripts/build-data.mjs no two companies of the output have the same
    identity key (the normalized name), and when several rows of the
    Companies table produce a key, the record of the output under that key
    is the one built from the last of them. *)
Lemma last_row_wins_by_name cs ps ls pre r post :
  cs = pre ++ r :: post ->
  truthy (rowName r) = true ->
  (forall r', r' ∈ post -> truthy (rowName r') = true -> rowKey r' <> rowKey r) ->
  NoDup (companyKey <$> BuildData.companies (BuildData.reconcile cs ps ls)) /\
  exists c, c ∈ BuildData.companies (BuildData.reconcile cs ps ls) /\
            companyKey c = rowKey r /\ builtFrom r c.
Proof.
  intros -> Ht Hpost. split.
  - rewrite output_keys. apply companyMap_final.
  - pose proof (addCompany_fold_last pre r post Ht Hpost) as Hlast.
    set (pm := foldl BuildData.addProblem ∅ ps).
    set (st0 := BuildData.Tally (foldl BuildData.addCompany [] (pre ++ r :: post)) 0 0).
    pose proof (attach_fold_blankLists pm ls st0 (rowKey r)) as Hb.
    change (BuildData.companyMap st0)
      with (foldl BuildData.addCompany [] (pre ++ r :: post)) in Hb.
    rewrite Hlast in Hb.
    destruct (mapGet (rowKey r)
                (BuildData.companyMap (foldl (BuildData.attach pm) st0 ls)))
      as [c|] eqn:Hg; [|done].
    apply (inj Some) in Hb. rewrite blankLists_mkCompany in Hb.
    exists (BuildData.deriveProblems c). split_and!.
    + unfold BuildData.reconcile. simpl. apply list_elem_of_fmap.
      exists c. split; [done|]. by eapply mapGet_Some_value.
    + unfold companyKey. simpl. fold (companyKey c).
      apply mapGet_Some_elem in Hg.
      destruct (companyMap_final (pre ++ r :: post) pm ls) as [_ Hall].
      eapply Forall_forall in Hall; [|exact Hg]. destruct Hall as [Hk _]. done.
    + split; [done|]. by rewrite blankLists_derive.
Qed.

End Companies.

Example company_index_sample :
  (fun c => (BuildData.name c, BuildData.website c, BuildData.org_types c)) <$>
    BuildData.companies
      (@BuildData.reconcile asciiLower [acmeRow; acmeAgainRow; betaRow] [slowRow]
         [acmeSlowLink]) =
  [(lit "ACME", lit "second.example", []); (lit "Beta", [], [lit "Lab"])].
Proof. vm_compute. reflexivity. Qed.

(** The claim C4 as it is written fails: of two rows of the Companies table
    with the same key, the record built from the first is not in the
    output. *)
Lemma company_first_seen_counterexample :
  @rowKey asciiLower acmeRow = @rowKey asciiLower acmeAgainRow /\
  ~ exists c, c ∈ BuildData.companies
                    (@BuildData.reconcile asciiLower [acmeRow; acmeAgainRow] [slowRow]
                       [acmeSlowLink]) /\
              @builtFrom asciiLower acmeRow c.
Proof.
  split; [reflexivity|].
  intros (c & Hc & _ & Hb).
  vm_compute in Hc. apply list_elem_of_singleton in Hc. subst c.
  vm_compute in Hb. discriminate Hb.
Qed.

(** ** The field resolver *)

Section Pick.

Implicit Types (o : rowobj) (keys : list str).

(** At a row object [pick] returns, and what it returns is [pickOf]. *)
Lemma pick_object o keys : BuildData.pick (Some o) keys = BuildData.Ok (BuildData.pickOf o keys).
Proof.
  induction keys as [|k ks IH]; simpl; [done|].
  destruct (o !! k) as [v|]; [|exact IH].
  destruct (truthy (trim v)); [done | exact IH].
Qed.

(** The value is the trimmed cell of the first alias that is a column of
    the row and is not blank, and the empty string when there is none. *)
Lemma pickOf_resolved o keys :
  BuildData.pickOf o keys = trim (default [] (resolvedCell o keys)).
Proof.
  induction keys as [|k ks IH]; simpl; [done|].
  destruct (o !! k) as [v|]; [|exact IH].
  destruct (truthy (trim v)); [done | exact IH].
Qed.

Lemma resolvedCell_None o keys :
  resolvedCell o keys = None <->
  forall k, k ∈ keys -> forall v, o !! k = Some v -> truthy (trim v) = false.
Proof.
  induction keys as [|k ks IH]; simpl.
  - split; [intros _ k Hk; by apply elem_of_nil in Hk | done].
  - destruct (o !! k) as [v|] eqn:E.
    + destruct (truthy (trim v)) eqn:Et.
      * split; [done|]. intros Hall. specialize (Hall k (list_elem_of_here _ _) v E).
        congruence.
      * rewrite IH. split.
        -- intros Hall k' [->|Hk']%elem_of_cons v' Hv'; [congruence | eauto].
        -- intros Hall k' Hk'. apply Hall. by right.
    + rewrite IH. split.
      * intros Hall k' [->|Hk']%elem_of_cons v' Hv'; [congruence | eauto].
      * intros Hall k' Hk'. apply Hall. by right.
Qed.

(** The resolved cell is the cell of an alias, is not blank, and every alias
    before it is missing from the row or blank. *)
Lemma resolvedCell_Some o keys v :
  resolvedCell o keys = Some v ->
  exists before k after,
    keys = before ++ k :: after /\ o !! k = Some v /\ truthy (trim v) = true /\
    forall k', k' ∈ before -> forall v', o !! k' = Some v' -> truthy (trim v') = false.
Proof.
  induction keys as [|k ks IH]; simpl; [done|].
  destruct (o !! k) as [w|] eqn:E.
  - destruct (truthy (trim w)) eqn:Et.
    + intros [= ->]. exists [], k, ks. split_and!; try done.
      intros k' Hk'. by apply elem_of_nil in Hk'.
    + intros (before & k0 & after & -> & Hk0 & Hv & Hb)%IH.
      exists (k :: before), k0, after. split_and!; try done.
      intros k' [->|Hk']%elem_of_cons v' Hv'; [congruence | eauto].
  - intros (before & k0 & after & -> & Hk0 & Hv & Hb)%IH.
    exists (k :: before), k0, after. split_and!; try done.
    intros k' [->|Hk']%elem_of_cons v' Hv'; [congruence | eauto].
Qed.

Lemma pickOf_none o keys :
  resolvedCell o keys = None -> BuildData.pickOf o keys = [].
Proof. intros E. by rewrite pickOf_resolved, E. Qed.

End Pick.


Lemma pick_undefined_raises k ks :
  BuildData.pick None (k :: ks) = BuildData.Throw BuildData.TypeError.
Proof. reflexivity. Qed.

(** ** Org types *)

Lemma orElse_nil s : orElse s [] = s.
Proof. by destruct s. Qed.

(** In the output of scripts/build-data.mjs the [org_types] of every
    company are the org types of its Org Types cell: the cell that the
    aliases "Org Types", "Org Type", "Category" resolve to in the row the
    company was built from, the empty string when there is none. *)
Lemma org_types_of_cell `{JsLower} cs ps ls :
  Forall (fun c =>
            exists r, r ∈ cs /\ builtFrom r c /\
              BuildData.org_types c =
              orgTypes (default []
                (resolvedCell r [lit "Org Types"; lit "Org Type"; lit "Category"])))
         (BuildData.companies (BuildData.reconcile cs ps ls)).
Proof.
  unfold BuildData.reconcile. simpl. apply Forall_fmap. unfold mapValues.
  apply Forall_fmap.
  destruct (companyMap_final cs (foldl BuildData.addProblem ∅ ps) ls) as [_ Hall].
  eapply Forall_impl; [exact Hall|].
  intros [k c] [_ (r & Hr & Hb)]. simpl in *.
  exists r. split_and!; [done | |].
  - destruct Hb as [Ht Hb]. split; [done|]. by rewrite blankLists_derive.
  - destruct Hb as [_ Hb]. apply (f_equal BuildData.org_types) in Hb.
    change (BuildData.org_types (blankLists c)) with (BuildData.org_types c) in Hb.
    rewrite Hb. unfold BuildData.mkCompany. cbn [BuildData.org_types].
    by rewrite orElse_nil, pickOf_resolved, orgTypes_trim.
Qed.

Example org_types_sample :
  BuildData.org_types <$>
    BuildData.companies (@BuildData.reconcile asciiLower [acmeRow] [] []) =
  [[lit "Clinic"; lit "Payer"]].
Proof. vm_compute. reflexivity. Qed.

(** ** Deduplication in scripts/build-data.mjs *)

Section Dedup.

Context `{JsLower}.

Implicit Types (pm : gmap str BuildData.Problem) (st : BuildData.tally)
  (m : jsMap BuildData.Company) (c : BuildData.Company) (p : BuildData.Problem).

Lemma hasProblem_spec c p :
  BuildData.hasProblem c p = true <-> problemKey p ∈ problemKey <$> BuildData.solutions c.
Proof.
  unfold BuildData.hasProblem. rewrite existsb_exists, list_elem_of_fmap. split.
  - intros (x & Hx%list_elem_of_In & Hk%bool_decide_eq_true). by exists x.
  - intros (x & Hk & Hx). exists x. split; [by apply list_elem_of_In|].
    by apply bool_decide_eq_true.
Qed.

(** Every problem of the index stands under its own normalized key. *)
Lemma problemMap_keys ps k p :
  foldl BuildData.addProblem ∅ ps !! k = Some p -> k = problemKey p.
Proof.
  assert (Hgen : forall pm0,
             map_Forall (fun k p => k = problemKey p) pm0 ->
             map_Forall (fun k p => k = problemKey p) (foldl BuildData.addProblem pm0 ps)).
  { induction ps as [|r ps IH]; intros pm0 Hpm0; simpl; [done|].
    apply IH. unfold BuildData.addProblem.
    destruct (truthy (BuildData.pickOf r [lit "Problem"])); simpl; [|done].
    by apply map_Forall_insert_2. }
  intros Hk. by apply (Hgen ∅ (map_Forall_empty _) k p).
Qed.

(** The loop keeps the normalized keys of every solutions list distinct. *)
Lemma attach_fold_NoDup pm ls st :
  Forall (fun e => NoDup (problemKey <$> BuildData.solutions e.2)) (BuildData.companyMap st) ->
  Forall (fun e => NoDup (problemKey <$> BuildData.solutions e.2))
         (BuildData.companyMap (foldl (BuildData.attach pm) st ls)).
Proof.
  apply (attach_fold_invariant pm
           (Forall (fun e => NoDup (problemKey <$> BuildData.solutions e.2)))).
  intros m k company p key Hall Hg _ Hh.
  apply mapSet_Forall; [done|]. simpl.
  apply mapGet_Some_elem in Hg. eapply Forall_forall in Hall; [|exact Hg]. simpl in Hall.
  rewrite fmap_app. apply NoDup_app. split_and!; [done | | apply NoDup_singleton].
  intros x Hx ->%list_elem_of_singleton.
  apply hasProblem_spec in Hx. congruence.
Qed.

Lemma addCompany_fold_no_solutions cs :
  Forall (fun e => BuildData.solutions e.2 = []) (foldl BuildData.addCompany [] cs).
Proof.
  apply (addCompany_fold_invariant (Forall (fun e => BuildData.solutions e.2 = [])));
    [|constructor].
  intros m r Hall _ _. by apply mapSet_Forall.
Qed.

(** X15.  In the output of scripts/build-data.mjs no two solutions of a
    company have the same normalized key. *)
Lemma solutions_deduplicated cs ps ls :
  Forall (fun c => NoDup (problemKey <$> BuildData.solutions c))
         (BuildData.companies (BuildData.reconcile cs ps ls)).
Proof.
  unfold BuildData.reconcile. simpl. apply Forall_fmap. unfold mapValues.
  apply Forall_fmap.
  eapply Forall_impl; [apply attach_fold_NoDup | by intros [k c]].
  simpl. eapply Forall_impl; [apply addCompany_fold_no_solutions|].
  intros [k c] Hc. simpl in *. rewrite Hc. constructor.
Qed.

(** What is attached stays attached. *)
Lemma attach_fold_attached pm ls st k pk :
  attached (BuildData.companyMap st) k pk ->
  attached (BuildData.companyMap (foldl (BuildData.attach pm) st ls)) k pk.
Proof.
  apply (attach_fold_invariant pm (fun m => attached m k pk)).
  intros m k0 company p key (c & Hc & Hpk) Hg _ _.
  destruct (decide (k0 = k)) as [->|Hne].
  - exists (BuildData.pushSolution company p). split; [apply mapGet_mapSet_eq|].
    simpl. rewrite fmap_app. apply elem_of_app. left. congruence.
  - exists c. split; [by rewrite mapGet_mapSet_ne | done].
Qed.

(** A link row whose company and problem both resolve leaves its problem
    attached to its company. *)
Lemma attach_attaches pm st s company p :
  truthy (linkCompany s) = true -> truthy (linkProblem s) = true ->
  mapGet (linkCompany s) (BuildData.companyMap st) = Some company ->
  pm !! norm (linkProblem s) = Some p ->
  attached (BuildData.companyMap (BuildData.attach pm st s)) (linkCompany s) (problemKey p).
Proof.
  intros Hc Hp Hg Hl. unfold BuildData.attach.
  fold (linkCompany s). fold (linkProblem s). rewrite Hc, Hp, Hg, Hl. simpl.
  destruct (BuildData.hasProblem company p) eqn:Hh.
  - exists company. split; [done|]. by apply hasProblem_spec.
  - simpl. exists (BuildData.pushSolution company p).
    split; [apply mapGet_mapSet_eq|]. simpl. rewrite fmap_app.
    apply elem_of_app. right. apply list_elem_of_singleton. done.
Qed.

Lemma count_one {A} (f : A -> str) (l : list A) (k : str) :
  NoDup (f <$> l) -> k ∈ f <$> l ->
  length (List.filter (fun x => bool_decide (f x = k)) l) = 1%nat.
Proof.
  induction l as [|x l IH]; simpl; [by intros _ ?%elem_of_nil|].
  intros [Hx Hnd]%NoDup_cons [Hk|Hk]%elem_of_cons.
  - subst k. rewrite bool_decide_eq_true_2 by done. simpl. f_equal.
    apply length_zero_iff_nil.
    destruct (List.filter _ l) as [|y l'] eqn:E; [done|].
    assert (Hy : In y (List.filter (fun x0 => bool_decide (f x0 = f x)) l))
      by (rewrite E; by left).
    apply filter_In in Hy as [Hy Hfy%bool_decide_eq_true].
    exfalso. apply Hx. rewrite <- Hfy. apply list_elem_of_fmap.
    exists y. split; [done | by apply list_elem_of_In].
  - case_bool_decide as E; [|by apply IH].
    exfalso. apply Hx. by rewrite E.
Qed.

(** X16.  Whatever the number of link rows that name a problem for a
    company in scripts/build-data.mjs, when company and problem resolve the
    company of the output has exactly one solution with the normalized key
    of that problem. *)
Lemma linked_problem_once cs ps ls s company p :
  s ∈ ls ->
  truthy (linkCompany s) = true -> truthy (linkProblem s) = true ->
  mapGet (linkCompany s) (foldl BuildData.addCompany [] cs) = Some company ->
  foldl BuildData.addProblem ∅ ps !! norm (linkProblem s) = Some p ->
  exists c, c ∈ BuildData.companies (BuildData.reconcile cs ps ls) /\
            companyKey c = linkCompany s /\
            length (List.filter (fun x => bool_decide (problemKey x = norm (linkProblem s)))
                                (BuildData.solutions c)) = 1%nat.
Proof.
  intros Hs Hc Hp Hg Hl.
  apply list_elem_of_split in Hs as (pre & post & ->).
  set (pm := foldl BuildData.addProblem ∅ ps) in *.
  set (st0 := BuildData.Tally (foldl BuildData.addCompany [] cs) 0 0).
  set (st1 := foldl (BuildData.attach pm) st0 pre).
  assert (Hg1 : exists c1, mapGet (linkCompany s) (BuildData.companyMap st1) = Some c1).
  { destruct (mapGet (linkCompany s) (BuildData.companyMap st1)) as [c1|] eqn:E; [eauto|].
    apply mapGet_None_keys in E. subst st1. rewrite attach_fold_keys in E.
    apply mapGet_Some_keys in Hg. done. }
  destruct Hg1 as [c1 Hg1].
  pose proof (attach_attaches pm st1 s c1 p Hc Hp Hg1 Hl) as Ha.
  apply (attach_fold_attached pm post) in Ha.
  rewrite <- (problemMap_keys ps _ p Hl) in Ha.
  destruct Ha as (c & Hgc & Hk).
  assert (Hfinal : foldl (BuildData.attach pm) st0 (pre ++ s :: post) =
                   foldl (BuildData.attach pm) (BuildData.attach pm st1 s) post).
  { by rewrite foldl_app. }
  exists (BuildData.deriveProblems c). split_and!.
  - unfold BuildData.reconcile. simpl. fold pm. fold st0. rewrite Hfinal.
    apply list_elem_of_fmap. exists c. split; [done|]. by eapply mapGet_Some_value.
  - destruct (companyMap_final cs pm (pre ++ s :: post)) as [_ Hall].
    simpl in Hall. fold st0 in Hall. rewrite Hfinal in Hall.
    apply mapGet_Some_elem in Hgc. eapply Forall_forall in Hall; [|exact Hgc].
    destruct Hall as [Hkey _]. done.
  - simpl. apply count_one; [|done].
    assert (Hnd : Forall (fun e => NoDup (problemKey <$> BuildData.solutions e.2))
                    (BuildData.companyMap
                       (foldl (BuildData.attach pm) st0 (pre ++ s :: post)))).
    { apply attach_fold_NoDup. simpl.
      eapply Forall_impl; [apply addCompany_fold_no_solutions|].
      intros [k c0] Hc0. simpl in *. rewrite Hc0. constructor. }
    rewrite Hfinal in Hnd.
    apply mapGet_Some_elem in Hgc. eapply Forall_forall in Hnd; [|exact Hgc].
    exact Hnd.
Qed.

End Dedup.

(** ** The CSV scanner *)

Section Scanner.

Import Csv.

Implicit Types (st : state) (v rest : str) (r : list str).

Lemma scan_keep c rest st st' :
  step c (head rest) st = (st', false) -> scan (c :: rest) st = scan rest st'.
Proof. intros E. simpl. by rewrite E. Qed.

Lemma scan_skip c n rest st st' :
  step c (Some n) st = (st', true) -> scan (c :: n :: rest) st = scan rest st'.
Proof. intros E. simpl. by rewrite E. Qed.

(** A character that is no quote, and no separator outside quotes, is added
    to the cell. *)
Lemma step_ordinary c n st :
  (c =? DQUOTE) = false ->
  inQuotes st = true \/ (c =? COMMA) || ((c =? LF) || (c =? CR)) = false ->
  step c n st = (addChar c st, false).
Proof.
  intros Hq Hsep. unfold step. rewrite Hq. simpl.
  destruct Hsep as [-> | Hsep]; simpl.
  - by rewrite !andb_false_r.
  - apply orb_false_iff in Hsep as [-> ->]. done.
Qed.

Lemma scan_unquoted v rest st :
  needsQuotes v = false ->
  scan (v ++ rest) st = scan rest (State (rows st) (row st) (cur st ++ v) (inQuotes st)).
Proof.
  revert st. induction v as [|c v IH]; intros st Hv.
  - simpl. rewrite app_nil_r. by destruct st.
  - simpl in Hv. apply orb_false_iff in Hv as [Hc Hv].
    rewrite <- !orb_assoc in Hc. apply orb_false_iff in Hc as [Hq Hsep].
    change ((c :: v) ++ rest) with (c :: (v ++ rest)).
    rewrite (scan_keep c _ st (addChar c st)).
    + rewrite IH by done. simpl. by rewrite <- app_assoc.
    + apply step_ordinary; [done | by right].
Qed.

Lemma scan_quoted_body v rest st :
  inQuotes st = true -> head rest <> Some DQUOTE ->
  scan (escapeQuotes v ++ DQUOTE :: rest) st =
  scan rest (State (rows st) (row st) (cur st ++ v) false).
Proof.
  intros Hin Hrest. revert st Hin. induction v as [|c v IH]; intros st Hin.
  - simpl app. rewrite (scan_keep DQUOTE rest st (toggle st)).
    + unfold toggle. rewrite Hin, app_nil_r. done.
    + unfold step. rewrite Hin. simpl.
      by rewrite bool_decide_eq_false_2.
  - simpl escapeQuotes. destruct (c =? DQUOTE) eqn:Hq.
    + apply N.eqb_eq in Hq as ->.
      change ((DQUOTE :: DQUOTE :: escapeQuotes v) ++ DQUOTE :: rest)
        with (DQUOTE :: DQUOTE :: (escapeQuotes v ++ DQUOTE :: rest)).
      rewrite (scan_skip DQUOTE DQUOTE _ st (addChar DQUOTE st)).
      * rewrite IH by done. simpl. by rewrite <- app_assoc.
      * unfold step. rewrite Hin. reflexivity.
    + change ((c :: escapeQuotes v) ++ DQUOTE :: rest)
        with (c :: (escapeQuotes v ++ DQUOTE :: rest)).
      rewrite (scan_keep c _ st (addChar c st)).
      * rewrite IH by done. simpl. by rewrite <- app_assoc.
      * apply step_ordinary; [done | by left].
Qed.

(** A serialized field is read back as the field. *)
Lemma scan_field d v rest st :
  inQuotes st = false -> head rest <> Some DQUOTE ->
  scan (serializeField d v ++ rest) st =
  scan rest (State (rows st) (row st) (cur st ++ v) false).
Proof.
  intros Hin Hrest. unfold serializeField.
  destruct (needsQuotes v || quoteAlso d v) eqn:Hv.
  - change ((DQUOTE :: escapeQuotes v ++ [DQUOTE]) ++ rest)
      with (DQUOTE :: ((escapeQuotes v ++ [DQUOTE]) ++ rest)).
    rewrite <- app_assoc. simpl app.
    rewrite (scan_keep DQUOTE _ st (toggle st)).
    + rewrite scan_quoted_body; [done | by unfold toggle; rewrite Hin | done].
    + unfold step. by rewrite Hin.
  - apply orb_false_iff in Hv as [Hv _].
    rewrite scan_unquoted by done. by rewrite Hin.
Qed.

(** Any of the three line breaks ends the row; a lone CR must not be
    followed by a line feed, or the two are read as one break. *)
Lemma scan_break b rest st :
  inQuotes st = false ->
  (b = CRonly -> head rest <> Some LF) ->
  scan (breakText b ++ rest) st = scan rest (endRow st).
Proof.
  intros Hin Hrest. destruct b; simpl app.
  - erewrite scan_skip; [reflexivity|]. unfold step. by rewrite Hin.
  - erewrite scan_keep; [reflexivity|]. unfold step. by rewrite Hin.
  - erewrite scan_keep; [reflexivity|]. unfold step. rewrite Hin. simpl.
    by rewrite bool_decide_eq_false_2 by auto.
Qed.

Lemma head_break b rest : head (breakText b ++ rest) <> Some DQUOTE.
Proof. by destruct b. Qed.

Lemma head_field d v rest :
  head rest <> Some LF -> head (serializeField d v ++ rest) <> Some LF.
Proof.
  intros Hrest. unfold serializeField.
  destruct (needsQuotes v || quoteAlso d v) eqn:Hv; [done|].
  apply orb_false_iff in Hv as [Hv _].
  destruct v as [|c v]; [done|]. simpl in *.
  apply orb_false_iff in Hv as [Hc _].
  intros [= ->]. done.
Qed.

Lemma head_record d r rest :
  head rest <> Some LF -> head (serializeRecord d r ++ rest) <> Some LF.
Proof.
  intros Hrest. destruct r as [|v [|v2 r]]; [done | by apply head_field |].
  change (serializeRecord d (v :: v2 :: r))
    with (serializeField d v ++ COMMA :: serializeRecord d (v2 :: r)).
  rewrite <- app_assoc. by apply head_field.
Qed.

Lemma head_rows d table rest :
  eol d = CRonly -> head rest <> Some LF ->
  head (serializeRows d table ++ rest) <> Some LF.
Proof.
  intros Hd Hrest. destruct table as [|r table]; [done|].
  simpl. rewrite <- app_assoc. apply head_record. by rewrite Hd.
Qed.

(** A serialized record is read back as one row, which is kept when one of
    its cells is not blank. *)
Lemma scan_record d r rest st :
  r <> [] -> inQuotes st = false -> cur st = [] ->
  (eol d = CRonly -> head rest <> Some LF) ->
  scan (serializeRecord d r ++ breakText (eol d) ++ rest) st =
  scan rest (State (if someCell (row st ++ r) then rows st ++ [row st ++ r] else rows st)
                   [] [] false).
Proof.
  intros Hr. revert st. induction r as [|v r IH]; [done|]. intros st Hin Hcur Hrest.
  destruct r as [|v2 r].
  - simpl serializeRecord. rewrite scan_field by (done || apply head_break).
    rewrite Hcur. simpl app at 1. by rewrite scan_break.
  - change (serializeRecord d (v :: v2 :: r))
      with (serializeField d v ++ COMMA :: serializeRecord d (v2 :: r)).
    rewrite <- app_assoc. rewrite scan_field by done.
    rewrite Hcur. simpl app at 1.
    change ((COMMA :: serializeRecord d (v2 :: r)) ++ breakText (eol d) ++ rest)
      with (COMMA :: (serializeRecord d (v2 :: r) ++ breakText (eol d) ++ rest)).
    erewrite scan_keep; [|reflexivity].
    rewrite IH by done. simpl. by rewrite <- !app_assoc.
Qed.

Lemma scan_serialized d table rest st :
  Forall (fun r => r <> []) table ->
  inQuotes st = false -> cur st = [] -> row st = [] ->
  (eol d = CRonly -> head rest <> Some LF) ->
  scan (serializeRows d table ++ rest) st =
  scan rest (State (rows st ++ List.filter someCell table) [] [] false).
Proof.
  intros Htable. revert st.
  induction Htable as [|r table Hr Htable IH]; intros st Hin Hcur Hrow Hrest.
  - simpl. rewrite app_nil_r. destruct st; simpl in *; congruence.
  - simpl serializeRows. rewrite <- !app_assoc.
    rewrite scan_record; [|done..|intros Hd; apply head_rows; auto].
    rewrite Hrow. simpl app.
    rewrite IH by done. simpl. destruct (someCell r); [|done].
    by rewrite <- app_assoc.
Qed.

(** What the scanner makes of serialized records that all end with a line
    break: the records, without the blank ones. *)
Lemma rawRows_serialized d table :
  Forall (fun r => r <> []) table ->
  rawRows (serializeRows d table) = List.filter someCell table.
Proof.
  intros Htable. unfold rawRows.
  rewrite <- (app_nil_r (serializeRows d table)), scan_serialized by done. reflexivity.
Qed.

(** A record that no line break follows is left in [row] and [cur]. *)
Lemma scan_record_open d r st :
  r <> [] -> inQuotes st = false -> cur st = [] ->
  scan (serializeRecord d r) st =
  State (rows st) (row st ++ removelast r) (List.last r []) false.
Proof.
  intros Hr. revert st. induction r as [|v r IH]; [done|]. intros st Hin Hcur.
  destruct r as [|v2 r].
  - simpl serializeRecord. rewrite <- (app_nil_r (serializeField d v)).
    rewrite scan_field by done. rewrite Hcur. simpl. by rewrite app_nil_r.
  - change (serializeRecord d (v :: v2 :: r))
      with (serializeField d v ++ COMMA :: serializeRecord d (v2 :: r)).
    rewrite scan_field by done. rewrite Hcur. simpl app at 1.
    erewrite scan_keep; [|reflexivity].
    rewrite IH by done.
    change (removelast (v :: v2 :: r)) with (v :: removelast (v2 :: r)).
    change (List.last (v :: v2 :: r) []) with (List.last (v2 :: r) []).
    simpl. by rewrite <- app_assoc.
Qed.

(** The last row of a text that does not end with a line break is produced
    as a row, blank or not, unless it is a single empty cell. *)
Lemma rawRows_trailing_row d table r :
  Forall (fun r => r <> []) table -> r <> [] -> r <> [[]] ->
  rawRows (serializeRows d table ++ serializeRecord d r) =
  List.filter someCell table ++ [r].
Proof.
  intros Htable Hr Hr'. unfold rawRows.
  rewrite scan_serialized;
    [|done..|intros _; rewrite <- (app_nil_r (serializeRecord d r)); by apply head_record].
  rewrite scan_record_open by done.
  unfold finish. simpl.
  assert (Hpush : truthy (List.last r []) || negb (Nat.eqb (length (removelast r)) 0) = true).
  { destruct r as [|v [|v2 r]]; [done | | by rewrite orb_true_r].
    simpl. destruct v; [done | done]. }
  rewrite Hpush. f_equal. f_equal.
  symmetry. by apply app_removelast_last.
Qed.

End Scanner.

(** ** [parseCSV] *)

Section ParseCSV.

Implicit Types (hs : list str) (cells pre : list str) (o : rowobj).

Lemma setProp_insert o k v : k <> lit "__proto__" -> setProp o k v = <[k := v]> o.
Proof. intros Hk. unfold setProp. by rewrite bool_decide_eq_false_2. Qed.

Lemma cellAt_middle pre v cells : cellAt (pre ++ v :: cells) (length pre) = v.
Proof. unfold cellAt. by rewrite list_lookup_middle. Qed.

(** Under distinct proper column names the object of a row maps every name
    to the cell of its column. *)
Lemma fillObject_zip hs cells pre o :
  NoDup hs ->
  Forall (fun h => h <> [] /\ trim h = h /\ h <> lit "__proto__") hs ->
  length cells = length hs ->
  Forall (fun v => trim v = v) cells ->
  BuildData.fillObject hs (length pre) (pre ++ cells) o = list_to_map (zip hs cells) ∪ o.
Proof.
  intros Hnd Hhs. revert cells pre o.
  induction Hhs as [|h hs (Hne & _ & Hproto) Hhs IH]; intros cells pre o Hlen Hcells.
  - simpl. by rewrite (left_id_L ∅ (∪)).
  - destruct cells as [|v cells]; [done|].
    apply NoDup_cons in Hnd as [Hh Hnd].
    apply Forall_cons in Hcells as [Hv Hcells].
    simpl BuildData.fillObject.
    apply truthy_true in Hne. rewrite Hne, cellAt_middle, Hv.
    rewrite setProp_insert by done.
    replace (pre ++ v :: cells) with ((pre ++ [v]) ++ cells) by by rewrite <- app_assoc.
    replace (S (length pre)) with (length (pre ++ [v])) by (rewrite length_app; simpl; lia).
    rewrite IH; [|done | simpl in Hlen; lia | done].
    simpl zip. rewrite list_to_map_cons.
    rewrite <- insert_union_l. apply eq_sym, insert_union_r.
    apply not_elem_of_list_to_map_1. rewrite fst_zip; [done|]. simpl in Hlen. lia.
Qed.

Lemma fillObject_part001 hs i r o :
  Forall (fun h => h <> []) hs ->
  Part001.fillObject hs i r o = BuildData.fillObject hs i r o.
Proof.
  intros Hhs. revert i o. induction Hhs as [|h hs Hh Hhs IH]; intros i o; simpl; [done|].
  apply truthy_true in Hh. by rewrite Hh, IH.
Qed.

Lemma someCell_plain r :
  Forall (fun v => trim v = v) r -> Exists (fun v => v <> []) r -> Csv.someCell r = true.
Proof.
  intros Hr Hex. unfold Csv.someCell. apply existsb_exists.
  apply Exists_exists in Hex as (v & Hv & Hne).
  exists v. split; [by apply list_elem_of_In|].
  eapply Forall_forall in Hr; [|exact Hv]. rewrite Hr. by apply truthy_true.
Qed.

(** The rows of a plain table, header included, are neither empty nor
    blank. *)
Lemma plainTable_rows headers rows :
  plainTable headers rows ->
  Forall (fun r => r <> [] /\ Csv.someCell r = true) (headers :: rows).
Proof.
  intros (Hne & Hnd & Hhs & Hrows). constructor.
  - split; [done|]. apply someCell_plain.
    + eapply Forall_impl; [exact Hhs|]. by intros h (_ & Ht & _).
    + destruct headers as [|h hs]; [done|]. apply Exists_cons_hd.
      by apply Forall_cons in Hhs as [(Hh & _) _].
  - eapply Forall_impl; [exact Hrows|]. intros r (Hlen & Ht & Hex). split.
    + intros ->. destruct headers; [done | simpl in Hlen; done].
    + by apply someCell_plain.
Qed.

Lemma filter_someCell_id table :
  Forall (fun r => r <> [] /\ Csv.someCell r = true) table ->
  List.filter Csv.someCell table = table.
Proof.
  intros Ht. apply forallb_filter_id, forallb_forall. intros r Hr%list_elem_of_In.
  eapply Forall_forall in Ht; [|exact Hr]. by destruct Ht.
Qed.

(** The scanner gives the rows of a serialized plain table back, in every
    dialect. *)
Lemma plainTable_rawRows d headers rows :
  plainTable headers rows ->
  Csv.rawRows (serializeCSV d (headers :: rows)) = headers :: rows.
Proof.
  intros Hplain. pose proof (plainTable_rows headers rows Hplain) as Hall.
  unfold serializeCSV. destruct (finalBreak d).
  - rewrite rawRows_serialized; [by apply filter_someCell_id|].
    eapply Forall_impl; [exact Hall|]. by intros r [? _].
  - change (Csv.rawRows
              (serializeRows d (removelast (headers :: rows)) ++
               serializeRecord d (List.last (headers :: rows) [])) = headers :: rows).
    assert (Hsplit : headers :: rows =
                     removelast (headers :: rows) ++ [List.last (headers :: rows) []])
      by (by apply app_removelast_last).
    rewrite Hsplit in Hall. apply Forall_app in Hall as [Hinit Hlast].
    apply Forall_singleton in Hlast as [Hlast Hsome].
    rewrite rawRows_trailing_row.
    + rewrite filter_someCell_id by done. by rewrite <- Hsplit.
    + eapply Forall_impl; [exact Hinit|]. by intros r [? _].
    + done.
    + intros E. by rewrite E in Hsome.
Qed.

Lemma plainTable_headers headers rows :
  plainTable headers rows -> trim <$> headers = headers.
Proof.
  intros (_ & _ & Hhs & _). apply list_eq. intros i. rewrite list_lookup_fmap.
  destruct (headers !! i) as [h|] eqn:E; [|done]. simpl.
  apply list_elem_of_lookup_2 in E. eapply Forall_forall in Hhs; [|exact E].
  destruct Hhs as (_ & -> & _). done.
Qed.

(** C3, as the parsers have it.  The header row and the data rows of a plain
    table (distinct proper column names, one cell per column, no white
    space around a cell, no row empty throughout), serialized with the
    quoting of RFC 4180 in any dialect, are parsed back into exactly the row
    mappings of the table, whatever commas, double quotes and line breaks
    the cells contain; this holds of [parseCSV] in scripts/build-data.mjs
    and in the variant that filters the rows once more. *)
Theorem csv_round_trip d headers rows :
  plainTable headers rows ->
  BuildData.parseCSV (serializeCSV d (headers :: rows)) = tableOf headers rows /\
  Part001.parseCSV (serializeCSV d (headers :: rows)) = tableOf headers rows.
Proof.
  intros Hplain.
  pose proof (plainTable_rawRows d headers rows Hplain) as Hraw.
  pose proof (plainTable_headers headers rows Hplain) as Htrim.
  pose proof (plainTable_rows headers rows Hplain) as Hall.
  apply Forall_cons in Hall as [_ Hall].
  destruct Hplain as (Hne & Hnd & Hhs & Hrows).
  assert (Hfill : forall r, r ∈ rows ->
             BuildData.fillObject headers 0 r ∅ = list_to_map (zip headers r)).
  { intros r Hr. eapply Forall_forall in Hrows; [|exact Hr].
    destruct Hrows as (Hlen & Ht & _).
    pose proof (fillObject_zip headers r [] ∅ Hnd Hhs Hlen Ht) as E.
    simpl in E. by rewrite E, (right_id_L ∅ (∪)). }
  split.
  - unfold BuildData.parseCSV, tableOf. rewrite Hraw, Htrim.
    apply Forall_fmap_ext_1, Forall_forall. exact Hfill.
  - unfold Part001.parseCSV, tableOf. rewrite Hraw, Htrim.
    rewrite filter_someCell_id by done.
    apply Forall_fmap_ext_1, Forall_forall. intros r Hr.
    rewrite fillObject_part001; [by apply Hfill|].
    eapply Forall_impl; [exact Hhs|]. by intros h (Hh & _).
Qed.

End ParseCSV.

Lemma csv_round_trip_witness :
  plainTable [lit "Name"; lit "Note"]
    [[lit "Acme, Inc."; lit "said " ++ [DQUOTE] ++ lit "hi" ++ [DQUOTE]];
     [lit "two" ++ [CR; LF] ++ lit "lines"; []]] /\
  BuildData.parseCSV
    (serializeCSV rfc4180
       ([lit "Name"; lit "Note"] ::
        [[lit "Acme, Inc."; lit "said " ++ [DQUOTE] ++ lit "hi" ++ [DQUOTE]];
         [lit "two" ++ [CR; LF] ++ lit "lines"; []]])) =
  tableOf [lit "Name"; lit "Note"]
    [[lit "Acme, Inc."; lit "said " ++ [DQUOTE] ++ lit "hi" ++ [DQUOTE]];
     [lit "two" ++ [CR; LF] ++ lit "lines"; []]].
Proof.
  assert (Hplain : plainTable [lit "Name"; lit "Note"]
            [[lit "Acme, Inc."; lit "said " ++ [DQUOTE] ++ lit "hi" ++ [DQUOTE]];
             [lit "two" ++ [CR; LF] ++ lit "lines"; []]]).
  { split_and!.
    - done.
    - apply NoDup_cons. split; [|apply NoDup_singleton].
      intros Hin%list_elem_of_singleton. discriminate Hin.
    - repeat constructor; done.
    - repeat constructor; done. }
  split; [exact Hplain|].
  exact (proj1 (csv_round_trip rfc4180 _ _ Hplain)).
Defined.

Example serialized_sample :
  serializeCSV rfc4180
    [[lit "Name"; lit "Note"];
     [lit "Acme, Inc."; lit "said " ++ [DQUOTE] ++ lit "hi" ++ [DQUOTE]]] =
  lit "Name,Note" ++ [CR; LF] ++
  [DQUOTE] ++ lit "Acme, Inc." ++ [DQUOTE; COMMA; DQUOTE] ++ lit "said " ++
  [DQUOTE; DQUOTE] ++ lit "hi" ++ [DQUOTE; DQUOTE; DQUOTE] ++ [CR; LF].
Proof. vm_compute. reflexivity. Qed.

(** The claim C3 as it is written fails on a cell with white space around
    it: the parser trims every cell, so the cell does not come back as it
    was written. *)
Lemma csv_round_trip_counterexample :
  BuildData.parseCSV (serializeCSV rfc4180 ([lit "h"] :: [[lit " a "]])) <>
  tableOf [lit "h"] [[lit " a "]].
Proof.
  intros Heq.
  apply (f_equal (fun t => head t ≫= (fun o : rowobj => o !! lit "h"))) in Heq.
  vm_compute in Heq. discriminate Heq.
Qed.

(** The same table written with line feeds, every field quoted and no line
    break at the end. *)
Example serialized_other_dialect :
  serializeCSV (Dialect (fun _ => true) LFonly false)
    [[lit "Name"; lit "Note"]; [lit "Acme, Inc."; []]] =
  [DQUOTE] ++ lit "Name" ++ [DQUOTE; COMMA; DQUOTE] ++ lit "Note" ++ [DQUOTE; LF] ++
  [DQUOTE] ++ lit "Acme, Inc." ++ [DQUOTE; COMMA; DQUOTE; DQUOTE].
Proof. vm_compute. reflexivity. Qed.

Example parsed_other_dialect :
  BuildData.parseCSV
    (serializeCSV (Dialect (fun _ => true) LFonly false)
       [[lit "Name"; lit "Note"]; [lit "Acme, Inc."; []]]) =
  [ {[ lit "Name" := lit "Acme, Inc."; lit "Note" := [] ]} ].
Proof. vm_compute. reflexivity. Qed.

Example csv_trimmed_cell :
  BuildData.parseCSV (serializeCSV rfc4180 ([lit "h"] :: [[lit " a "]])) =
  [ {[ lit "h" := lit "a" ]} ].
Proof. vm_compute. reflexivity. Qed.

(** ** Blank rows *)

Section BlankRows.

Import Csv.

(** The scanner only ever adds to [rows] a row that passed the blank test. *)
Lemma step_rows c n st :
  Forall (fun r => someCell r = true) (rows st) ->
  Forall (fun r => someCell r = true) (rows (step c n st).1).
Proof.
  intros Hst. unfold step.
  repeat (match goal with |- context [if ?b then _ else _] => destruct b eqn:? end);
    simpl; try done.
  destruct (someCell (row st ++ [cur st])) eqn:E; [|done].
  apply Forall_app. split; [done|]. by constructor.
Qed.

Lemma scan_rows text :
  forall st,
    Forall (fun r => someCell r = true) (rows st) ->
    Forall (fun r => someCell r = true) (rows (scan text st)).
Proof.
  induction text as [text IH] using (induction_ltof1 _ (@length N)).
  unfold ltof in IH. intros st Hst. destruct text as [|c rest]; [done|].
  simpl. pose proof (step_rows c (head rest) st Hst) as Hstep.
  destruct (step c (head rest) st) as [st' skip]. simpl in Hstep.
  destruct skip.
  - destruct rest as [|n rest']; [done|]. apply IH; [simpl; lia | done].
  - apply IH; [simpl; lia | done].
Qed.

(** In every variant the rows that the scanner hands over have a cell that
    is not blank, except possibly the last one, which is pushed after the
    loop without the test. *)
Lemma rawRows_blank_only_last text :
  exists rs, Forall (fun r => someCell r = true) rs /\
             (rawRows text = rs \/ exists r, rawRows text = rs ++ [r]).
Proof.
  unfold rawRows, finish.
  pose proof (scan_rows text init (Forall_nil_2 _)) as Hrows.
  exists (rows (scan text init)). split; [done|].
  destruct (truthy _ || negb _); [right; eauto | by left].
Qed.

(** The rows before the last push are the rows of the loop. *)
Lemma rawRows_pushed text :
  Forall (fun r => someCell r = true) (rows (scan text init)) /\
  (rawRows text = rows (scan text init) \/
   exists r, rawRows text = rows (scan text init) ++ [r]).
Proof.
  split; [apply scan_rows; constructor|].
  unfold rawRows, finish.
  destruct (truthy _ || negb _); [right; eauto | by left].
Qed.

(** The variant that filters the rows once more hands no blank row on. *)
Lemma part001_no_blank_row text :
  exists hs rs, Part001.parseCSV text = (fun r => Part001.fillObject hs 0 r ∅) <$> rs /\
                Forall (fun r => someCell r = true) rs.
Proof.
  unfold Part001.parseCSV. destruct (rawRows text) as [|first rest].
  - exists [], []. by split.
  - exists (trim <$> first), (List.filter someCell rest). split; [done|].
    apply Forall_forall. intros r Hr%list_elem_of_In. by apply filter_In in Hr as [_ Hr].
Qed.

End BlankRows.

(** C6 fails in scripts/build-data.mjs on a blank last row without a line
    break: after the header [h] and the row [a], the two spaces that end the
    text come out as one more row, with an empty cell. *)
Theorem trailing_blank_row_kept :
  BuildData.parseCSV (textOf ["h"; "a"] ++ lit "  ") =
  [ {[ lit "h" := lit "a" ]}; {[ lit "h" := [] ]} ].
Proof. vm_compute. reflexivity. Qed.

(** The variant that filters the rows once more drops that row. *)
Example trailing_blank_row_filtered :
  Part001.parseCSV (textOf ["h"; "a"] ++ lit "  ") = [ {[ lit "h" := lit "a" ]} ].
Proof. vm_compute. reflexivity. Qed.

(** Rows that end with a line break are dropped when they are blank. *)
Example blank_rows_dropped :
  BuildData.parseCSV (textOf ["h"; "  "; "a"; ""; " "]) = [ {[ lit "h" := lit "a" ]} ].
Proof. vm_compute. reflexivity. Qed.

(** A last row that is not blank needs no line break. *)
Example trailing_row_parsed :
  BuildData.parseCSV (textOf ["h"; "a"] ++ lit "b") =
  [ {[ lit "h" := lit "a" ]}; {[ lit "h" := lit "b" ]} ].
Proof. vm_compute. reflexivity. Qed.

(** ** Duplicates in the earliest variant *)

(** C1 fails in the earliest variant: two link rows that name the same
    problem for the same company leave that problem twice in the solutions
    of the company. *)
Theorem earliest_variant_keeps_duplicates :
  @Part000.reconcile asciiLower [acmeIdRow] [slowRow] [acmeIdSlowLink; acmeIdSlowLink] =
  Some [ {| Part000.id := lit "c1"; Part000.name := lit "Acme";
            Part000.website := None; Part000.location := None;
            Part000.target := None; Part000.org_types := [];
            Part000.solutions :=
              [ {| Part000.problem := lit "Slow onboarding";
                   Part000.solution := Some (lit "Add checklist");
                   Part000.feature := Some (lit "Checklist tool") |};
                {| Part000.problem := lit "Slow onboarding";
                   Part000.solution := Some (lit "Add checklist");
                   Part000.feature := Some (lit "Checklist tool") |} ] |} ].
Proof. vm_compute. reflexivity. Qed.

(** The link rows of that run, as the sheet gives them. *)
Example earliest_variant_link_rows :
  Part000.parseCSV (textOf ["Company ID,Problem"; "c1,Slow onboarding"; "c1,Slow onboarding"]) =
  Some [acmeIdSlowLink; acmeIdSlowLink].
Proof. vm_compute. reflexivity. Qed.

(** On the same tables scripts/build-data.mjs attaches the problem once. *)
Example build_data_attaches_once :
  BuildData.solutions <$>
    BuildData.companies
      (@BuildData.reconcile asciiLower [acmeRow] [slowRow] [acmeSlowLink; acmeSlowLink]) =
  [[ {| BuildData.problem := lit "Slow onboarding";
        BuildData.solution := lit "Add checklist";
        BuildData.feature := lit "Checklist tool" |} ]].
Proof. vm_compute. reflexivity. Qed.

(** * Further properties of the scripts *)

(** ** The scanner on arbitrary text *)

Section ScannerFacts.

Import Csv.

(** X1.  The scanner of [parseCSV] (the loop and the push after it, shared
    by the three variants) gives back, cell for cell and without trimming
    anything, every table whose rows have a cell that is not blank, from
    its serialization in any dialect: quotes where needed or more often,
    any of the three line breaks, with or without a last one. *)
Theorem scanned_rows_round_trip d (table : list (list str)) :
  Forall (fun r => r <> [] /\ someCell r = true) table ->
  rawRows (serializeCSV d table) = table.
Proof.
  intros Hall. unfold serializeCSV. destruct (finalBreak d).
  - rewrite rawRows_serialized; [by apply filter_someCell_id|].
    eapply Forall_impl; [exact Hall|]. by intros r [? _].
  - destruct table as [|r0 table]; [done|].
    assert (Hsplit : r0 :: table =
                     removelast (r0 :: table) ++ [List.last (r0 :: table) []])
      by (by apply app_removelast_last).
    rewrite Hsplit in Hall. apply Forall_app in Hall as [Hinit Hlast].
    apply Forall_singleton in Hlast as [Hlast Hsome].
    rewrite rawRows_trailing_row.
    + rewrite filter_someCell_id by done. by rewrite <- Hsplit.
    + eapply Forall_impl; [exact Hinit|]. by intros r [? _].
    + done.
    + intros E. by rewrite E in Hsome.
Qed.

Lemma elem_of_removelast {A} (x : A) (l : list A) : x ∈ removelast l -> x ∈ l.
Proof.
  induction l as [|a [|b l] IH]; simpl; [done | by intros ?%elem_of_nil |].
  intros [->|Hx]%elem_of_cons; [left | right; by apply IH].
Qed.

(** X2.  Of the rows the scanner hands over, on any text, only the last can
    be blank: every other row has a cell that is not white space only. *)
Theorem only_last_scanned_row_blank text :
  Forall (fun r => someCell r = true) (removelast (rawRows text)).
Proof.
  destruct (rawRows_blank_only_last text) as (rs & Hrs & [-> | [r ->]]).
  - apply Forall_forall. intros r Hr%elem_of_removelast.
    eapply Forall_forall in Hrs; [exact Hrs | done].
  - by rewrite removelast_last.
Qed.

Lemma endRow_clean st : cleanState st -> cleanState (endRow st).
Proof.
  intros (Hq & Hrows & Hrow & Hcur). unfold endRow, cleanState. simpl.
  split_and!; [done | | constructor | constructor].
  destruct (someCell (row st ++ [cur st])); [|done].
  apply Forall_app. split; [done|]. constructor; [|constructor].
  apply Forall_app. split; [done|]. by constructor.
Qed.

Lemma step_unquoted_clean c n st :
  c <> DQUOTE -> cleanState st -> cleanState (step c n st).1.
Proof.
  intros Hc Hst. pose proof Hst as (Hq & Hrows & Hrow & Hcur). unfold step. rewrite Hq.
  apply N.eqb_neq in Hc. rewrite Hc. simpl.
  destruct (N.eqb_spec c COMMA) as [->|Hcomma]; simpl.
  { unfold cleanState. simpl. split_and!; [done | done | | constructor].
    apply Forall_app. split; [done|]. by constructor. }
  destruct (N.eqb_spec c LF) as [->|Hlf]; simpl; [by apply endRow_clean|].
  destruct (N.eqb_spec c CR) as [->|Hcr]; simpl; [by apply endRow_clean|].
  unfold cleanState. simpl. split_and!; [done | done | done |].
  apply Forall_app. split; [done|]. by constructor.
Qed.

Lemma scan_unquoted_clean text :
  forall st, Forall (fun c => c <> DQUOTE) text -> cleanState st -> cleanState (scan text st).
Proof.
  induction text as [text IH] using (induction_ltof1 _ (@length N)).
  unfold ltof in IH. intros st Htext Hst. destruct text as [|c rest]; [done|].
  apply Forall_cons in Htext as [Hc Hrest].
  simpl. pose proof (step_unquoted_clean c (head rest) st Hc Hst) as Hstep.
  destruct (step c (head rest) st) as [st' skip]. simpl in Hstep.
  destruct skip.
  - destruct rest as [|n rest']; [done|].
    apply Forall_cons in Hrest as [_ Hrest]. apply IH; [simpl; lia | done | done].
  - apply IH; [simpl; lia | done | done].
Qed.

(** X3.  On a text without a double quote the scanner never leaves a comma,
    a line feed or a carriage return inside a cell: each of them ends the
    cell it stands after. *)
Theorem unquoted_cells_hold_no_separator text :
  Forall (fun c => c <> DQUOTE) text ->
  Forall (Forall noSeparator) (rawRows text).
Proof.
  intros Htext.
  destruct (scan_unquoted_clean text init Htext) as (_ & Hrows & Hrow & Hcur).
  { unfold cleanState. simpl. split_and!; [done | constructor..]. }
  unfold rawRows, finish. destruct (truthy _ || negb _); [|done].
  apply Forall_app. split; [done|]. constructor; [|constructor].
  apply Forall_app. split; [done|]. by constructor.
Qed.

End ScannerFacts.

Lemma scanned_rows_round_trip_witness :
  Forall (fun r => r <> [] /\ Csv.someCell r = true)
         [[lit " padded "; lit "a,b"]; [[]; [DQUOTE; LF; DQUOTE]; lit "x"]] /\
  Csv.rawRows (serializeCSV (Dialect (fun _ => false) CRonly false)
                 [[lit " padded "; lit "a,b"]; [[]; [DQUOTE; LF; DQUOTE]; lit "x"]]) =
  [[lit " padded "; lit "a,b"]; [[]; [DQUOTE; LF; DQUOTE]; lit "x"]].
Proof.
  assert (H : Forall (fun r => r <> [] /\ Csv.someCell r = true)
         [[lit " padded "; lit "a,b"]; [[]; [DQUOTE; LF; DQUOTE]; lit "x"]])
    by (repeat constructor; done).
  split; [exact H|]. exact (scanned_rows_round_trip _ _ H).
Defined.

Lemma unquoted_cells_hold_no_separator_witness :
  Forall (fun c => c <> DQUOTE) (textOf ["a,b c"; " "; "d"] ++ [CR] ++ lit "e,") /\
  Forall (Forall noSeparator) (Csv.rawRows (textOf ["a,b c"; " "; "d"] ++ [CR] ++ lit "e,")).
Proof.
  assert (H : Forall (fun c => c <> DQUOTE) (textOf ["a,b c"; " "; "d"] ++ [CR] ++ lit "e,"))
    by (repeat constructor; done).
  split; [exact H|]. exact (unquoted_cells_hold_no_separator _ H).
Defined.

Example unquoted_text_sample :
  Csv.rawRows (textOf ["a,b c"; " "; "d"] ++ [CR] ++ lit "e,") =
  [[lit "a"; lit "b c"]; [lit "d"]; [lit "e"; []]].
Proof. vm_compute. reflexivity. Qed.

(** ** From rows to row objects *)

Section Columns.

Implicit Types (hs : list str) (o : rowobj).

(** The keys [fillObject] adds are the header names that are not empty and
    not [__proto__]. *)
Lemma fillObject_keys hs i r o h :
  is_Some (BuildData.fillObject hs i r o !! h) <->
  is_Some (o !! h) \/ (h ∈ hs /\ h <> [] /\ h <> lit "__proto__").
Proof.
  revert i o. induction hs as [|h0 hs IH]; intros i o; simpl.
  - split; [by left|]. intros [?|[Hh _]]; [done|]. by apply elem_of_nil in Hh.
  - rewrite IH. unfold setProp. destruct (truthy h0) eqn:Et.
    + apply truthy_true in Et. case_bool_decide as Ep.
      * split.
        -- intros [?|(Hh & ? & ?)]; [by left|]. right. split_and!; [by right | done..].
        -- intros [?|([->|Hh]%elem_of_cons & ? & ?)]; [by left | done |]. by right.
      * rewrite lookup_insert_is_Some. split.
        -- intros [[->|[_ ?]]|(Hh & ? & ?)].
           ++ right. split_and!; [left | done..].
           ++ by left.
           ++ right. split_and!; [by right | done..].
        -- intros [?|([->|Hh]%elem_of_cons & ? & ?)].
           ++ left. destruct (decide (h0 = h)); [by left | by right].
           ++ left. by left.
           ++ by right.
    + assert (h0 = []) as -> by (by destruct h0). split.
      * intros [?|(Hh & ? & ?)]; [by left|]. right. split_and!; [by right | done..].
      * intros [?|([->|Hh]%elem_of_cons & ? & ?)]; [by left | done |]. by right.
Qed.

Lemma fillObject_trimmed hs i r o :
  map_Forall (fun _ v => trim v = v) o ->
  map_Forall (fun _ v => trim v = v) (BuildData.fillObject hs i r o).
Proof.
  revert i o. induction hs as [|h hs IH]; intros i o Ho; simpl; [done|].
  apply IH. destruct (truthy h); [|done]. unfold setProp.
  case_bool_decide; [done|]. apply map_Forall_insert_2; [apply trim_idem | done].
Qed.

(** Every row object has the columns of the header row. *)
Lemma parseCSV_keys text o h :
  o ∈ BuildData.parseCSV text ->
  is_Some (o !! h) <->
  h ∈ trim <$> default [] (head (Csv.rawRows text)) /\ h <> [] /\ h <> lit "__proto__".
Proof.
  unfold BuildData.parseCSV. destruct (Csv.rawRows text) as [|first rest]; simpl.
  - by intros ?%elem_of_nil.
  - intros (r & -> & _)%list_elem_of_fmap. rewrite fillObject_keys, lookup_empty.
    split; [intros [[? ?]|?]; done | by right].
Qed.

(** X4.  In scripts/build-data.mjs every row object of a parsed table has
    the same columns: the trimmed names of the header row that are not
    empty and not [__proto__]; and every cell of it is trimmed. *)
Theorem parsed_rows_share_columns text :
  Forall (fun o : rowobj =>
            (forall h, is_Some (o !! h) <->
                       h ∈ trim <$> default [] (head (Csv.rawRows text)) /\
                       h <> [] /\ h <> lit "__proto__") /\
            map_Forall (fun _ v => trim v = v) o)
         (BuildData.parseCSV text).
Proof.
  apply Forall_forall. intros o Ho. split.
  - intros h. by apply parseCSV_keys.
  - revert Ho. unfold BuildData.parseCSV.
    destruct (Csv.rawRows text) as [|first rest]; [by intros ?%elem_of_nil|].
    intros (r & -> & _)%list_elem_of_fmap.
    apply fillObject_trimmed, map_Forall_empty.
Qed.

End Columns.

Lemma someCell_false r : Csv.someCell r = false -> Forall (fun v => trim v = []) r.
Proof.
  unfold Csv.someCell. intros Hr. apply Forall_forall. intros v Hv%list_elem_of_In.
  destruct (trim v) eqn:E; [done|]. exfalso.
  assert (existsb (fun v => truthy (trim v)) r = true); [|congruence].
  apply existsb_exists. exists v. split; [done|]. by rewrite E.
Qed.

Lemma cellAt_blank r i : Forall (fun v => trim v = []) r -> trim (cellAt r i) = [].
Proof.
  intros Hr. unfold cellAt. destruct (r !! i) as [v|] eqn:E; simpl; [|done].
  eapply Forall_forall in Hr; [exact Hr|]. by eapply list_elem_of_lookup_2.
Qed.

Lemma fillObject_blank hs i r o :
  Forall (fun v => trim v = []) r -> blankRow o -> blankRow (BuildData.fillObject hs i r o).
Proof.
  intros Hr. revert i o. induction hs as [|h hs IH]; intros i o Ho; simpl; [done|].
  apply IH. destruct (truthy h); [|done]. unfold setProp.
  case_bool_decide; [done|]. apply map_Forall_insert_2; [|done].
  by rewrite cellAt_blank.
Qed.

(** What the parser of scripts/build-data.mjs returns beyond the parser of
    part_001: at most one row object, at the end, without a cell that is
    not blank. *)
Lemma parseCSV_extra_row text :
  Forall (fun h => trim h <> []) (default [] (head (Csv.rawRows text))) ->
  exists extra, BuildData.parseCSV text = Part001.parseCSV text ++ extra /\
                (extra = [] \/ exists o, extra = [o]) /\ Forall blankRow extra.
Proof.
  intros Hhs.
  assert (Hfill : forall first r,
             Forall (fun h => trim h <> []) first ->
             Part001.fillObject (trim <$> first) 0 r ∅ =
             BuildData.fillObject (trim <$> first) 0 r ∅).
  { intros first r Hf. apply fillObject_part001. by apply Forall_fmap. }
  destruct (rawRows_blank_only_last text) as (rs & Hrs & Hraw).
  unfold Part001.parseCSV, BuildData.parseCSV.
  destruct Hraw as [Hraw | [r Hraw]]; rewrite Hraw in *.
  - exists []. rewrite app_nil_r. split; [|split; [by left | constructor]].
    destruct rs as [|first rest]; [done|]. simpl in Hhs.
    apply Forall_cons in Hrs as [_ Hrest].
    rewrite forallb_filter_id.
    + apply eq_sym, Forall_fmap_ext_1, Forall_forall. intros r _. by apply Hfill.
    + apply forallb_forall. intros r Hr%list_elem_of_In.
      eapply Forall_forall in Hrest; [exact Hrest | done].
  - destruct rs as [|first rest].
    { exists []. split; [done|]. split; [by left | constructor]. }
    simpl in Hhs. apply Forall_cons in Hrs as [_ Hrest].
    assert (Hf : List.filter Csv.someCell rest = rest).
    { apply forallb_filter_id, forallb_forall. intros r' Hr%list_elem_of_In.
      eapply Forall_forall in Hrest; [exact Hrest | done]. }
    change ((first :: rest) ++ [r]) with (first :: rest ++ [r]). cbv beta iota.
    rewrite List.filter_app, Hf. simpl. destruct (Csv.someCell r) eqn:Er.
    + exists []. rewrite app_nil_r. split; [|split; [by left | constructor]].
      apply eq_sym, Forall_fmap_ext_1, Forall_forall. intros r' _. by apply Hfill.
    + exists [BuildData.fillObject (trim <$> first) 0 r ∅].
      split; [|split; [right; eauto|]].
      * rewrite app_nil_r, fmap_app. simpl. f_equal.
        apply eq_sym, Forall_fmap_ext_1, Forall_forall. intros r' _. by apply Hfill.
      * constructor; [|constructor]. apply fillObject_blank; [|apply map_Forall_empty].
        by apply someCell_false.
Qed.

(** X5.  When no column name of the header row is blank, the three parsers
    differ in two places only.  The parser of part_001 gives the row
    objects of the parser of scripts/build-data.mjs, or else all of them
    but the last, and then the row it drops is the one built from the row
    that the push after the loop added, which has no cell that is not
    blank.  The parser of part_000 raises on a text without any row, where
    scripts/build-data.mjs gives the empty table, and on every other text
    gives the row objects of scripts/build-data.mjs. *)
Theorem parsers_differ_in_last_row text :
  Forall (fun h => trim h <> []) (default [] (head (Csv.rawRows text))) ->
  (Part001.parseCSV text = BuildData.parseCSV text \/
   exists first rest r,
     Csv.rows (Csv.scan text Csv.init) = first :: rest /\
     Csv.rawRows text = first :: rest ++ [r] /\
     Csv.someCell r = false /\
     blankRow (BuildData.fillObject (trim <$> first) 0 r ∅) /\
     BuildData.parseCSV text =
       Part001.parseCSV text ++ [BuildData.fillObject (trim <$> first) 0 r ∅]) /\
  (Csv.rawRows text = [] ->
   Part000.parseCSV text = None /\ BuildData.parseCSV text = []) /\
  (Csv.rawRows text <> [] ->
   Part000.parseCSV text = Some (BuildData.parseCSV text)).
Proof.
  intros Hhs.
  assert (Hfill : forall first r,
             Forall (fun h => trim h <> []) first ->
             Part001.fillObject (trim <$> first) 0 r ∅ =
             BuildData.fillObject (trim <$> first) 0 r ∅).
  { intros first r Hf. apply fillObject_part001. by apply Forall_fmap. }
  split_and!.
  - destruct (rawRows_pushed text) as [Hrs Hraw].
    destruct (Csv.rows (Csv.scan text Csv.init)) as [|first rest] eqn:Erows.
    { left. unfold Part001.parseCSV, BuildData.parseCSV.
      by destruct Hraw as [-> | [r ->]]. }
    apply Forall_cons in Hrs as [_ Hrest].
    assert (Hf : List.filter Csv.someCell rest = rest).
    { apply forallb_filter_id, forallb_forall. intros r' Hr%list_elem_of_In.
      eapply Forall_forall in Hrest; [exact Hrest | done]. }
    destruct Hraw as [Hraw | [r Hraw]].
    + left. unfold Part001.parseCSV, BuildData.parseCSV. rewrite Hraw in *.
      simpl in Hhs. rewrite Hf.
      apply Forall_fmap_ext_1, Forall_forall. intros r _. by apply Hfill.
    + change ((first :: rest) ++ [r]) with (first :: rest ++ [r]) in Hraw.
      unfold Part001.parseCSV, BuildData.parseCSV. rewrite Hraw in *. simpl in Hhs.
      cbv beta iota. rewrite List.filter_app, Hf. simpl.
      destruct (Csv.someCell r) eqn:Er.
      * left. apply Forall_fmap_ext_1, Forall_forall. intros r' _. by apply Hfill.
      * right. exists first, rest, r. split_and!; [done | done | done | |].
        -- apply fillObject_blank; [|apply map_Forall_empty]. by apply someCell_false.
        -- rewrite app_nil_r, fmap_app. simpl. f_equal.
           apply eq_sym, Forall_fmap_ext_1, Forall_forall. intros r' _. by apply Hfill.
  - unfold Part000.parseCSV, BuildData.parseCSV. by intros ->.
  - unfold Part000.parseCSV, BuildData.parseCSV.
    destruct (Csv.rawRows text) as [|first rest]; [done|]. intros _. simpl in Hhs.
    f_equal. apply Forall_fmap_ext_1, Forall_forall. intros r _.
    apply fillObject_part001. by apply Forall_fmap.
Qed.

Lemma parsers_differ_in_last_row_witness :
  Forall (fun h => trim h <> [])
         (default [] (head (Csv.rawRows (textOf ["h"; "a"] ++ lit "  ")))) /\
  Csv.rawRows (textOf ["h"; "a"] ++ lit "  ") <> [] /\
  (Part001.parseCSV (textOf ["h"; "a"] ++ lit "  ") =
   BuildData.parseCSV (textOf ["h"; "a"] ++ lit "  ") \/
   exists first rest r,
     Csv.rows (Csv.scan (textOf ["h"; "a"] ++ lit "  ") Csv.init) = first :: rest /\
     Csv.rawRows (textOf ["h"; "a"] ++ lit "  ") = first :: rest ++ [r] /\
     Csv.someCell r = false /\
     blankRow (BuildData.fillObject (trim <$> first) 0 r ∅) /\
     BuildData.parseCSV (textOf ["h"; "a"] ++ lit "  ") =
       Part001.parseCSV (textOf ["h"; "a"] ++ lit "  ") ++
       [BuildData.fillObject (trim <$> first) 0 r ∅]) /\
  Part000.parseCSV (textOf ["h"; "a"] ++ lit "  ") =
  Some (BuildData.parseCSV (textOf ["h"; "a"] ++ lit "  ")).
Proof.
  assert (H : Forall (fun h => trim h <> [])
         (default [] (head (Csv.rawRows (textOf ["h"; "a"] ++ lit "  ")))))
    by (repeat constructor; done).
  assert (Hrows : Csv.rawRows (textOf ["h"; "a"] ++ lit "  ") <> []) by done.
  destruct (parsers_differ_in_last_row _ H) as (H001 & _ & H000).
  split; [exact H|]. split; [exact Hrows|]. split; [exact H001|]. exact (H000 Hrows).
Defined.

(** ** The field resolver on a row object *)

Lemma truthy_nil (s : str) : truthy s = false -> s = [].
Proof. by destruct s. Qed.

(** X6.  On a row object [pick] of scripts/build-data.mjs returns, and what
    it returns is trimmed: the trimmed cell of the first alias that is a
    column with a cell that is not blank, every alias before it being
    missing or blank; or the empty string, when every alias is missing or
    blank. *)
Theorem pick_first_alias (o : rowobj) (keys : list str) :
  exists x, BuildData.pick (Some o) keys = BuildData.Ok x /\ trim x = x /\
    ((x = [] /\ forall k v, k ∈ keys -> o !! k = Some v -> trim v = []) \/
     (x <> [] /\ exists before k after v,
        keys = before ++ k :: after /\ o !! k = Some v /\ x = trim v /\
        forall k' v', k' ∈ before -> o !! k' = Some v' -> trim v' = [])).
Proof.
  exists (BuildData.pickOf o keys). split; [apply pick_object|].
  rewrite pickOf_resolved. split; [apply trim_idem|].
  destruct (resolvedCell o keys) as [v|] eqn:E.
  - right. apply resolvedCell_Some in E as (before & k & after & -> & Hk & Hv & Hb).
    split; [by apply truthy_true|].
    exists before, k, after, v. split_and!; try done.
    intros k' v' Hk' Hv'. apply truthy_nil. eauto.
  - left. split; [done|]. intros k v Hk Hv.
    rewrite resolvedCell_None in E. apply truthy_nil. eauto.
Qed.

Lemma pickOf_app (o : rowobj) (a b : list str) :
  BuildData.pickOf o (a ++ b) = orElse (BuildData.pickOf o a) (BuildData.pickOf o b).
Proof.
  induction a as [|k a IH]; simpl; [done|].
  destruct (o !! k) as [v|]; [|exact IH].
  destruct (truthy (trim v)) eqn:E; [|exact IH].
  unfold orElse. by rewrite E.
Qed.

(** X7.  [pick] over a list of aliases followed by another is [pick] over
    the first list, and over the second when the first gives the empty
    string. *)
Theorem pick_alias_lists (o : rowobj) (a b : list str) :
  BuildData.pick (Some o) (a ++ b) =
  match BuildData.pick (Some o) a with
  | BuildData.Ok [] => BuildData.pick (Some o) b
  | found => found
  end.
Proof.
  rewrite !pick_object, pickOf_app. unfold orElse.
  by destruct (BuildData.pickOf o a).
Qed.

(** ** [slug] *)

Section Slug.

Implicit Types (s t : str) (p : N -> bool) (c : N).

Lemma squeeze_Forall p rep b s :
  Forall (fun c => p c = false \/ c = rep) (squeeze p rep b s).
Proof.
  revert b. induction s as [|c s IH]; intros b; simpl; [constructor|].
  destruct (p c) eqn:E.
  - destruct b; [apply IH|]. constructor; [by right | apply IH].
  - constructor; [by left | apply IH].
Qed.

Lemma squeeze_noRepeat p rep b s :
  p rep = true ->
  noRepeat rep (squeeze p rep b s) = true /\
  (b = true -> head (squeeze p rep b s) <> Some rep).
Proof.
  intros Hrep. revert b. induction s as [|c s IH]; intros b; simpl; [done|].
  destruct (p c) eqn:E.
  - destruct b; [apply IH|]. destruct (IH true) as [Hn Hh]. split; [|done].
    simpl. rewrite Hn, bool_decide_eq_false_2 by auto. by rewrite andb_false_r.
  - assert (Hc : (c =? rep) = false) by (apply N.eqb_neq; congruence).
    destruct (IH false) as [Hn _]. split.
    + simpl. by rewrite Hc, Hn.
    + intros _ [= ->]. congruence.
Qed.

Lemma noRepeat_app_l x s t : noRepeat x (s ++ t) = true -> noRepeat x s = true.
Proof.
  induction s as [|c s IH]; simpl; [done|].
  intros [Hc Hs]%andb_true_iff. rewrite (IH Hs), andb_true_r.
  destruct (c =? x); [|done]. simpl in *.
  destruct s as [|d s]; [done|]. exact Hc.
Qed.

Lemma noRepeat_app_r x s t : noRepeat x (s ++ t) = true -> noRepeat x t = true.
Proof.
  induction s as [|c s IH]; simpl; [done|]. intros [_ Hs]%andb_true_iff. auto.
Qed.

Lemma dropEnd_last p s : forall c, last (dropEnd p s) = Some c -> p c = false.
Proof.
  intros c. unfold dropEnd. rewrite last_reverse.
  destruct (dropStart p (reverse s)) as [|d r] eqn:E; [done|].
  intros [= ->]. by eapply dropStart_head.
Qed.

Lemma dropEnd_dropStart_head p s :
  forall c, head (dropEnd p (dropStart p s)) = Some c -> p c = false.
Proof.
  intros c. destruct (dropStart p s) as [|d r] eqn:E; [done|].
  apply dropStart_head in E.
  destruct (dropEnd_keeps_head p d r E) as [r' ->]. by intros [= <-].
Qed.

(** X8.  A [slug] of scripts/build-data.mjs holds only lower-case ASCII
    letters, digits and hyphens, neither starts nor ends with a hyphen and
    has no two hyphens in a row, whatever the host's [toLowerCase] does. *)
Theorem slug_alphabet `{JsLower} (x : str) :
  Forall (fun c => isLowerAlnum c = true \/ c = HYPHEN) (BuildData.slug x) /\
  head (BuildData.slug x) <> Some HYPHEN /\
  last (BuildData.slug x) <> Some HYPHEN /\
  noRepeat HYPHEN (BuildData.slug x) = true.
Proof.
  unfold BuildData.slug, BuildData.stripHyphens, replaceRuns.
  set (q := squeeze (fun c => negb (isLowerAlnum c)) HYPHEN false
              (BuildData.replaceAmp (norm x))).
  destruct (dropStart_suffix (N.eqb HYPHEN) q) as (l & Hl & _).
  destruct (dropEnd_prefix (N.eqb HYPHEN) (dropStart (N.eqb HYPHEN) q)) as (r & Hr & _).
  split_and!.
  - pose proof (squeeze_Forall (fun c => negb (isLowerAlnum c)) HYPHEN false
                  (BuildData.replaceAmp (norm x))) as Hall.
    fold q in Hall. rewrite Hl, Hr in Hall.
    apply Forall_app in Hall as [_ [Hall _]%Forall_app].
    eapply Forall_impl; [exact Hall|]. intros c [Hc|Hc]; [left | by right].
    by apply negb_false_iff.
  - intros Hh. by apply dropEnd_dropStart_head in Hh.
  - intros Hh. by apply dropEnd_last in Hh.
  - destruct (squeeze_noRepeat (fun c => negb (isLowerAlnum c)) HYPHEN false
                (BuildData.replaceAmp (norm x)) eq_refl) as [Hn _].
    fold q in Hn. rewrite Hl in Hn. apply noRepeat_app_r in Hn.
    rewrite Hr in Hn. by apply noRepeat_app_l in Hn.
Qed.

End Slug.

Example slug_sample :
  @BuildData.slug asciiLower (lit "  R&D -- Labs (EU)! ") = lit "randd-labs-eu".
Proof. vm_compute. reflexivity. Qed.

(** ** The header check and the run *)

(** X9.  [assertHas] looks at the first row only: it passes exactly when
    every required column is a key of the first row (of the empty object,
    for a table without rows), and otherwise raises with exactly the
    required columns that are missing from that row, and with the columns
    of that row. *)
Theorem assertHas_checks_first_row (sheetName : str) (rows : list rowobj) (required : list str) :
  (BuildData.assertHas sheetName rows required = BuildData.Ok tt <->
   Forall (fun h => is_Some (default ∅ (head rows) !! h)) required) /\
  (forall err, BuildData.assertHas sheetName rows required = BuildData.Throw err ->
     exists missing,
       err = BuildData.MissingColumns sheetName missing (dom (default ∅ (head rows))) /\
       missing <> [] /\
       forall h, h ∈ missing <-> h ∈ required /\ default ∅ (head rows) !! h = None).
Proof.
  unfold BuildData.assertHas.
  set (first := default ∅ (head rows)).
  set (missing := List.filter (fun h => negb (bool_decide (h ∈ dom first))) required).
  assert (Hmiss : forall h, h ∈ missing <-> h ∈ required /\ first !! h = None).
  { intros h. subst missing. rewrite list_elem_of_In, filter_In, <- list_elem_of_In.
    rewrite negb_true_iff, bool_decide_eq_false, not_elem_of_dom. done. }
  split.
  - destruct missing as [|m ms] eqn:E; simpl.
    + split; [intros _|done]. apply Forall_forall. intros h Hh.
      destruct (first !! h) eqn:Eh; [done|].
      assert (h ∈ @nil str) as Hnil by (by apply Hmiss). by apply elem_of_nil in Hnil.
    + split; [done|]. intros Hall.
      assert (Hm : m ∈ m :: ms) by left. apply Hmiss in Hm as [Hm Hn].
      eapply Forall_forall in Hall; [|exact Hm]. rewrite Hn in Hall. by destruct Hall.
  - intros err. destruct missing as [|m ms] eqn:E; simpl; [done|].
    intros [= <-]. exists (m :: ms). split_and!; [done | done | exact Hmiss].
Qed.

Section Run.

Context `{JsLower}.

Lemma loadCSV_Ok (e : BuildData.env) (sheetName : str) (rows : list rowobj) :
  BuildData.loadCSV e sheetName = BuildData.Ok rows ->
  rows <> [] /\ exists res, BuildData.fetch e sheetName = Some res /\
                            BuildData.ok res = true /\
                            rows = BuildData.parseCSV (BuildData.text res).
Proof.
  unfold BuildData.loadCSV. destruct (BuildData.fetch e sheetName) as [res|]; [|done].
  destruct (BuildData.ok res) eqn:Eok; simpl; [|done].
  destruct (BuildData.parseCSV (BuildData.text res)) as [|o rows'] eqn:E; simpl; [done|].
  intros [= <-]. split; [done|]. by exists res.
Qed.

Lemma assertHas_Ok (sheetName : str) (rows : list rowobj) (required : list str) (h : str) :
  BuildData.assertHas sheetName rows required = BuildData.Ok tt ->
  h ∈ required -> is_Some (default ∅ (head rows) !! h).
Proof.
  unfold BuildData.assertHas. intros Hok Hh.
  destruct (List.filter _ required) as [|m ms] eqn:E; [|done].
  destruct (default ∅ (head rows) !! h) eqn:Eh; [done|]. exfalso.
  assert (Hin : In h (List.filter
                        (fun h0 => negb (bool_decide (h0 ∈ dom (default ∅ (head rows)))))
                        required)).
  { apply filter_In. split; [by apply list_elem_of_In|].
    apply negb_true_iff, bool_decide_eq_false. by apply not_elem_of_dom. }
  rewrite E in Hin. done.
Qed.

(** A sheet that loaded and passed its header check has the required
    columns in every row. *)
Lemma checked_sheet_columns (e : BuildData.env) (sheetName : str) (rows : list rowobj) (required : list str)
    (h : str) :
  BuildData.loadCSV e sheetName = BuildData.Ok rows ->
  BuildData.assertHas sheetName rows required = BuildData.Ok tt ->
  h ∈ required ->
  rows <> [] /\ Forall (fun r : rowobj => is_Some (r !! h)) rows.
Proof.
  intros (Hne & res & _ & _ & ->)%loadCSV_Ok Hok Hh. split; [done|].
  pose proof (assertHas_Ok _ _ _ h Hok Hh) as Hfirst.
  destruct (BuildData.parseCSV (BuildData.text res)) as [|o rows'] eqn:E; [done|].
  simpl in Hfirst.
  assert (Ho : o ∈ BuildData.parseCSV (BuildData.text res)) by (rewrite E; left).
  apply (parseCSV_keys _ _ h Ho) in Hfirst.
  rewrite <- E. apply Forall_forall. intros r Hr. by apply (parseCSV_keys _ _ h Hr).
Qed.

(** X10.  A run of scripts/build-data.mjs that ends normally has loaded
    three sheets that are not empty and passed the header checks, its
    output is their reconciliation, and the required columns, checked on
    the first row only, are columns of every row of every sheet. *)
Theorem run_ends_on_checked_sheets (e : BuildData.env) (out : BuildData.output) :
  BuildData.main e = BuildData.Ok out ->
  exists cs ps ls,
    sheetsAccepted e cs ps ls /\ out = BuildData.reconcile cs ps ls /\
    cs <> [] /\ ps <> [] /\ ls <> [] /\
    Forall (fun r : rowobj => is_Some (r !! lit "Company Name")) cs /\
    Forall (fun r : rowobj => is_Some (r !! lit "Problem") /\ is_Some (r !! lit "Solution") /\
                              is_Some (r !! lit "Feature")) ps /\
    Forall (fun r : rowobj => is_Some (r !! lit "Company Name") /\
                              is_Some (r !! lit "Problem")) ls.
Proof.
  unfold BuildData.main.
  destruct (BuildData.SHEET_ID e) as [[|c0 sid]|] eqn:Eid; [done | | done].
  destruct (BuildData.loadCSV e (lit "Companies")) as [cs|] eqn:Ec; [|done].
  destruct (BuildData.loadCSV e (lit "Problems")) as [ps|] eqn:Ep; [|done].
  destruct (BuildData.loadCSV e (lit "Company Solutions")) as [ls|] eqn:El; [|done].
  simpl.
  destruct (BuildData.assertHas (lit "Companies") cs _) as [[]|] eqn:Eac; [|done].
  destruct (BuildData.assertHas (lit "Problems") ps _) as [[]|] eqn:Eap; [|done].
  destruct (BuildData.assertHas (lit "Company Solutions") ls _) as [[]|] eqn:Eal; [|done].
  simpl. intros [= <-]. exists cs, ps, ls.
  assert (Hcol : forall sheetName rows required,
             BuildData.loadCSV e sheetName = BuildData.Ok rows ->
             BuildData.assertHas sheetName rows required = BuildData.Ok tt ->
             rows <> [] /\
             Forall (fun r : rowobj => Forall (fun h => is_Some (r !! h)) required) rows).
  { intros sheetName rows required Hload Hok. split.
    - by apply loadCSV_Ok in Hload as [? _].
    - apply Forall_forall. intros r Hr. apply Forall_forall. intros h Hh.
      destruct (checked_sheet_columns e sheetName rows required h Hload Hok Hh) as [_ Hall].
      eapply Forall_forall in Hall; [exact Hall | done]. }
  destruct (Hcol _ _ _ Ec Eac) as [Hcs Hcsall].
  destruct (Hcol _ _ _ Ep Eap) as [Hps Hpsall].
  destruct (Hcol _ _ _ El Eal) as [Hls Hlsall].
  split_and!; try done.
  - unfold sheetsAccepted. split_and!; try done. by exists c0, sid.
  - eapply Forall_impl; [exact Hcsall|]. intros r Hr. by inversion Hr.
  - eapply Forall_impl; [exact Hpsall|]. intros r Hr.
    inversion Hr as [|? ? ? Hr1]; subst. inversion Hr1 as [|? ? ? Hr2]; subst.
    inversion Hr2; subst. done.
  - eapply Forall_impl; [exact Hlsall|]. intros r Hr.
    inversion Hr as [|? ? ? Hr1]; subst. inversion Hr1; subst. done.
Qed.

End Run.

Lemma run_ends_on_checked_sheets_witness :
  exists out, @BuildData.main asciiLower sampleEnv = BuildData.Ok out /\
  exists cs ps ls,
    sheetsAccepted sampleEnv cs ps ls /\ out = @BuildData.reconcile asciiLower cs ps ls /\
    cs <> [] /\ ps <> [] /\ ls <> [] /\
    Forall (fun r : rowobj => is_Some (r !! lit "Company Name")) cs /\
    Forall (fun r : rowobj => is_Some (r !! lit "Problem") /\ is_Some (r !! lit "Solution") /\
                              is_Some (r !! lit "Feature")) ps /\
    Forall (fun r : rowobj => is_Some (r !! lit "Company Name") /\
                              is_Some (r !! lit "Problem")) ls.
Proof.
  eexists. split; [exact sample_run|].
  exact (@run_ends_on_checked_sheets asciiLower sampleEnv _ sample_run).
Defined.

(** ** The companies of the output *)

Lemma asciiLower_keeps_text : @LowerKeepsText asciiLower.
Proof. intros [|c s] Hs; [done|]. unfold toLowerCase, asciiLower. by rewrite fmap_cons. Qed.

Section Fields.

Context `{JsLower}.

Lemma pickOf_trimmed (o : rowobj) keys : trim (BuildData.pickOf o keys) = BuildData.pickOf o keys.
Proof. rewrite pickOf_resolved. apply trim_idem. Qed.

Lemma output_builtFrom cs ps ls :
  Forall (fun c => exists r, r ∈ cs /\ builtFrom r c)
         (BuildData.companies (BuildData.reconcile cs ps ls)).
Proof.
  unfold BuildData.reconcile. simpl. apply Forall_fmap. unfold mapValues.
  apply Forall_fmap.
  destruct (companyMap_final cs (foldl BuildData.addProblem ∅ ps) ls) as [_ Hall].
  eapply Forall_impl; [exact Hall|].
  intros [k c] [_ (r & Hr & Ht & Hb)]. simpl in *. exists r. split; [done|].
  split; [done|]. by rewrite blankLists_derive.
Qed.

(** X12.  Every company of the output of scripts/build-data.mjs has a
    name that is not empty, and its name, website, location and target
    carry no white space around them. *)
Theorem company_fields_trimmed cs ps ls :
  Forall (fun c =>
            BuildData.name c <> [] /\
            trim (BuildData.name c) = BuildData.name c /\
            trim (BuildData.website c) = BuildData.website c /\
            trim (BuildData.location c) = BuildData.location c /\
            trim (BuildData.target c) = BuildData.target c)
         (BuildData.companies (BuildData.reconcile cs ps ls)).
Proof.
  eapply Forall_impl; [apply output_builtFrom|].
  intros c (r & _ & Ht & Hb).
  pose proof (f_equal BuildData.name Hb) as Hn.
  pose proof (f_equal BuildData.website Hb) as Hw.
  pose proof (f_equal BuildData.location Hb) as Hl.
  pose proof (f_equal BuildData.target Hb) as Hg.
  cbn [blankLists BuildData.mkCompany BuildData.name BuildData.website
       BuildData.location BuildData.target] in Hn, Hw, Hl, Hg.
  rewrite Hn, Hw, Hl, Hg. unfold rowName in *.
  split_and!; [by apply truthy_true | apply pickOf_trimmed ..].
Qed.

Lemma squeeze_not_nil p rep b c s : b = false -> squeeze p rep b (c :: s) <> [].
Proof. intros ->. simpl. by destruct (p c). Qed.

(** X13.  Every company of the output of scripts/build-data.mjs has an id
    that is not empty, on any host whose [toLowerCase] does not empty a
    text: the key with its white space replaced is the last resort. *)
Theorem company_id_not_empty cs ps ls :
  LowerKeepsText ->
  Forall (fun c => BuildData.id c <> [])
         (BuildData.companies (BuildData.reconcile cs ps ls)).
Proof.
  intros Hlow. eapply Forall_impl; [apply output_builtFrom|].
  intros c (r & _ & Ht & Hb).
  pose proof (f_equal BuildData.id Hb) as Hi.
  cbn [blankLists BuildData.mkCompany BuildData.id] in Hi. rewrite Hi.
  assert (Hkey : rowKey r <> []).
  { unfold rowKey, norm. apply Hlow. unfold rowName. rewrite pickOf_trimmed.
    by apply truthy_true. }
  unfold orElse.
  destruct (truthy (if truthy (BuildData.pickOf r [lit "Company ID"])
                    then BuildData.pickOf r [lit "Company ID"]
                    else BuildData.slug (rowName r))) eqn:E.
  - by apply truthy_true.
  - unfold replaceRuns. destruct (rowKey r) as [|k0 key]; [done|].
    by apply squeeze_not_nil.
Qed.

End Fields.

Lemma company_id_not_empty_witness :
  @LowerKeepsText asciiLower /\
  Forall (fun c => BuildData.id c <> [])
         (BuildData.companies
            (@BuildData.reconcile asciiLower [acmeRow; betaRow] [slowRow] [acmeSlowLink])).
Proof.
  split; [exact asciiLower_keeps_text|].
  exact (@company_id_not_empty asciiLower [acmeRow; betaRow] [slowRow] [acmeSlowLink]
           asciiLower_keeps_text).
Defined.

Section Order.

Context `{JsLower}.

Lemma companyMap_keys_first_seen cs :
  (foldl BuildData.addCompany [] cs).*1 =
  reverse (remove_dups (reverse (rowKey <$> List.filter (fun r => truthy (rowName r)) cs))).
Proof.
  induction cs as [|r cs IH] using rev_ind; [done|].
  rewrite foldl_app, List.filter_app. simpl.
  destruct (addCompany_cases (foldl BuildData.addCompany [] cs) r) as [[Ht ->] | [Ht ->]];
    rewrite Ht.
  - by rewrite app_nil_r.
  - rewrite fmap_app, reverse_app. simpl.
    change (reverse [rowKey r]) with [rowKey r]. simpl.
    set (K := rowKey <$> List.filter (fun r0 => truthy (rowName r0)) cs) in *.
    destruct (decide_rel elem_of (rowKey r) (reverse K)) as [Hin|Hin].
    + rewrite mapSet_keys_present; [done|]. rewrite IH.
      by rewrite elem_of_reverse, elem_of_remove_dups.
    + rewrite reverse_cons, <- IH. apply mapSet_keys_absent. rewrite IH.
      by rewrite elem_of_reverse, elem_of_remove_dups.
Qed.

(** X11.  The companies of the output of scripts/build-data.mjs stand in the
    order in which their keys first occur in the Companies table, among the
    rows that have a name: a later row with the same key replaces the
    record where it stands, and the link rows move nothing. *)
Theorem companies_in_first_seen_order cs ps ls :
  companyKey <$> BuildData.companies (BuildData.reconcile cs ps ls) =
  reverse (remove_dups (reverse (rowKey <$> List.filter (fun r => truthy (rowName r)) cs))).
Proof.
  rewrite output_keys, attach_fold_keys. simpl. apply companyMap_keys_first_seen.
Qed.

End Order.

Example first_seen_order_sample :
  BuildData.name <$>
    BuildData.companies
      (@BuildData.reconcile asciiLower [acmeRow; betaRow; acmeAgainRow] [] []) =
  [lit "ACME"; lit "Beta"].
Proof. vm_compute. reflexivity. Qed.

(** ** Org types, piece by piece *)

Lemma splitOn_sep sep (a b : str) :
  splitOn sep (a ++ sep :: b) = splitOn sep a ++ splitOn sep b.
Proof.
  induction a as [|c a IH]; simpl.
  - by rewrite N.eqb_refl.
  - destruct (c =? sep); rewrite IH; [done|].
    destruct (splitOn sep a) eqn:E; [by apply splitOn_not_nil in E | done].
Qed.

Lemma splitOn_no_sep sep (v : str) :
  Forall (fun c => c <> sep) v -> splitOn sep v = [v].
Proof.
  intros Hv. pose proof (splitOn_app_l sep v [] Hv) as E.
  rewrite app_nil_r in E. rewrite E. simpl. by rewrite app_nil_r.
Qed.

(** X14.  The org types of a cell are read bar by bar: a first piece
    without a bar gives its trimmed text, or nothing when it is blank, and
    the org types of the rest of the cell follow. *)
Theorem orgTypes_pieces (a b : str) :
  Forall (fun c => c <> PIPE) a ->
  orgTypes (a ++ PIPE :: b) = (if truthy (trim a) then [trim a] else []) ++ orgTypes b.
Proof.
  intros Ha. unfold orgTypes.
  rewrite splitOn_sep, fmap_app, List.filter_app, splitOn_no_sep by done.
  simpl. by destruct (truthy (trim a)).
Qed.

Lemma orgTypes_pieces_witness :
  Forall (fun c => c <> PIPE) (lit " Clinic ") /\
  orgTypes (lit " Clinic " ++ PIPE :: lit " |Payer") =
  (if truthy (trim (lit " Clinic ")) then [trim (lit " Clinic ")] else []) ++
  orgTypes (lit " |Payer").
Proof.
  assert (H : Forall (fun c => c <> PIPE) (lit " Clinic "))
    by (repeat constructor; done).
  split; [exact H|]. exact (orgTypes_pieces _ _ H).
Defined.

(** ** The counters and the link rows *)

Section Counters.

Context `{JsLower}.

Implicit Types (pm : gmap str BuildData.Problem) (st : BuildData.tally)
  (s r : rowobj) (m : jsMap BuildData.Company).

Lemma mapGet_same_keys {V} (m m' : jsMap V) k :
  m.*1 = m'.*1 ->
  match mapGet k m with None => true | Some _ => false end =
  match mapGet k m' with None => true | Some _ => false end.
Proof.
  intros Hk.
  destruct (mapGet k m) eqn:E, (mapGet k m') eqn:E'; try done.
  - apply mapGet_Some_keys in E. apply mapGet_None_keys in E'. congruence.
  - apply mapGet_Some_keys in E'. apply mapGet_None_keys in E. congruence.
Qed.

(** What one link row does to the two counters, read off the company index
    as it was before the loop: its keys never change. *)
Lemma attach_counts pm m0 st s :
  (BuildData.companyMap st).*1 = m0.*1 ->
  BuildData.missingCompany (BuildData.attach pm st s) =
    (BuildData.missingCompany st + if namesNoCompany m0 s then 1 else 0)%nat /\
  BuildData.missingProblem (BuildData.attach pm st s) =
    (BuildData.missingProblem st + if namesNoProblem m0 pm s then 1 else 0)%nat.
Proof.
  intros Hk. unfold namesNoCompany, namesNoProblem, linkComplete.
  pose proof (mapGet_same_keys (BuildData.companyMap st) m0 (linkCompany s) Hk) as Hsame.
  unfold BuildData.attach. fold (linkCompany s). fold (linkProblem s).
  destruct (truthy (linkCompany s)); simpl; [|lia].
  destruct (truthy (linkProblem s)); simpl; [|lia].
  destruct (mapGet (linkCompany s) (BuildData.companyMap st)) as [c|],
           (mapGet (linkCompany s) m0) as [c0|]; try done; simpl; [|lia].
  destruct (pm !! norm (linkProblem s)) as [p|]; simpl; [|lia].
  destruct (BuildData.hasProblem c p); simpl; lia.
Qed.

Lemma attach_fold_counts pm m0 ls st :
  (BuildData.companyMap st).*1 = m0.*1 ->
  BuildData.missingCompany (foldl (BuildData.attach pm) st ls) =
    (BuildData.missingCompany st + length (List.filter (namesNoCompany m0) ls))%nat /\
  BuildData.missingProblem (foldl (BuildData.attach pm) st ls) =
    (BuildData.missingProblem st + length (List.filter (namesNoProblem m0 pm) ls))%nat.
Proof.
  revert st. induction ls as [|s ls IH]; intros st Hk; simpl; [lia|].
  destruct (attach_counts pm m0 st s Hk) as [Hc Hp].
  destruct (IH (BuildData.attach pm st s)) as [Hc' Hp'].
  { rewrite <- Hk. apply (attach_fold_keys pm [s] st). }
  rewrite Hc', Hp', Hc, Hp.
  destruct (namesNoCompany m0 s), (namesNoProblem m0 pm s); simpl; lia.
Qed.

(** X18.  The two counts that scripts/build-data.mjs logs are counts of link
    rows, read off the two indices as they are before the loop: the complete
    link rows whose company reference is no key of the company index, and
    the complete link rows whose company is found and whose problem text is
    no key of the problem index. *)
Theorem counters_count_link_rows cs ps ls :
  BuildData.missingCompanies (BuildData.reconcile cs ps ls) =
    length (List.filter (namesNoCompany (foldl BuildData.addCompany [] cs)) ls) /\
  BuildData.missingProblems (BuildData.reconcile cs ps ls) =
    length (List.filter (namesNoProblem (foldl BuildData.addCompany [] cs)
                                        (foldl BuildData.addProblem ∅ ps)) ls).
Proof.
  unfold BuildData.reconcile. simpl.
  destruct (attach_fold_counts (foldl BuildData.addProblem ∅ ps)
              (foldl BuildData.addCompany [] cs) ls
              (BuildData.Tally (foldl BuildData.addCompany [] cs) 0 0) eq_refl)
    as [-> ->].
  done.
Qed.

(** The counter of unmatched problems is only ever passed along. *)
Lemma attach_bump_problem pm m a b s :
  BuildData.attach pm (BuildData.Tally m a (S b)) s =
  let st := BuildData.attach pm (BuildData.Tally m a b) s in
  BuildData.Tally (BuildData.companyMap st) (BuildData.missingCompany st)
                  (S (BuildData.missingProblem st)).
Proof.
  unfold BuildData.attach. simpl.
  repeat (match goal with
          | |- context [if ?b then _ else _] => destruct b
          | |- context [match ?o with Some _ => _ | None => _ end] => destruct o
          end; simpl; try done).
Qed.

Lemma attach_fold_bump_problem pm ls m a b :
  foldl (BuildData.attach pm) (BuildData.Tally m a (S b)) ls =
  let st := foldl (BuildData.attach pm) (BuildData.Tally m a b) ls in
  BuildData.Tally (BuildData.companyMap st) (BuildData.missingCompany st)
                  (S (BuildData.missingProblem st)).
Proof.
  revert m a b. induction ls as [|s ls IH]; intros m a b; simpl; [done|].
  rewrite attach_bump_problem. simpl.
  destruct (BuildData.attach pm (BuildData.Tally m a b) s) as [m' a' b']. simpl.
  apply IH.
Qed.

(** X19.  A complete link row whose company is found and whose problem text
    is the key of no problem adds one to the count of unmatched problems and
    changes nothing else: the run is the run without the row, with that
    count one higher. *)
Theorem unmatched_problem_counted cs ps pre r post company :
  truthy (linkCompany r) = true ->
  truthy (linkProblem r) = true ->
  mapGet (linkCompany r) (foldl BuildData.addCompany [] cs) = Some company ->
  foldl BuildData.addProblem ∅ ps !! norm (linkProblem r) = None ->
  BuildData.reconcile cs ps (pre ++ r :: post) =
    oneMoreMissingProblem (BuildData.reconcile cs ps (pre ++ post)).
Proof.
  intros Hc Hp Hsome Hnone.
  unfold BuildData.reconcile, oneMoreMissingProblem. simpl.
  rewrite !foldl_app. simpl.
  set (pm := foldl BuildData.addProblem ∅ ps) in *.
  set (st := foldl (BuildData.attach pm)
               (BuildData.Tally (foldl BuildData.addCompany [] cs) 0 0) pre).
  assert (Hst : exists c, mapGet (linkCompany r) (BuildData.companyMap st) = Some c).
  { destruct (mapGet (linkCompany r) (BuildData.companyMap st)) as [c|] eqn:E; [eauto|].
    apply mapGet_None_keys in E. subst st. rewrite attach_fold_keys in E.
    apply mapGet_Some_keys in Hsome. done. }
  destruct Hst as [c Hst].
  assert (Hr : BuildData.attach pm st r =
               BuildData.Tally (BuildData.companyMap st)
                 (BuildData.missingCompany st) (S (BuildData.missingProblem st))).
  { unfold BuildData.attach. fold (linkCompany r). fold (linkProblem r).
    by rewrite Hc, Hp, Hst, Hnone. }
  rewrite Hr. destruct st as [m a b]. simpl. by rewrite attach_fold_bump_problem.
Qed.

End Counters.

Lemma unmatched_problem_counted_witness :
  (truthy (@linkCompany asciiLower acmeUnknownLink) = true /\
   truthy (linkProblem acmeUnknownLink) = true) /\
  @BuildData.reconcile asciiLower [acmeRow] [slowRow] ([acmeSlowLink] ++ acmeUnknownLink :: []) =
  oneMoreMissingProblem
    (@BuildData.reconcile asciiLower [acmeRow] [slowRow] ([acmeSlowLink] ++ [])).
Proof.
  split; [by vm_compute|].
  exact (@unmatched_problem_counted asciiLower [acmeRow] [slowRow] [acmeSlowLink]
           acmeUnknownLink [] _ eq_refl eq_refl eq_refl eq_refl).
Defined.

Section Accounting.

Context `{JsLower}.

Implicit Types (pm : gmap str BuildData.Problem) (st : BuildData.tally)
  (s r : rowobj) (m : jsMap BuildData.Company).

Lemma attachedCount_cons k (c : BuildData.Company) m :
  attachedCount (mapValues ((k, c) :: m)) =
  (length (BuildData.solutions c) + attachedCount (mapValues m))%nat.
Proof. reflexivity. Qed.

Lemma attachedCount_mapSet m k company p :
  mapGet k m = Some company ->
  attachedCount (mapValues (mapSet k (BuildData.pushSolution company p) m)) =
  S (attachedCount (mapValues m)).
Proof.
  induction m as [|[k' c'] m IH]; [done|]. cbn [mapGet mapSet].
  case_bool_decide as E.
  - intros [= ->]. rewrite !attachedCount_cons. simpl. rewrite length_app. simpl. lia.
  - intros Hg. rewrite !attachedCount_cons, (IH Hg). lia.
Qed.

Lemma attachedCount_derive (cs : list BuildData.Company) :
  attachedCount (BuildData.deriveProblems <$> cs) = attachedCount cs.
Proof. unfold attachedCount. by rewrite <- list_fmap_compose. Qed.

Lemma attachedCount_initial cs :
  attachedCount (mapValues (foldl BuildData.addCompany [] cs)) = 0%nat.
Proof.
  pose proof (addCompany_fold_no_solutions cs) as Hall.
  induction Hall as [|[k c] m Hc Hm IH]; [done|].
  rewrite attachedCount_cons, IH. simpl in Hc. by rewrite Hc.
Qed.


Lemma attach_measure pm st s :
  (accounted (BuildData.attach pm st s) <= accounted st + if linkComplete s then 1 else 0)%nat.
Proof.
  unfold accounted, linkComplete.
  destruct (attach_cases pm st s) as [-> | [(Hc & Hp & _ & ->) | [(Hn & E) | Hpush]]].
  - lia.
  - rewrite Hc, Hp. simpl. lia.
  - revert E. unfold BuildData.attach. fold (linkCompany s). fold (linkProblem s).
    destruct (truthy (linkCompany s)); simpl; [|intros ->; simpl; lia].
    destruct (truthy (linkProblem s)); simpl; [|intros ->; simpl; lia].
    intros _.
    destruct (mapGet (linkCompany s) (BuildData.companyMap st)); simpl; [|lia].
    rewrite Hn. simpl. lia.
  - destruct Hpush as (company & p & Hg & Hl & Hh & E).
    assert (Hcomplete : truthy (linkCompany s) && truthy (linkProblem s) = true).
    { revert E. unfold BuildData.attach. fold (linkCompany s). fold (linkProblem s).
      destruct (truthy (linkCompany s) && truthy (linkProblem s)) eqn:Eb; [done|].
      apply andb_false_iff in Eb as [-> | ->]; simpl; rewrite ?orb_true_r; simpl.
      - intros Est. apply (f_equal BuildData.companyMap) in Est. simpl in Est.
        apply (f_equal (fun m => attachedCount (mapValues m))) in Est.
        rewrite attachedCount_mapSet in Est by done. lia.
      - intros Est. apply (f_equal BuildData.companyMap) in Est. simpl in Est.
        apply (f_equal (fun m => attachedCount (mapValues m))) in Est.
        rewrite attachedCount_mapSet in Est by done. lia. }
    rewrite Hcomplete, E. simpl. rewrite attachedCount_mapSet by done. lia.
Qed.

Lemma attach_fold_measure pm ls st :
  (accounted (foldl (BuildData.attach pm) st ls) <=
   accounted st + length (List.filter linkComplete ls))%nat.
Proof.
  revert st. induction ls as [|s ls IH]; intros st; simpl; [lia|].
  specialize (IH (BuildData.attach pm st s)).
  pose proof (attach_measure pm st s). destruct (linkComplete s); simpl; lia.
Qed.

(** X20.  No link row is counted twice: the two counters and the number of
    attached solutions add up to at most the number of complete link
    rows. *)
Theorem link_rows_accounted cs ps ls :
  (BuildData.missingCompanies (BuildData.reconcile cs ps ls) +
   BuildData.missingProblems (BuildData.reconcile cs ps ls) +
   attachedCount (BuildData.companies (BuildData.reconcile cs ps ls))
   <= length (List.filter linkComplete ls))%nat.
Proof.
  unfold BuildData.reconcile. simpl. rewrite attachedCount_derive.
  pose proof (attach_fold_measure (foldl BuildData.addProblem ∅ ps) ls
                (BuildData.Tally (foldl BuildData.addCompany [] cs) 0 0)) as Hm.
  unfold accounted in Hm. simpl in Hm. rewrite attachedCount_initial in Hm. lia.
Qed.

End Accounting.

Section Saturation.

Context `{JsLower}.

Implicit Types (pm : gmap str BuildData.Problem) (st : BuildData.tally)
  (s r : rowobj) (m : jsMap BuildData.Company).

(** Every problem record of the index is built from a row of the Problems
    table that has a problem text. *)
Lemma problemMap_rows ps k p :
  foldl BuildData.addProblem ∅ ps !! k = Some p ->
  exists r, r ∈ ps /\ truthy (BuildData.pickOf r [lit "Problem"]) = true /\
            p = BuildData.mkProblem r (BuildData.pickOf r [lit "Problem"]).
Proof.
  assert (Hgen : forall done todo pm0,
             map_Forall (fun _ p => exists r, r ∈ done /\
                           truthy (BuildData.pickOf r [lit "Problem"]) = true /\
                           p = BuildData.mkProblem r (BuildData.pickOf r [lit "Problem"])) pm0 ->
             map_Forall (fun _ p => exists r, r ∈ done ++ todo /\
                           truthy (BuildData.pickOf r [lit "Problem"]) = true /\
                           p = BuildData.mkProblem r (BuildData.pickOf r [lit "Problem"]))
                        (foldl BuildData.addProblem pm0 todo)).
  { intros done todo. revert done.
    induction todo as [|r todo IH]; intros done pm0 Hpm0; simpl.
    - by rewrite app_nil_r.
    - replace (done ++ r :: todo) with ((done ++ [r]) ++ todo)
        by (by rewrite <- app_assoc).
      apply IH. unfold BuildData.addProblem.
      destruct (truthy (BuildData.pickOf r [lit "Problem"])) eqn:E; simpl.
      + apply map_Forall_insert_2.
        * exists r. split_and!; [|done..]. apply elem_of_app. right. left.
        * eapply map_Forall_impl; [exact Hpm0|]. intros _ p0 (r0 & Hr0 & Hrest).
          exists r0. split; [|done]. apply elem_of_app. by left.
      + eapply map_Forall_impl; [exact Hpm0|]. intros _ p0 (r0 & Hr0 & Hrest).
        exists r0. split; [|done]. apply elem_of_app. by left. }
  intros Hk. exact (Hgen [] ps ∅ (map_Forall_empty _) k p Hk).
Qed.

(** X17.  Every solution attached to a company of the output of
    scripts/build-data.mjs is the record of the problem index under its own
    normalized key, built from a row of the Problems table that has a
    problem text: the link rows only choose among these records. *)
Theorem solutions_from_problem_index cs ps ls :
  Forall (fun c =>
            Forall (fun p =>
                      foldl BuildData.addProblem ∅ ps !! problemKey p = Some p /\
                      exists r, r ∈ ps /\
                                truthy (BuildData.pickOf r [lit "Problem"]) = true /\
                                p = BuildData.mkProblem r (BuildData.pickOf r [lit "Problem"]))
                   (BuildData.solutions c))
         (BuildData.companies (BuildData.reconcile cs ps ls)).
Proof.
  unfold BuildData.reconcile. simpl. apply Forall_fmap. unfold mapValues.
  apply Forall_fmap.
  set (pm := foldl BuildData.addProblem ∅ ps).
  assert (Hinv : Forall (fun e => Forall (fun p => exists key, pm !! key = Some p)
                                         (BuildData.solutions e.2))
                   (BuildData.companyMap
                      (foldl (BuildData.attach pm)
                         (BuildData.Tally (foldl BuildData.addCompany [] cs) 0 0) ls))).
  { apply (attach_fold_invariant pm
             (Forall (fun e => Forall (fun p => exists key, pm !! key = Some p)
                                      (BuildData.solutions e.2)))).
    - intros m k company p key Hall Hg Hl _.
      apply mapSet_Forall; [done|]. simpl.
      apply mapGet_Some_elem in Hg. eapply Forall_forall in Hall; [|exact Hg].
      apply Forall_app. split; [exact Hall|]. constructor; [eauto | constructor].
    - simpl. eapply Forall_impl; [apply addCompany_fold_no_solutions|].
      intros [k c] Hc. simpl in *. rewrite Hc. constructor. }
  eapply Forall_impl; [exact Hinv|]. intros [k c] Hc. simpl in *.
  eapply Forall_impl; [exact Hc|]. intros p [key Hkey]. split.
  - by rewrite <- (problemMap_keys ps key p Hkey).
  - by eapply problemMap_rows.
Qed.

(** After the loop every complete link row of the table finds its problem
    already attached to its company. *)
Lemma attach_fold_saturated pm ls st s company p :
  s ∈ ls ->
  truthy (linkCompany s) = true -> truthy (linkProblem s) = true ->
  mapGet (linkCompany s) (BuildData.companyMap (foldl (BuildData.attach pm) st ls))
    = Some company ->
  pm !! norm (linkProblem s) = Some p ->
  BuildData.hasProblem company p = true.
Proof.
  intros Hs Hc Hp Hg Hl.
  apply list_elem_of_split in Hs as (pre & post & ->).
  rewrite foldl_app in Hg. simpl in Hg.
  set (st1 := foldl (BuildData.attach pm) st pre) in *.
  assert (Hg1 : exists c1, mapGet (linkCompany s) (BuildData.companyMap st1) = Some c1).
  { destruct (mapGet (linkCompany s) (BuildData.companyMap st1)) as [c1|] eqn:E; [eauto|].
    apply mapGet_None_keys in E.
    rewrite <- (attach_fold_keys pm (s :: post) st1) in E. simpl in E.
    apply mapGet_Some_keys in Hg. done. }
  destruct Hg1 as [c1 Hg1].
  pose proof (attach_attaches pm st1 s c1 p Hc Hp Hg1 Hl) as Ha.
  apply (attach_fold_attached pm post) in Ha.
  destruct Ha as (c & Hgc & Hk). rewrite Hg in Hgc. injection Hgc as ->.
  by apply hasProblem_spec.
Qed.

(** A pass over link rows that all find their problem attached changes no
    company. *)
Lemma attach_fold_fixed pm m ls :
  (forall s company p,
      s ∈ ls -> truthy (linkCompany s) = true -> truthy (linkProblem s) = true ->
      mapGet (linkCompany s) m = Some company -> pm !! norm (linkProblem s) = Some p ->
      BuildData.hasProblem company p = true) ->
  forall a b, BuildData.companyMap (foldl (BuildData.attach pm) (BuildData.Tally m a b) ls) = m.
Proof.
  induction ls as [|s ls IH]; intros Hsat a b; simpl; [done|].
  assert (Hstep : exists a' b', BuildData.attach pm (BuildData.Tally m a b) s =
                                BuildData.Tally m a' b').
  { unfold BuildData.attach. fold (linkCompany s). fold (linkProblem s). simpl.
    destruct (truthy (linkCompany s)) eqn:Ec; simpl; [|eauto].
    destruct (truthy (linkProblem s)) eqn:Ep; simpl; [|eauto].
    destruct (mapGet (linkCompany s) m) as [company|] eqn:Eg; [|eauto].
    destruct (pm !! norm (linkProblem s)) as [p|] eqn:El; [|eauto].
    rewrite (Hsat s company p); [eauto | left | done..]. }
  destruct Hstep as (a' & b' & ->). apply IH.
  intros s' company p Hs'. apply Hsat. by right.
Qed.

(** X22.  Going through the link rows twice changes no company: the output
    of the link table followed by itself has the companies of the output of
    the link table, and twice each count. *)
Theorem relinking_changes_no_company cs ps ls :
  BuildData.reconcile cs ps (ls ++ ls) =
  BuildData.Output
    (BuildData.companies (BuildData.reconcile cs ps ls))
    (2 * BuildData.missingCompanies (BuildData.reconcile cs ps ls))
    (2 * BuildData.missingProblems (BuildData.reconcile cs ps ls)).
Proof.
  unfold BuildData.reconcile. simpl.
  set (pm := foldl BuildData.addProblem ∅ ps).
  set (m0 := foldl BuildData.addCompany [] cs).
  destruct (attach_fold_counts pm m0 (ls ++ ls) (BuildData.Tally m0 0 0) eq_refl)
    as [Hc2 Hp2].
  destruct (attach_fold_counts pm m0 ls (BuildData.Tally m0 0 0) eq_refl) as [Hc1 Hp1].
  rewrite Hc2, Hp2, Hc1, Hp1. rewrite !List.filter_app, !length_app. simpl.
  rewrite foldl_app.
  set (st := foldl (BuildData.attach pm) (BuildData.Tally m0 0 0) ls).
  assert (Hfix : BuildData.companyMap (foldl (BuildData.attach pm) st ls) =
                 BuildData.companyMap st).
  { destruct st as [m a b] eqn:Est. simpl. apply attach_fold_fixed.
    intros s company p Hs Hc Hp Hg Hl.
    eapply (attach_fold_saturated pm ls (BuildData.Tally m0 0 0)); try done.
    fold st. rewrite Est. exact Hg. }
  rewrite Hfix. f_equal; lia.
Qed.

End Saturation.

Section Distinct.

Context `{JsLower}.

Implicit Types (pm : gmap str BuildData.Problem) (st : BuildData.tally)
  (s r : rowobj) (m : jsMap BuildData.Company).

(** With no two complete link rows naming the same pair, every complete
    link row is accounted for, and every attached solution was named by a
    link row. *)
Lemma attach_fold_distinct cs ps ls :
  NoDup (linkPair <$> List.filter linkComplete ls) ->
  let st := foldl (BuildData.attach (foldl BuildData.addProblem ∅ ps))
              (BuildData.Tally (foldl BuildData.addCompany [] cs) 0 0) ls in
  accounted st = length (List.filter linkComplete ls) /\
  forall k c x,
    mapGet k (BuildData.companyMap st) = Some c -> x ∈ BuildData.solutions c ->
    exists s, s ∈ ls /\ linkComplete s = true /\ linkPair s = (k, problemKey x).
Proof.
  set (pm := foldl BuildData.addProblem ∅ ps).
  induction ls as [|s ls IH] using rev_ind; intros Hnd; simpl.
  - split.
    + unfold accounted. simpl. by rewrite attachedCount_initial.
    + intros k c x Hg Hx. apply mapGet_Some_elem in Hg.
      pose proof (addCompany_fold_no_solutions cs) as Hall.
      eapply Forall_forall in Hall; [|exact Hg]. simpl in Hall.
      rewrite Hall in Hx. by apply elem_of_nil in Hx.
  - rewrite List.filter_app, fmap_app in Hnd.
    apply NoDup_app in Hnd as (Hnd & Hdisj & _).
    destruct (IH Hnd) as [Hacc HJ]. clear IH.
    rewrite foldl_app. simpl.
    set (st := foldl (BuildData.attach pm)
                 (BuildData.Tally (foldl BuildData.addCompany [] cs) 0 0) ls) in *.
    rewrite List.filter_app, length_app. simpl.
    assert (Hold : forall k c x,
               mapGet k (BuildData.companyMap st) = Some c -> x ∈ BuildData.solutions c ->
               exists s0, s0 ∈ ls ++ [s] /\ linkComplete s0 = true /\
                          linkPair s0 = (k, problemKey x)).
    { intros k c x Hg Hx. destruct (HJ k c x Hg Hx) as (s0 & Hs0 & Hrest).
      exists s0. split; [|done]. apply elem_of_app. by left. }
    unfold BuildData.attach. fold (linkCompany s). fold (linkProblem s).
    destruct (linkComplete s) eqn:Ecomplete.
    2:{ unfold linkComplete in Ecomplete.
        rewrite <- negb_andb, Ecomplete. simpl. split; [lia | exact Hold]. }
    pose proof Ecomplete as Eboth. unfold linkComplete in Eboth.
    rewrite <- negb_andb, Eboth. simpl.
    destruct (mapGet (linkCompany s) (BuildData.companyMap st)) as [company|] eqn:Eg.
    2:{ split; [unfold accounted in *; simpl; lia | exact Hold]. }
    destruct (pm !! norm (linkProblem s)) as [p|] eqn:El.
    2:{ split; [unfold accounted in *; simpl; lia | exact Hold]. }
    pose proof (problemMap_keys ps _ p El) as Hkey.
    destruct (BuildData.hasProblem company p) eqn:Eh.
    + exfalso. apply hasProblem_spec, list_elem_of_fmap in Eh as (x & Hx & Hxin).
      destruct (HJ _ _ x Eg Hxin) as (s0 & Hs0 & Hc0 & Hp0).
      apply (Hdisj (linkPair s)).
      * apply list_elem_of_fmap. exists s0. split.
        -- rewrite Hp0. unfold linkPair. by rewrite <- Hx, Hkey.
        -- apply list_elem_of_In, filter_In. split; [by apply list_elem_of_In | done].
      * cbn [List.filter]. rewrite Ecomplete. simpl. left.
    + split.
      * unfold accounted in *. simpl. rewrite attachedCount_mapSet by done. lia.
      * intros k c x Hg Hx. simpl in Hg.
        destruct (decide (linkCompany s = k)) as [<-|Hne].
        -- rewrite mapGet_mapSet_eq in Hg. injection Hg as <-. simpl in Hx.
           apply elem_of_app in Hx as [Hx|Hx]; [by eapply Hold|].
           apply list_elem_of_singleton in Hx as ->.
           exists s. split_and!; [apply elem_of_app; right; left | done |].
           unfold linkPair. by rewrite Hkey.
        -- rewrite mapGet_mapSet_ne in Hg by done. by eapply Hold.
Qed.

(** X21.  When no two complete link rows name the same company key and
    problem key, every complete link row is accounted for exactly once: as
    an unmatched company, as an unmatched problem, or as an attached
    solution. *)
Theorem distinct_link_rows_accounted cs ps ls :
  NoDup (linkPair <$> List.filter linkComplete ls) ->
  (BuildData.missingCompanies (BuildData.reconcile cs ps ls) +
   BuildData.missingProblems (BuildData.reconcile cs ps ls) +
   attachedCount (BuildData.companies (BuildData.reconcile cs ps ls))
   = length (List.filter linkComplete ls))%nat.
Proof.
  intros Hnd. destruct (attach_fold_distinct cs ps ls Hnd) as [Hacc _].
  unfold BuildData.reconcile. simpl. rewrite attachedCount_derive. exact Hacc.
Qed.

End Distinct.

Lemma distinct_link_rows_accounted_witness :
  NoDup (@linkPair asciiLower <$>
           List.filter (@linkComplete asciiLower)
             [acmeSlowLink; ghostLink; ghostBlankLink; acmeUnknownLink]) /\
  (BuildData.missingCompanies
     (@BuildData.reconcile asciiLower [acmeRow] [slowRow]
        [acmeSlowLink; ghostLink; ghostBlankLink; acmeUnknownLink]) +
   BuildData.missingProblems
     (@BuildData.reconcile asciiLower [acmeRow] [slowRow]
        [acmeSlowLink; ghostLink; ghostBlankLink; acmeUnknownLink]) +
   attachedCount
     (BuildData.companies
        (@BuildData.reconcile asciiLower [acmeRow] [slowRow]
           [acmeSlowLink; ghostLink; ghostBlankLink; acmeUnknownLink]))
   = length (List.filter (@linkComplete asciiLower)
               [acmeSlowLink; ghostLink; ghostBlankLink; acmeUnknownLink]))%nat.
Proof.
  assert (Hnd : NoDup (@linkPair asciiLower <$>
           List.filter (@linkComplete asciiLower)
             [acmeSlowLink; ghostLink; ghostBlankLink; acmeUnknownLink])).
  { refine (bool_decide_unpack _ _). vm_compute. exact I. }
  split; [exact Hnd|].
  exact (@distinct_link_rows_accounted asciiLower [acmeRow] [slowRow] _ Hnd).
Defined.

Lemma linked_problem_once_witness :
  (acmeSlowLink ∈ [acmeSlowLink; acmeSlowLink] /\
   truthy (@linkCompany asciiLower acmeSlowLink) = true /\
   truthy (linkProblem acmeSlowLink) = true) /\
  exists c, c ∈ BuildData.companies
                  (@BuildData.reconcile asciiLower [acmeRow] [slowRow]
                     [acmeSlowLink; acmeSlowLink]) /\
            @companyKey asciiLower c = @linkCompany asciiLower acmeSlowLink /\
            length (List.filter
                      (fun x => bool_decide (@problemKey asciiLower x =
                                             @norm asciiLower (linkProblem acmeSlowLink)))
                      (BuildData.solutions c)) = 1%nat.
Proof.
  split; [by split_and!; [left | vm_compute | vm_compute]|].
  apply (@linked_problem_once asciiLower [acmeRow] [slowRow] [acmeSlowLink; acmeSlowLink]
           acmeSlowLink
           (@BuildData.mkCompany asciiLower acmeRow (rowName acmeRow)
              (@rowKey asciiLower acmeRow))
           (BuildData.mkProblem slowRow (lit "Slow onboarding")));
    [left | vm_compute; reflexivity ..].
Defined.

(** ** [keyify] on any host *)

(** X23.  A key made by [keyify] of part_001 holds only lower-case ASCII
    letters, digits and spaces, with no two spaces in a row and none at
    either end, whatever the host's [toLowerCase] does. *)
Theorem keyify_canonical `{JsLower} (x : str) :
  plainText (Part001.keyify x) /\
  tidy false (Part001.keyify x) = true /\
  trim (Part001.keyify x) = Part001.keyify x.
Proof.
  split_and!.
  - eapply tidy_plain, keyify_tidy.
  - apply keyify_tidy.
  - unfold Part001.keyify. apply trim_idem.
Qed.

Example keyify_canonical_sample :
  @Part001.keyify (fun s => s) (lit " A_b--C  d! ") = lit "b d".
Proof. vm_compute. reflexivity. Qed.

(** ** Repeated link rows in the earliest variant *)

Section Earliest.

Context `{JsLower}.

Lemma mapSet_mapSet {V} (k : str) (v1 v2 : V) (m : jsMap V) :
  mapSet k v2 (mapSet k v1 m) = mapSet k v2 m.
Proof.
  induction m as [|[k' v'] m IH]; simpl.
  - by rewrite bool_decide_eq_true_2.
  - case_bool_decide as E; simpl.
    + by rewrite bool_decide_eq_true_2.
    + rewrite bool_decide_eq_false_2 by done. by rewrite IH.
Qed.

Lemma mapSet_same {V} (k : str) (v : V) (m : jsMap V) :
  mapGet k m = Some v -> mapSet k v m = m.
Proof.
  induction m as [|[k' v'] m IH]; simpl; [done|].
  case_bool_decide as E.
  - intros [= ->]. by subst.
  - intros Hg. by rewrite IH.
Qed.

(** X24.  The link loop of the earliest variant (part_000) never looks at
    what is attached: a link row whose company is found by its id and whose
    problem is in the problem index, met [n] times in a row, pushes the
    problem [n] times onto the solutions of that company and changes
    nothing else. *)
Theorem earliest_variant_attaches_every_time
    (pm : Part000.dict Part000.Problem) (cm : Part000.dict Part000.Company)
    (s : rowobj) (company : Part000.Company) (p : Part000.Problem) (n : nat) :
  mapGet (Part000.normCell (s !! lit "Company ID")) cm = Some company ->
  Part000.dictGet (default (lit "undefined") (s !! lit "Problem")) pm = Some (Some p) ->
  Part000.forEach (Part000.attach pm) cm (replicate n s) =
  Some (mapSet (Part000.normCell (s !! lit "Company ID"))
               (pushAll company (replicate n p)) cm).
Proof.
  intros Hg Hp. revert cm company Hg.
  induction n as [|n IH]; intros cm company Hg; simpl.
  - unfold pushAll. simpl. by rewrite mapSet_same.
  - assert (Hstep : Part000.attach pm cm s =
                    Some (mapSet (Part000.normCell (s !! lit "Company ID"))
                                 (Part000.pushSolution company p) cm)).
    { assert (Hd : Part000.dictGet (Part000.normCell (s !! lit "Company ID")) cm =
                   Some (Some company))
        by (unfold Part000.dictGet; by rewrite Hg).
      unfold Part000.attach, Part000.findCompany.
      rewrite Hd. simpl. rewrite Hp. simpl. by rewrite Hg. }
    rewrite Hstep. simpl.
    rewrite (IH _ (Part000.pushSolution company p)) by apply mapGet_mapSet_eq.
    by rewrite mapSet_mapSet.
Qed.

End Earliest.

Example earliest_variant_indices :
  Part000.forEach Part000.addProblem [] [slowRow] = Some [(lit "Slow onboarding", slowProblem000)] /\
  Part000.forEach Part000.addCompany [] [acmeIdRow] = Some [(lit "c1", acmeCompany000)].
Proof. split; vm_compute; reflexivity. Qed.

Lemma earliest_variant_attaches_every_time_witness :
  (mapGet (@Part000.normCell asciiLower (acmeIdSlowLink !! lit "Company ID"))
          [(lit "c1", acmeCompany000)] = Some acmeCompany000 /\
   Part000.dictGet (default (lit "undefined") (acmeIdSlowLink !! lit "Problem"))
                   [(lit "Slow onboarding", slowProblem000)] = Some (Some slowProblem000)) /\
  Part000.forEach (@Part000.attach asciiLower [(lit "Slow onboarding", slowProblem000)])
                  [(lit "c1", acmeCompany000)] (replicate 3 acmeIdSlowLink) =
  Some (mapSet (@Part000.normCell asciiLower (acmeIdSlowLink !! lit "Company ID"))
               (pushAll acmeCompany000 (replicate 3 slowProblem000))
               [(lit "c1", acmeCompany000)]).
Proof.
  split; [split; vm_compute; reflexivity|].
  apply (@earliest_variant_attaches_every_time asciiLower); vm_compute; reflexivity.
Defined.

(** ** Blank rows and the output *)

Section BlankObjects.

Context `{JsLower}.

Implicit Types (o b : rowobj).

Lemma pickOf_blank b keys : blankRow b -> BuildData.pickOf b keys = [].
Proof.
  intros Hb. induction keys as [|k ks IH]; simpl; [done|].
  destruct (b !! k) as [v|] eqn:E; [|exact IH].
  by rewrite (Hb k v E).
Qed.

Lemma addCompany_blank m b : blankRow b -> BuildData.addCompany m b = m.
Proof. intros Hb. unfold BuildData.addCompany. by rewrite pickOf_blank. Qed.

Lemma addProblem_blank pm b : blankRow b -> BuildData.addProblem pm b = pm.
Proof. intros Hb. unfold BuildData.addProblem. by rewrite pickOf_blank. Qed.

Lemma attach_blank pm st b : blankRow b -> BuildData.attach pm st b = st.
Proof.
  intros Hb. unfold BuildData.attach.
  rewrite (pickOf_blank b [lit "Problem"; lit "Common Problem"]) by done.
  simpl. by rewrite orb_true_r.
Qed.

(** A loop that leaves its state alone on the rows [extra] can do without
    them. *)
Lemma foldl_without {S A} (f : S -> A -> S) (a : A) (s : S) (pre post : list A) :
  (forall s, f s a = s) -> foldl f s (pre ++ a :: post) = foldl f s (pre ++ post).
Proof. intros Ha. rewrite !foldl_app. simpl. by rewrite Ha. Qed.

Lemma foldl_without_last {S A} (f : S -> A -> S) (s : S) (l extra : list A) :
  Forall (fun a => forall s, f s a = s) extra -> foldl f s (l ++ extra) = foldl f s l.
Proof.
  intros Hextra. rewrite foldl_app. generalize (foldl f s l).
  induction Hextra as [|a extra Ha _ IH]; intros s0; simpl; [done|]. by rewrite Ha.
Qed.

(** X25.  A row object without a cell that is not blank changes nothing,
    in whichever of the three tables it stands: scripts/build-data.mjs
    builds no company and no problem from it and skips it as a link row, so
    the output with the row in the Companies table, in the Problems table
    or in the Company Solutions table is the output without it. *)
Theorem blank_rows_change_nothing b cs ps ls pre post :
  blankRow b ->
  BuildData.reconcile (pre ++ b :: post) ps ls = BuildData.reconcile (pre ++ post) ps ls /\
  BuildData.reconcile cs (pre ++ b :: post) ls = BuildData.reconcile cs (pre ++ post) ls /\
  BuildData.reconcile cs ps (pre ++ b :: post) = BuildData.reconcile cs ps (pre ++ post).
Proof.
  intros Hb. unfold BuildData.reconcile. split_and!.
  - by rewrite (foldl_without BuildData.addCompany b) by (intros m; by apply addCompany_blank).
  - by rewrite (foldl_without BuildData.addProblem b) by (intros m; by apply addProblem_blank).
  - by rewrite (foldl_without (BuildData.attach _) b) by (intros m; by apply attach_blank).
Qed.

Lemma reconcile_without_last cs ps ls ec ep el :
  Forall blankRow ec -> Forall blankRow ep -> Forall blankRow el ->
  BuildData.reconcile (cs ++ ec) (ps ++ ep) (ls ++ el) = BuildData.reconcile cs ps ls.
Proof.
  intros Hc Hp Hl. unfold BuildData.reconcile.
  rewrite (foldl_without_last BuildData.addCompany)
    by (eapply Forall_impl; [exact Hc|]; intros b Hb m; by apply addCompany_blank).
  rewrite (foldl_without_last BuildData.addProblem)
    by (eapply Forall_impl; [exact Hp|]; intros b Hb m; by apply addProblem_blank).
  by rewrite (foldl_without_last (BuildData.attach _))
    by (eapply Forall_impl; [exact Hl|]; intros b Hb m; by apply attach_blank).
Qed.

(** X26.  The blank last row that the parser of scripts/build-data.mjs
    keeps, and that the parser of part_001 filters out, never reaches the
    output: on sheets whose header names are not blank, reconciliation
    gives the same result on the tables of either parser. *)
Theorem parsers_give_same_output tc tp tl :
  Forall (fun h => trim h <> []) (default [] (head (Csv.rawRows tc))) ->
  Forall (fun h => trim h <> []) (default [] (head (Csv.rawRows tp))) ->
  Forall (fun h => trim h <> []) (default [] (head (Csv.rawRows tl))) ->
  BuildData.reconcile (BuildData.parseCSV tc) (BuildData.parseCSV tp) (BuildData.parseCSV tl) =
  BuildData.reconcile (Part001.parseCSV tc) (Part001.parseCSV tp) (Part001.parseCSV tl).
Proof.
  intros (ec & -> & _ & Hc)%parseCSV_extra_row (ep & -> & _ & Hp)%parseCSV_extra_row
         (el & -> & _ & Hl)%parseCSV_extra_row.
  by apply reconcile_without_last.
Qed.

End BlankObjects.

Lemma blankObject_blank : blankRow blankObject.
Proof.
  unfold blankRow, blankObject.
  apply map_Forall_insert_2; [done|]. by apply map_Forall_singleton.
Qed.

Lemma blank_rows_change_nothing_witness :
  blankRow blankObject /\
  @BuildData.reconcile asciiLower ([acmeRow] ++ blankObject :: [betaRow]) [slowRow]
    [acmeSlowLink] =
  @BuildData.reconcile asciiLower ([acmeRow] ++ [betaRow]) [slowRow] [acmeSlowLink] /\
  @BuildData.reconcile asciiLower [acmeRow] ([acmeRow] ++ blankObject :: [betaRow])
    [acmeSlowLink] =
  @BuildData.reconcile asciiLower [acmeRow] ([acmeRow] ++ [betaRow]) [acmeSlowLink] /\
  @BuildData.reconcile asciiLower [acmeRow] [slowRow] ([acmeRow] ++ blankObject :: [betaRow]) =
  @BuildData.reconcile asciiLower [acmeRow] [slowRow] ([acmeRow] ++ [betaRow]).
Proof.
  split; [exact blankObject_blank|].
  exact (@blank_rows_change_nothing asciiLower blankObject [acmeRow] [slowRow] [acmeSlowLink]
           [acmeRow] [betaRow] blankObject_blank).
Defined.

Lemma parsers_give_same_output_witness :
  (Forall (fun h => trim h <> [])
     (default [] (head (Csv.rawRows (textOf ["Company Name"; "Acme"] ++ lit "  ")))) /\
   Forall (fun h => trim h <> [])
     (default [] (head (Csv.rawRows (textOf ["Problem,Solution"; "Slow onboarding,Add checklist"])))) /\
   Forall (fun h => trim h <> [])
     (default [] (head (Csv.rawRows (textOf ["Company Name,Problem"; "acme,slow onboarding"] ++ lit " , "))))) /\
  @BuildData.reconcile asciiLower
    (BuildData.parseCSV (textOf ["Company Name"; "Acme"] ++ lit "  "))
    (BuildData.parseCSV (textOf ["Problem,Solution"; "Slow onboarding,Add checklist"]))
    (BuildData.parseCSV (textOf ["Company Name,Problem"; "acme,slow onboarding"] ++ lit " , ")) =
  @BuildData.reconcile asciiLower
    (Part001.parseCSV (textOf ["Company Name"; "Acme"] ++ lit "  "))
    (Part001.parseCSV (textOf ["Problem,Solution"; "Slow onboarding,Add checklist"]))
    (Part001.parseCSV (textOf ["Company Name,Problem"; "acme,slow onboarding"] ++ lit " , ")).
Proof.
  assert (Hc : Forall (fun h => trim h <> [])
     (default [] (head (Csv.rawRows (textOf ["Company Name"; "Acme"] ++ lit "  ")))))
    by (repeat constructor; done).
  assert (Hp : Forall (fun h => trim h <> [])
     (default [] (head (Csv.rawRows (textOf ["Problem,Solution"; "Slow onboarding,Add checklist"])))))
    by (repeat constructor; done).
  assert (Hl : Forall (fun h => trim h <> [])
     (default [] (head (Csv.rawRows (textOf ["Company Name,Problem"; "acme,slow onboarding"] ++ lit " , ")))))
    by (repeat constructor; done).
  split; [by split_and!|].
  exact (@parsers_give_same_output asciiLower _ _ _ Hc Hp Hl).
Defined.

Example blank_last_rows_parsed :
  length (BuildData.parseCSV (textOf ["Company Name,Problem"; "acme,slow onboarding"] ++ lit " , ")) = 2%nat /\
  length (Part001.parseCSV (textOf ["Company Name,Problem"; "acme,slow onboarding"] ++ lit " , ")) = 1%nat.
Proof. split; vm_compute; reflexivity. Qed.

(** ** Plain objects *)

Section PlainObjects.

Context {V : Type}.

Implicit Types (d : Part000.dict V) (e : str * V).

Lemma insertByIndex_perm i e (l : list (N * (str * V))) :
  Part000.insertByIndex i e l ≡ₚ (i, e) :: l.
Proof.
  induction l as [|[j e'] l IH]; simpl; [done|].
  destruct (i <? j); [done|]. rewrite IH. apply Permutation_swap.
Qed.

Lemma filter_split_perm (p : str * V -> bool) d :
  List.filter p d ++ List.filter (fun e => negb (p e)) d ≡ₚ d.
Proof.
  induction d as [|e d IH]; simpl; [done|].
  destruct (p e); simpl.
  - by rewrite IH.
  - rewrite <- Permutation_middle. by rewrite IH.
Qed.

(** [Object.values] lists every own property once. *)
Lemma ownEntries_perm d : Part000.ownEntries d ≡ₚ d.
Proof.
  unfold Part000.ownEntries.
  rewrite <- (filter_split_perm (fun e => bool_decide (is_Some (Part000.arrayIndex e.1))) d)
    at 3.
  apply Permutation_app; [|done].
  induction d as [|e d IH]; simpl; [done|].
  destruct (Part000.arrayIndex e.1) as [i|] eqn:E; simpl.
  - rewrite insertByIndex_perm. simpl. by rewrite IH.
  - exact IH.
Qed.

Lemma forEach_invariant {S A} (f : S -> A -> option S) (Inv : S -> Prop) (l : list A) :
  (forall s a s', Inv s -> a ∈ l -> f s a = Some s' -> Inv s') ->
  forall s s', Inv s -> Part000.forEach f s l = Some s' -> Inv s'.
Proof.
  induction l as [|a l IH]; intros Hstep s s' Hs; simpl.
  - by intros [= <-].
  - destruct (f s a) as [s1|] eqn:E; simpl; [|done].
    apply IH; [|by eapply Hstep; [| left |]].
    intros s0 a0 s0' Hs0 Ha0. apply Hstep; [done | by right].
Qed.

End PlainObjects.

Lemma sum_list_perm (l l' : list nat) : l ≡ₚ l' -> sum_list l = sum_list l'.
Proof. induction 1; simpl; lia. Qed.

Section Naturality.

Context {V W : Type} (g : V -> W).

Lemma insertByIndex_fmap i (e : str * V) (l : list (N * (str * V))) :
  Part000.insertByIndex i (prod_map id g e) (prod_map id (prod_map id g) <$> l) =
  prod_map id (prod_map id g) <$> Part000.insertByIndex i e l.
Proof.
  induction l as [|[j e'] l IH]; [done|].
  rewrite fmap_cons. cbn [Part000.insertByIndex prod_map fst snd id].
  destruct (i <? j); [done|]. rewrite fmap_cons. f_equal. exact IH.
Qed.

(** [Object.values] goes by the keys alone. *)
Lemma ownEntries_fmap (d : Part000.dict V) :
  Part000.ownEntries (prod_map id g <$> d) = prod_map id g <$> Part000.ownEntries d.
Proof.
  unfold Part000.ownEntries. rewrite fmap_app. f_equal.
  - rewrite <- !list_fmap_compose.
    assert (Hfold :
      foldr (fun e acc => match Part000.arrayIndex e.1 with
                          | Some i => Part000.insertByIndex i e acc
                          | None => acc
                          end) [] (prod_map id g <$> d) =
      prod_map id (prod_map id g) <$>
        foldr (fun e acc => match Part000.arrayIndex e.1 with
                            | Some i => Part000.insertByIndex i e acc
                            | None => acc
                            end) [] d).
    { induction d as [|[k v] d IH]; [done|].
      rewrite fmap_cons. cbn [foldr prod_map fst snd id].
      rewrite IH. destruct (Part000.arrayIndex k); [|done].
      apply (insertByIndex_fmap _ (k, v)). }
    rewrite Hfold, <- list_fmap_compose. apply list_fmap_ext. by intros ? [i [k v]] ?.
  - induction d as [|[k v] d IH]; [done|].
    rewrite fmap_cons. cbn [List.filter prod_map fst snd id].
    destruct (negb _); rewrite ?fmap_cons, IH; done.
Qed.

Lemma find_fmap_fst (Q : str * W -> bool) (l : list (str * V)) :
  fst <$> List.find (fun e => Q (prod_map id g e)) l =
  fst <$> List.find Q (prod_map id g <$> l).
Proof.
  induction l as [|[k a] l IH]; [done|]. rewrite fmap_cons. cbn [List.find].
  destruct (Q (prod_map id g (k, a))); [done | exact IH].
Qed.

End Naturality.

(** ** The rows of part_001 *)

Section Rows001.

Implicit Types (o : Part001Run.row) (k h v : str).

Lemma cellsOf_lookup o k : cellsOf o !! k = mapGet k o.
Proof.
  unfold cellsOf. induction o as [|[k' v'] o IH]; [done|].
  cbn [list_to_map foldr mapGet fst snd]. case_bool_decide as E.
  - subst. apply lookup_insert_eq.
  - rewrite lookup_insert_ne by done. exact IH.
Qed.

Lemma cellsOf_mapSet o k v : cellsOf (mapSet k v o) = <[k := v]> (cellsOf o).
Proof.
  apply map_eq. intros k'. rewrite cellsOf_lookup.
  destruct (decide (k = k')) as [->|Hne].
  - by rewrite mapGet_mapSet_eq, lookup_insert_eq.
  - by rewrite mapGet_mapSet_ne, lookup_insert_ne, cellsOf_lookup.
Qed.

Lemma cellsOf_fillRow hs i r o :
  cellsOf (Part001Run.fillRow hs i r o) = Part001.fillObject hs i r (cellsOf o).
Proof.
  revert i o. induction hs as [|h hs IH]; intros i o; simpl; [done|].
  rewrite IH. f_equal. unfold Part001Run.setCell, setProp.
  case_bool_decide; [done|]. apply cellsOf_mapSet.
Qed.

(** The parser with the order kept is the parser of part_001. *)
Lemma parseCSV001_cells text :
  cellsOf <$> Part001Run.parseCSV text = Part001.parseCSV text.
Proof.
  unfold Part001Run.parseCSV, Part001.parseCSV.
  destruct (Csv.rawRows text) as [|first rest]; [done|].
  rewrite <- list_fmap_compose. apply list_fmap_ext. intros _ r _. simpl.
  by rewrite cellsOf_fillRow.
Qed.

End Rows001.

(** ** The field resolver of part_001 *)

Lemma last_filter_Some {A} (p : A -> bool) (l : list A) x :
  last (List.filter p l) = Some x <->
  exists l1 l2, l = l1 ++ x :: l2 /\ p x = true /\ Forall (fun y => p y = false) l2.
Proof.
  split.
  - induction l as [|a l IH] using rev_ind; [done|].
    rewrite List.filter_app. cbn [List.filter]. destruct (p a) eqn:Ea.
    + rewrite last_snoc. intros [= <-]. exists l, []. by split_and!.
    + rewrite app_nil_r. intros (l1 & l2 & -> & Hx & Hl2)%IH.
      exists l1, (l2 ++ [a]). split_and!; [by rewrite <- app_assoc | done |].
      apply Forall_app. split; [done|]. by apply Forall_singleton.
  - intros (l1 & l2 & -> & Hx & Hl2). rewrite List.filter_app. cbn [List.filter].
    rewrite Hx.
    assert (Hnil : List.filter p l2 = []).
    { induction Hl2 as [|y l2 Hy _ IH]; [done|]. cbn [List.filter]. by rewrite Hy. }
    rewrite Hnil. apply last_snoc.
Qed.

Lemma last_filter_None {A} (p : A -> bool) (l : list A) :
  last (List.filter p l) = None -> Forall (fun y => p y = false) l.
Proof.
  intros Hl. apply Forall_forall. intros y Hy.
  destruct (p y) eqn:Ey; [|done]. exfalso.
  assert (Hin : In y (List.filter p l)) by (apply filter_In; split; [by apply list_elem_of_In | done]).
  destruct (List.filter p l) as [|z t] using rev_ind; [done|].
  by rewrite last_snoc in Hl.
Qed.

Section Pick001.

Context `{JsLower}.

Import Part001Run.

Implicit Types (o : row) (k h v : str) (keys : list str).

Lemma keysOf_elem o k : k ∈ keysOf o -> is_Some (mapGet k o).
Proof.
  unfold keysOf. rewrite (ownEntries_perm o). intros Hk.
  destruct (mapGet k o) eqn:E; [done|]. by apply mapGet_None_keys in E.
Qed.

(** The column the key map gives for an alias is the last column with the
    lower-case form of the alias. *)
Lemma mappedColumn_last o k h :
  mappedColumn o k h <->
  last (List.filter (fun h' => bool_decide (lowerKey h' = lowerKey k)) (keysOf o)) = Some h.
Proof.
  rewrite last_filter_Some. unfold mappedColumn. split.
  - intros (l1 & l2 & E & Hh & Hl2). exists l1, l2. split_and!; [done | by apply bool_decide_eq_true |].
    eapply Forall_impl; [exact Hl2|]. intros y Hy. by apply bool_decide_eq_false.
  - intros (l1 & l2 & E & Hh%bool_decide_eq_true & Hl2). exists l1, l2. split_and!; [done | done |].
    eapply Forall_impl; [exact Hl2|]. intros y Hy. by apply bool_decide_eq_false in Hy.
Qed.

Lemma mappedColumn_column o k h : mappedColumn o k h -> is_Some (mapGet h o).
Proof.
  intros (l1 & l2 & E & _). apply keysOf_elem. rewrite E.
  apply elem_of_app. right. by left.
Qed.

(** What [map[lc]] gives, when it gives a column. *)
Lemma keyMapGet_Some o k real :
  keyMapGet o (lowerKey k) = Some (Some real) ->
  keyMapBuilt o /\ mappedColumn o k real.
Proof.
  unfold keyMapGet, keyMapBuilt.
  destruct (mapGet (lit "__keyMap") o) as [[|c s]|];
    try (destruct (stringProperty (lowerKey k)); done).
  all: destruct (last _) as [real'|] eqn:El;
    [|destruct (Part000.inherited (lowerKey k)); done].
  all: intros [= <-]; split; [by auto | by apply mappedColumn_last].
Qed.

(** What [map[lc]] gives, when it gives [undefined]. *)
Lemma keyMapGet_None o k h :
  keyMapGet o (lowerKey k) = Some None -> keyMapBuilt o -> ~ mappedColumn o k h.
Proof.
  unfold keyMapGet, keyMapBuilt. intros Hg Hb Hm. apply mappedColumn_last in Hm.
  rewrite Hm in Hg. by destruct Hb as [Hb|Hb]; rewrite Hb in Hg.
Qed.

(** Outside the names every string has, [map[lc]] is read off the row. *)
Lemma keyMapGet_safe o lc :
  stringProperty lc = false -> keyMapGet o lc <> None.
Proof.
  intros Hstr. unfold keyMapGet. rewrite Hstr.
  assert (Hi : Part000.inherited lc = false).
  { unfold stringProperty in Hstr. apply orb_false_iff in Hstr as [Hstr _].
    by apply orb_false_iff in Hstr as [_ Hi]. }
  rewrite Hi.
  destruct (mapGet (lit "__keyMap") o) as [[|c s]|]; try done;
    by destruct (last _).
Qed.

(** One alias of the loop, once its own column is missing or blank: a hit
    through the key map, or nothing. *)
Lemma pickFrom_mapped o k ks :
  safeAlias k ->
  (forall v, mapGet k o = Some v -> trim v = []) ->
  (real ← keyMapGet o (lowerKey k);
   match real with
   | Some real =>
       if bool_decide (real = lit "__keyMap") then None
       else match (if truthy real then nonBlank (mapGet real o) else None) with
            | Some v => Some v
            | None => pickFrom o ks
            end
   | None => pickFrom o ks
   end) = pickFrom o (k :: ks) ->
  (exists v, pickFrom o (k :: ks) = Some (trim v) /\ trim v <> [] /\ aliasCell o k v) \/
  (pickFrom o (k :: ks) = pickFrom o ks /\ forall v, aliasCell o k v -> trim v = []).
Proof.
  intros (Hk & Hinh & Hstr & Hmap) Hblank <-.
  destruct (keyMapGet o (lowerKey k)) as [[real|]|] eqn:Em; cbn [mbind option_bind].
  - destruct (keyMapGet_Some o k real Em) as [Hb Hcol].
    destruct (mappedColumn_column o k real Hcol) as [w Hw].
    assert (Hone : forall h, mappedColumn o k h -> h = real).
    { intros h Hh%mappedColumn_last. apply mappedColumn_last in Hcol. congruence. }
    rewrite bool_decide_eq_false_2
      by (intros ->; destruct Hcol as (_ & _ & _ & Hl & _); by apply Hmap).
    rewrite Hw. destruct (truthy real) eqn:Er; cbn [nonBlank].
    + destruct (truthy (trim w)) eqn:Ew.
      * left. exists w. split_and!; [done | by apply truthy_true |].
        right. split; [done|]. exists real. split_and!; [by apply truthy_true | done | done].
      * right. split; [done|]. intros v [Hv | (_ & h & _ & Hh & Hv)]; [by apply Hblank|].
        rewrite (Hone h Hh) in Hv. assert (v = w) as -> by congruence.
        by destruct (trim w).
    + right. split; [done|]. intros v [Hv | (_ & h & Hne & Hh & Hv)]; [by apply Hblank|].
      rewrite (Hone h Hh) in Hne. by destruct real.
  - right. split; [done|]. intros v [Hv | (Hb & h & _ & Hh & _)]; [by apply Hblank|].
    by destruct (keyMapGet_None o k h Em Hb).
  - by destruct (keyMapGet_safe o _ Hstr).
Qed.

(** One alias of the loop: a hit, on its own column first, or nothing. *)
Lemma pickFrom_cons o k ks :
  safeAlias k ->
  (exists v, pickFrom o (k :: ks) = Some (trim v) /\ trim v <> [] /\ aliasCell o k v /\
             forall v', mapGet k o = Some v' -> trim v' <> [] -> v' = v) \/
  (pickFrom o (k :: ks) = pickFrom o ks /\ forall v, aliasCell o k v -> trim v = []).
Proof.
  intros Hsafe. pose proof Hsafe as (Hk & Hinh & Hstr & Hmap).
  pose proof (pickFrom_mapped o k ks Hsafe) as Hmapped.
  cbn [pickFrom] in *. rewrite bool_decide_eq_false_2 in * by done.
  assert (Hdirect : Part000.dictGet k o = Some (mapGet k o)).
  { unfold Part000.dictGet. destruct (mapGet k o); [done|]. by rewrite Hinh. }
  rewrite Hdirect in *. cbn [mbind option_bind] in *.
  destruct (mapGet k o) as [v|] eqn:Eg; cbn [nonBlank] in *.
  - destruct (truthy (trim v)) eqn:Et.
    + left. exists v. split_and!; [done | by apply truthy_true | by left |].
      by intros v' [= <-].
    + destruct Hmapped as [(w & Hw & Hne & Hc) | Hnone]; [| done | | by right].
      { intros v' [= <-]. by destruct (trim v). }
      left. exists w. split_and!; [done | done | done |].
      intros v' [= <-] Hv'. by destruct (trim v).
  - destruct Hmapped as [(w & Hw & Hne & Hc) | Hnone]; [done | done | | by right].
    left. exists w. by split_and!.
Qed.

(** On aliases inside the model [pick] of part_001 returns, and what it
    returns is trimmed: the trimmed cell of the first alias that stands for
    a cell that is not blank, the alias's own column before the column the
    key map gives for it; or the empty string, when no alias stands for a
    cell that is not blank. *)
Lemma pick001_contract o keys :
  Forall safeAlias keys ->
  exists x, pick (Some o) keys = Some x /\ trim x = x /\
    ((x = [] /\ forall k v, k ∈ keys -> aliasCell o k v -> trim v = []) \/
     (x <> [] /\ exists before k after v,
        keys = before ++ k :: after /\ aliasCell o k v /\ x = trim v /\
        (forall v', mapGet k o = Some v' -> trim v' <> [] -> v' = v) /\
        forall k' v', k' ∈ before -> aliasCell o k' v' -> trim v' = [])).
Proof.
  unfold pick. induction 1 as [|k ks Hk Hks IH].
  - exists []. split_and!; [done | done |]. left. split; [done|].
    intros k v Hin. by apply elem_of_nil in Hin.
  - destruct (pickFrom_cons o k ks Hk) as [(v & -> & Hv & Hc & Hfirst) | [-> Hblank]].
    + exists (trim v). split_and!; [done | apply trim_idem |]. right.
      split; [done|]. exists [], k, ks, v. split_and!; try done.
      intros k' v' Hin. by apply elem_of_nil in Hin.
    + destruct IH as (x & Hx & Htrim & Hcases). exists x. split_and!; [done | done |].
      destruct Hcases as [[-> Hall] | (Hne & before & k0 & after & v & -> & Hc & -> & Hfirst & Hb)].
      * left. split; [done|].
        intros k' v' [->|Hin]%elem_of_cons; [apply Hblank | by apply Hall].
      * right. split; [done|]. exists (k :: before), k0, after, v.
        split_and!; try done.
        intros k' v' [->|Hin]%elem_of_cons; [apply Hblank | by apply Hb].
Qed.

Lemma pick001_total r keys :
  Forall safeAlias keys -> is_Some (pick (Some r) keys).
Proof. intros Hs. destruct (pick001_contract r keys Hs) as (x & -> & _). done. Qed.

Lemma pick001_trimmed r keys x : pick (Some r) keys = Some x -> trim x = x.
Proof.
  unfold pick. induction keys as [|k ks IH]; cbn [pickFrom]; [by intros [= <-]|].
  case_bool_decide; [done|].
  destruct (Part000.dictGet k r) as [direct|]; cbn [mbind option_bind]; [|done].
  assert (Hnb : forall c v, nonBlank c = Some v -> trim v = v).
  { intros [c|] v; cbn [nonBlank]; [|done].
    destruct (truthy (trim c)); [|done]. intros [= <-]. apply trim_idem. }
  destruct (nonBlank direct) as [v|] eqn:Ed; [intros [= <-]; by eapply Hnb|].
  destruct (keyMapGet r (lowerKey k)) as [[real|]|]; cbn [mbind option_bind]; [| done | done].
  case_bool_decide; [done|].
  destruct (truthy real); [|done].
  destruct (nonBlank (mapGet real r)) as [v|] eqn:Er; [intros [= <-]; by eapply Hnb | done].
Qed.

(** X30.  On a row none of whose columns differs from an alias only in case
    or surrounding white space, what [pick] of part_001 returns is what
    [pick] of scripts/build-data.mjs returns on the cells of the row. *)
Theorem part001_pick_extends_pick o keys x :
  (forall k h, k ∈ keys -> is_Some (cellsOf o !! h) -> lowerKey h = lowerKey k -> h = k) ->
  pick (Some o) keys = Some x ->
  BuildData.pick (Some (cellsOf o)) keys = BuildData.Ok x.
Proof.
  intros Hexact. rewrite pick_object. unfold pick. intros Hx. f_equal. revert Hexact Hx.
  induction keys as [|k ks IH]; intros Hexact; cbn [pickFrom BuildData.pickOf].
  - by intros [= <-].
  - assert (IH' : pickFrom o ks = Some x -> BuildData.pickOf (cellsOf o) ks = x).
    { apply IH. intros k0 h Hk0. apply Hexact. by right. }
    case_bool_decide; [done|]. rewrite cellsOf_lookup.
    unfold Part000.dictGet.
    assert (Hreal : forall real, keyMapGet o (lowerKey k) = Some (Some real) -> real = k).
    { intros real [_ Hcol]%keyMapGet_Some. apply Hexact; [left | | ].
      - rewrite cellsOf_lookup. by eapply mappedColumn_column.
      - by destruct Hcol as (_ & _ & _ & Hl & _). }
    destruct (mapGet k o) as [v|] eqn:Ek; cbn [mbind option_bind nonBlank].
    + destruct (truthy (trim v)) eqn:Et; [by intros [= <-]|].
      destruct (keyMapGet o (lowerKey k)) as [[real|]|] eqn:Em;
        cbn [mbind option_bind]; [| done | done].
      rewrite (Hreal real eq_refl). rewrite bool_decide_eq_false_2 by done.
      rewrite Ek. cbn [nonBlank]. rewrite Et. by destruct (truthy k).
    + destruct (Part000.inherited k); cbn [mbind option_bind nonBlank]; [done|].
      destruct (keyMapGet o (lowerKey k)) as [[real|]|] eqn:Em;
        cbn [mbind option_bind]; [| done | done].
      rewrite (Hreal real eq_refl). rewrite bool_decide_eq_false_2 by done.
      rewrite Ek. cbn [nonBlank]. by destruct (truthy k).
Qed.

End Pick001.

(** ** The aliases of part_001 *)

Section Aliases001.

Context `{JsLower}.

Import Part001Run.

Lemma lower_ascii s :
  LowerAscii -> forallb (fun c => c <? 128) s = true ->
  toLowerCase s = @toLowerCase asciiLower s.
Proof.
  intros Hlow Hs. apply Hlow, Forall_forall. intros c Hc%list_elem_of_In.
  rewrite forallb_forall in Hs. by apply N.ltb_lt, Hs.
Qed.

(** An alias of ASCII text whose lower-case form, computed, keeps it inside
    the model. *)
Lemma safeAlias_ascii k :
  LowerAscii -> forallb (fun c => c <? 128) (trim k) = true ->
  @safeAlias asciiLower k -> safeAlias k.
Proof.
  intros Hlow Hk. unfold safeAlias, lowerKey.
  rewrite (lower_ascii (trim k) Hlow Hk).
  by rewrite (lower_ascii (trim (lit "__keyMap")) Hlow eq_refl).
Qed.

Lemma aliases001_safe : LowerAscii -> Forall safeAlias aliases001.
Proof.
  intros Hlow. unfold aliases001.
  repeat (apply Forall_cons; split;
          [apply (safeAlias_ascii _ Hlow); [vm_compute; reflexivity|];
           split_and!; [by intros E | vm_compute; reflexivity
                        | vm_compute; reflexivity | by intros E]|]).
  apply Forall_nil_2.
Qed.

Lemma aliases_safe keys :
  LowerAscii -> forallb (fun k => bool_decide (k ∈ aliases001)) keys = true ->
  Forall safeAlias keys.
Proof.
  intros Hlow Hk. apply Forall_forall. intros k Hin%list_elem_of_In.
  rewrite forallb_forall in Hk. apply Hk, bool_decide_eq_true in Hin.
  pose proof (aliases001_safe Hlow) as Hall. rewrite Forall_forall in Hall. by apply Hall.
Qed.

(** On its own aliases [pick] of part_001 stays inside the model. *)
Lemma pick_alias_total r keys :
  LowerAscii -> forallb (fun k => bool_decide (k ∈ aliases001)) keys = true ->
  exists x, pick (Some r) keys = Some x.
Proof.
  intros Hlow Hk.
  destruct (pick001_total r keys (aliases_safe keys Hlow Hk)) as [x Hx]. by exists x.
Qed.

End Aliases001.

(** ** The indices of part_001 *)

Lemma forEach_app {S A} (f : S -> A -> option S) (s : S) (l1 l2 : list A) :
  Part000.forEach f s (l1 ++ l2) =
  s' ← Part000.forEach f s l1; Part000.forEach f s' l2.
Proof.
  revert s. induction l1 as [|a l1 IH]; intros s; simpl; [done|].
  destruct (f s a) as [s1|]; simpl; [apply IH | done].
Qed.

Lemma forEach_total {S A} (f : S -> A -> option S) (l : list A) :
  (forall s a, a ∈ l -> is_Some (f s a)) ->
  forall s, is_Some (Part000.forEach f s l).
Proof.
  induction l as [|a l IH]; intros Hf s; simpl; [done|].
  destruct (Hf s a) as [s1 ->]; [by left|]. simpl.
  apply IH. intros s0 a0 Ha0. apply Hf. by right.
Qed.

Section Index001.

Context `{JsLower}.

Import Part001Run.

Implicit Types (pm : Part000.dict Problem) (cm : Part000.dict Company) (r : row)
  (c : Company).

Lemma keyify_not_proto x : Part001.keyify x <> lit "__proto__".
Proof.
  intros E. pose proof (keyify_tidy x) as Ht. rewrite E in Ht.
  vm_compute in Ht. discriminate Ht.
Qed.

Lemma addProblem_total pm r : LowerAscii -> is_Some (addProblem pm r).
Proof.
  intros Hlow. unfold addProblem.
  destruct (pick_alias_total r [lit "Problem"; lit "Common Problem"; lit "Common Problem "] Hlow)
    as [p ->]; [vm_compute; reflexivity|]. cbn [mbind option_bind].
  destruct (negb (truthy p)); [done|].
  destruct (pick_alias_total r [lit "Solution"; lit "Our Solution"] Hlow)
    as [s ->]; [vm_compute; reflexivity|]. cbn [mbind option_bind].
  destruct (pick_alias_total r [lit "OpenRecovery Feature"; lit "Open Recovery Feature";
                                lit "Feature"] Hlow)
    as [f ->]; [vm_compute; reflexivity|]. cbn [mbind option_bind].
  unfold Part000.dictSet. rewrite bool_decide_eq_false_2 by apply keyify_not_proto. done.
Qed.

Lemma mkCompany_total r i n :
  LowerAscii -> exists c, mkCompany r i n = Some c.
Proof.
  intros Hlow. unfold mkCompany.
  destruct (pick_alias_total r [lit "Website"; lit "URL"] Hlow)
    as [w ->]; [vm_compute; reflexivity|]. cbn [mbind option_bind].
  destruct (pick_alias_total r [lit "Location"] Hlow)
    as [l ->]; [vm_compute; reflexivity|]. cbn [mbind option_bind].
  destruct (pick_alias_total r [lit "Target"] Hlow)
    as [t ->]; [vm_compute; reflexivity|]. cbn [mbind option_bind].
  destruct (pick_alias_total r [lit "Org Types"; lit "Org Types "] Hlow)
    as [o ->]; [vm_compute; reflexivity|]. cbn [mbind option_bind].
  by eexists.
Qed.

(** What [mkCompany] puts into a record. *)
Lemma mkCompany_fields r i n c :
  mkCompany r i n = Some c ->
  id c = i /\ name c = n /\ solutions c = [] /\
  exists cell, pick (Some r) [lit "Org Types"; lit "Org Types "] = Some cell /\
               org_types c = orgTypes cell.
Proof.
  unfold mkCompany.
  destruct (pick (Some r) [lit "Website"; lit "URL"]); cbn [mbind option_bind]; [|done].
  destruct (pick (Some r) [lit "Location"]); cbn [mbind option_bind]; [|done].
  destruct (pick (Some r) [lit "Target"]); cbn [mbind option_bind]; [|done].
  destruct (pick (Some r) [lit "Org Types"; lit "Org Types "]) as [cell|];
    cbn [mbind option_bind]; [|done].
  intros [= <-]. split_and!; try done. exists cell. split; [done|].
  cbn [org_types]. by rewrite orElse_nil.
Qed.

Lemma record_filed r c :
  recordOf r = Some c -> filedUnder r = Some (companyKey001 c) /\ solutions c = [].
Proof.
  unfold recordOf, filedUnder, companyKey001.
  destruct (pick (Some r) [lit "Company ID"; lit "ID"]) as [i|]; cbn [mbind option_bind]; [|done].
  destruct (pick (Some r) [lit "Company Name"; lit "Name"]) as [n|];
    cbn [mbind option_bind]; [|done].
  destruct (truthy i && truthy n); [|done].
  intros (-> & _ & Hs & _)%mkCompany_fields. done.
Qed.

Lemma filed_record r k :
  LowerAscii -> filedUnder r = Some k -> exists c, recordOf r = Some c.
Proof.
  intros Hlow. unfold recordOf, filedUnder.
  destruct (pick (Some r) [lit "Company ID"; lit "ID"]) as [i|]; cbn [mbind option_bind]; [|done].
  destruct (pick (Some r) [lit "Company Name"; lit "Name"]) as [n|];
    cbn [mbind option_bind]; [|done].
  destruct (truthy i && truthy n); [|done]. intros _. by apply mkCompany_total.
Qed.

(** The two ways a Companies row can go. *)
Lemma addCompany001_cases cm r cm' :
  addCompany cm r = Some cm' ->
  (filedUnder r = None /\ cm' = cm) \/
  (exists k c, filedUnder r = Some k /\ recordOf r = Some c /\ cm' = mapSet k c cm).
Proof.
  unfold addCompany, filedUnder, recordOf.
  destruct (pick (Some r) [lit "Company ID"; lit "ID"]) as [i|]; cbn [mbind option_bind]; [|done].
  destruct (pick (Some r) [lit "Company Name"; lit "Name"]) as [n|];
    cbn [mbind option_bind]; [|done].
  destruct (truthy i), (truthy n); cbn [negb orb andb];
    try (intros [= <-]; by left).
  destruct (mkCompany r i n) as [c|]; cbn [mbind option_bind]; [|done].
  unfold Part000.dictSet. case_bool_decide; [done|].
  intros [= <-]. right. by exists (norm i), c.
Qed.

Lemma addCompany_total cm r :
  LowerAscii -> filedUnder r <> Some (lit "__proto__") -> is_Some (addCompany cm r).
Proof.
  intros Hlow. unfold addCompany, filedUnder.
  destruct (pick_alias_total r [lit "Company ID"; lit "ID"] Hlow)
    as [i ->]; [vm_compute; reflexivity|]. cbn [mbind option_bind].
  destruct (pick_alias_total r [lit "Company Name"; lit "Name"] Hlow)
    as [n ->]; [vm_compute; reflexivity|]. cbn [mbind option_bind].
  destruct (truthy i), (truthy n); cbn [negb orb andb]; try done.
  intros Hk. destruct (mkCompany_total r i n Hlow) as [c ->]. cbn [mbind option_bind].
  unfold Part000.dictSet. rewrite bool_decide_eq_false_2; [done|]. congruence.
Qed.

(** What holds of every entry of the company index of part_001: it stands
    under the key of the row it was built from. *)
Lemma companyMap001_entries cs cm :
  Part000.forEach addCompany [] cs = Some cm ->
  NoDup cm.*1 /\
  Forall (fun e => exists r, r ∈ cs /\ filedUnder r = Some e.1 /\ recordOf r = Some e.2) cm.
Proof.
  apply (forEach_invariant addCompany
           (fun cm => NoDup cm.*1 /\
              Forall (fun e => exists r, r ∈ cs /\ filedUnder r = Some e.1 /\
                                         recordOf r = Some e.2) cm));
    [|split; constructor].
  intros m r m' [Hnd Hall] Hr [[_ ->] | (k & c & Hk & Hc & ->)]%addCompany001_cases; [done|].
  split; [by apply mapSet_NoDup|]. apply mapSet_Forall; [done|]. by exists r.
Qed.

(** The row that is the last to be filed under a key is the one whose
    record stands in the index. *)
Lemma addCompany_last pre r post cm k c :
  Part000.forEach addCompany [] (pre ++ r :: post) = Some cm ->
  filedUnder r = Some k -> recordOf r = Some c ->
  Forall (fun r' => filedUnder r' <> Some k) post ->
  mapGet k cm = Some c.
Proof.
  rewrite forEach_app.
  destruct (Part000.forEach addCompany [] pre) as [cm1|]; cbn [mbind option_bind]; [|done].
  cbn [Part000.forEach].
  destruct (addCompany cm1 r) as [cm2|] eqn:Er; cbn [mbind option_bind]; [|done].
  intros Hpost Hk Hc Hnot.
  assert (H2 : mapGet k cm2 = Some c).
  { apply addCompany001_cases in Er as [[Hn _] | (k' & c' & Hk' & Hc' & ->)]; [congruence|].
    assert (k' = k) as -> by congruence. assert (c' = c) as -> by congruence.
    apply mapGet_mapSet_eq. }
  revert Hpost.
  apply (forEach_invariant addCompany (fun m => mapGet k m = Some c)); [|done].
  intros m r' m' Hm Hr' [[_ ->] | (k' & c' & Hk' & Hc' & ->)]%addCompany001_cases; [done|].
  rewrite mapGet_mapSet_ne; [done|].
  rewrite Forall_forall in Hnot. intros ->. by apply (Hnot r').
Qed.

End Index001.

(** ** The link loop of part_001 *)

Section Links001.

Context `{JsLower}.

Import Part001Run.

Implicit Types (pm : Part000.dict Problem) (cm : Part000.dict Company) (st : tally)
  (r : row) (c : Company).

(** The three ways a link row can go. *)
Lemma attach001_cases pm st r st' :
  attach pm st r = Some st' ->
  (linkTarget (companyMap st) r = Some None /\
   st' = Tally (companyMap st) (matchedLinks st) (S (unmatchedCompanies st))
               (unmatchedProblems st))
  \/ (exists key, linkTarget (companyMap st) r = Some (Some key) /\
        companyMap st' = companyMap st /\ matchedLinks st' = matchedLinks st /\
        unmatchedCompanies st' = unmatchedCompanies st)
  \/ (exists key company p,
        linkTarget (companyMap st) r = Some (Some key) /\
        mapGet key (companyMap st) = Some company /\ already company p = false /\
        st' = Tally (mapSet key (pushSolution company p) (companyMap st))
                    (S (matchedLinks st)) (unmatchedCompanies st) (unmatchedProblems st)).
Proof.
  unfold attach, linkTarget.
  destruct (pick (Some r) [lit "Company ID"; lit "ID"]) as [i0|];
    cbn [mbind option_bind]; [|done].
  destruct (pick (Some r) [lit "Company Name"; lit "Company"]) as [n0|];
    cbn [mbind option_bind]; [|done].
  destruct (findCompany (companyMap st) (norm i0) (norm n0)) as [[key|]|];
    cbn [mbind option_bind]; [| intros [= <-]; by left | done].
  destruct (mapGet key (companyMap st)) as [company|] eqn:Eg;
    cbn [mbind option_bind]; [|done].
  destruct (pick (Some r) [lit "Problem"; lit "Common Problem"]) as [text|];
    cbn [mbind option_bind]; [|done].
  destruct (Part000.dictGet (Part001.keyify text) pm) as [[p|]|];
    cbn [mbind option_bind]; [| |done].
  - destruct (already company p) eqn:Ea.
    + intros [= <-]. right; left. by exists key.
    + intros [= <-]. right; right. by exists key, company, p.
  - intros [= <-]. right; left. by exists key.
Qed.

Lemma already_spec company p :
  already company p = true <-> problemKey001 p ∈ problemKey001 <$> solutions company.
Proof.
  unfold already. rewrite existsb_exists, list_elem_of_fmap. split.
  - intros (x & Hx%list_elem_of_In & Hk%bool_decide_eq_true). by exists x.
  - intros (x & Hk & Hx). exists x. split; [by apply list_elem_of_In|].
    by apply bool_decide_eq_true.
Qed.

(** A property of the company index that every push keeps is kept by the
    whole link loop. *)
Lemma attach001_invariant pm (Inv : Part000.dict Company -> Prop) ls :
  (forall cm key company p,
      Inv cm -> mapGet key cm = Some company -> already company p = false ->
      Inv (mapSet key (pushSolution company p) cm)) ->
  forall st st',
    Inv (companyMap st) -> Part000.forEach (attach pm) st ls = Some st' ->
    Inv (companyMap st').
Proof.
  intros Hpush.
  apply (forEach_invariant (attach pm) (fun st => Inv (companyMap st))).
  intros st r st' Hst _ Hr.
  destruct (attach001_cases pm st r st' Hr)
    as [[_ ->] | [(key & _ & -> & _) | (key & company & p & _ & Hg & Ha & ->)]];
    [done | done |]. simpl. by apply Hpush.
Qed.

Lemma dictValues_elem {V} (d : Part000.dict V) v :
  v ∈ Part000.dictValues d <-> exists k, (k, v) ∈ d.
Proof.
  unfold Part000.dictValues. rewrite list_elem_of_fmap. split.
  - intros ([k c'] & -> & He). exists k. by rewrite <- (ownEntries_perm d).
  - intros [k Hk]. exists (k, v). split; [done|]. by rewrite (ownEntries_perm d).
Qed.

(** A push changes nothing that a function blind to the solutions sees. *)
Lemma push_fmap {W} (g : Company -> W) cm key company p :
  (forall c q, g (pushSolution c q) = g c) ->
  mapGet key cm = Some company ->
  prod_map Datatypes.id g <$> mapSet key (pushSolution company p) cm =
  prod_map Datatypes.id g <$> cm.
Proof.
  intros Hg. induction cm as [|[k' c'] cm IH]; [done|]. cbn [mapGet mapSet].
  case_bool_decide as E.
  - intros [= ->]. subst. rewrite !fmap_cons. unfold prod_map at 1 3. simpl.
    by rewrite Hg.
  - intros Hg'. rewrite !fmap_cons. f_equal. by apply IH.
Qed.

(** The link loop leaves every record as the Companies table built it, up
    to its solutions. *)
Lemma attach001_bare pm ls st st' :
  Part000.forEach (attach pm) st ls = Some st' ->
  prod_map Datatypes.id withoutSolutions <$> companyMap st' =
  prod_map Datatypes.id withoutSolutions <$> companyMap st.
Proof.
  apply (attach001_invariant pm
           (fun cm => prod_map Datatypes.id withoutSolutions <$> cm =
                      prod_map Datatypes.id withoutSolutions <$> companyMap st)); [|done].
  intros cm key company p Hcm Hg _. by rewrite push_fmap.
Qed.

Lemma attachedCount001_cons k (c : Company) (cm : Part000.dict Company) :
  attachedCount001 (((k, c) :: cm).*2) =
  (length (solutions c) + attachedCount001 cm.*2)%nat.
Proof. reflexivity. Qed.

Lemma attachedCount001_mapSet cm key company p :
  mapGet key cm = Some company ->
  attachedCount001 (mapSet key (pushSolution company p) cm).*2 =
  S (attachedCount001 cm.*2).
Proof.
  induction cm as [|[k' c'] cm IH]; [done|]. cbn [mapGet mapSet].
  case_bool_decide as E.
  - intros [= ->]. rewrite !attachedCount001_cons. simpl. rewrite length_app. simpl. lia.
  - intros Hg. rewrite !attachedCount001_cons, (IH Hg). lia.
Qed.

(** Which company a link row leads to depends on the keys and the names of
    the index only. *)
Lemma findCompany_skeleton cm cm' a b :
  skeleton cm = skeleton cm' -> findCompany cm a b = findCompany cm' a b.
Proof.
  intros Hsk. unfold findCompany.
  assert (Hkeys : cm.*1 = cm'.*1).
  { apply (f_equal (fmap fst)) in Hsk. unfold skeleton in Hsk.
    rewrite <- !list_fmap_compose in Hsk. exact Hsk. }
  assert (Hsk1 : forall m : Part000.dict Company,
    fst <$> List.find (fun e => bool_decide (norm (name e.2) = b)) (Part000.ownEntries m) =
    fst <$> List.find (fun e => bool_decide (norm e.2 = b)) (Part000.ownEntries (skeleton m))).
  { intros m. unfold skeleton. rewrite ownEntries_fmap.
    exact (find_fmap_fst name (fun e => bool_decide (norm e.2 = b)) (Part000.ownEntries m)). }
  assert (Hfind :
    fst <$> List.find (fun e => bool_decide (norm (name e.2) = b)) (Part000.ownEntries cm) =
    fst <$> List.find (fun e => bool_decide (norm (name e.2) = b)) (Part000.ownEntries cm'))
    by (by rewrite !Hsk1, Hsk).
  assert (Hget : match mapGet a cm with None => true | Some _ => false end =
                 match mapGet a cm' with None => true | Some _ => false end)
    by (by apply mapGet_same_keys).
  unfold Part000.dictGet.
  destruct (truthy a); cbn [mbind option_bind]; [|by rewrite Hfind].
  destruct (mapGet a cm), (mapGet a cm'); try done; cbn [mbind option_bind].
  destruct (Part000.inherited a); cbn [mbind option_bind]; [done|]. by rewrite Hfind.
Qed.

Lemma linkTarget_skeleton cm cm' r :
  skeleton cm = skeleton cm' -> linkTarget cm r = linkTarget cm' r.
Proof.
  intros Hsk. unfold linkTarget.
  destruct (pick (Some r) [lit "Company ID"; lit "ID"]); cbn [mbind option_bind]; [|done].
  destruct (pick (Some r) [lit "Company Name"; lit "Company"]);
    cbn [mbind option_bind]; [|done].
  by apply findCompany_skeleton.
Qed.

Lemma skeleton_mapSet cm key company p :
  mapGet key cm = Some company ->
  skeleton (mapSet key (pushSolution company p) cm) = skeleton cm.
Proof. intros Hg. unfold skeleton. by apply push_fmap. Qed.

Lemma attach001_counts pm cm0 ls :
  forall st st',
    skeleton (companyMap st) = skeleton cm0 ->
    Part000.forEach (attach pm) st ls = Some st' ->
    skeleton (companyMap st') = skeleton cm0 /\
    unmatchedCompanies st' =
      (unmatchedCompanies st + length (List.filter (noTarget cm0) ls))%nat.
Proof.
  induction ls as [|r ls IH]; intros st st' Hsk; simpl.
  - intros [= <-]. split; [done | lia].
  - destruct (attach pm st r) as [st1|] eqn:Er; cbn [mbind option_bind]; [|done].
    intros Hrest.
    assert (Hstep : skeleton (companyMap st1) = skeleton cm0 /\
                    unmatchedCompanies st1 =
                      (unmatchedCompanies st + if noTarget cm0 r then 1 else 0)%nat).
    { unfold noTarget. rewrite <- (linkTarget_skeleton _ _ r Hsk).
      destruct (attach001_cases pm st r st1 Er)
        as [[Ht ->] | [(key & Ht & Hcm & _ & Huc) | (key & company & p & Ht & Hg & _ & ->)]];
        rewrite Ht; simpl.
      - split; [done | lia].
      - rewrite Hcm, Huc. split; [done | lia].
      - rewrite skeleton_mapSet by done. split; [done | lia]. }
    destruct Hstep as [Hsk1 Huc1].
    destruct (IH st1 st' Hsk1 Hrest) as [Hsk' Huc'].
    split; [done|]. rewrite Huc', Huc1. destruct (noTarget cm0 r); simpl; lia.
Qed.

(** The company a link row leads to is a company of the index. *)
Lemma findCompany_found cm a b key :
  findCompany cm a b = Some (Some key) -> is_Some (mapGet key cm).
Proof.
  unfold findCompany, Part000.dictGet.
  assert (Hfind : fst <$> List.find (fun e => bool_decide (norm (name e.2) = b))
                                    (Part000.ownEntries cm) = Some key ->
                  is_Some (mapGet key cm)).
  { destruct (List.find _ _) as [[k c]|] eqn:Ef; [|done]. intros [= <-].
    apply find_some in Ef as [Hin%list_elem_of_In _].
    rewrite (ownEntries_perm cm) in Hin.
    destruct (mapGet k cm) eqn:Eg; [done|]. apply mapGet_None_keys in Eg.
    destruct Eg. apply list_elem_of_fmap. by exists (k, c). }
  destruct (truthy a); cbn [mbind option_bind]; [|by intros [= E]; apply Hfind].
  destruct (mapGet a cm) eqn:Ea; cbn [mbind option_bind]; [by intros [= <-]; rewrite Ea|].
  destruct (Part000.inherited a); cbn [mbind option_bind]; [done|].
  intros [= E]. by apply Hfind.
Qed.

Lemma findCompany_total cm a b :
  Part000.inherited a = false -> is_Some (findCompany cm a b).
Proof.
  intros Ha. unfold findCompany, Part000.dictGet. rewrite Ha.
  destruct (truthy a); cbn [mbind option_bind]; [|done].
  by destruct (mapGet a cm).
Qed.

(** On a link row whose keys are no inherited names the loop body stays
    inside the model. *)
Lemma attach001_total pm st r :
  LowerAscii -> notInherited (linkIdKey r) -> notInherited (linkProblemKey r) ->
  is_Some (attach pm st r).
Proof.
  intros Hlow. unfold attach, linkIdKey, linkProblemKey, notInherited.
  destruct (pick_alias_total r [lit "Company ID"; lit "ID"] Hlow)
    as [i ->]; [vm_compute; reflexivity|]. cbn [mbind option_bind fmap option_fmap option_map].
  destruct (pick_alias_total r [lit "Company Name"; lit "Company"] Hlow)
    as [n ->]; [vm_compute; reflexivity|]. cbn [mbind option_bind].
  destruct (pick_alias_total r [lit "Problem"; lit "Common Problem"] Hlow)
    as [t ->]; [vm_compute; reflexivity|]. cbn [mbind option_bind fmap option_fmap option_map].
  intros Hi Ht.
  destruct (findCompany_total (companyMap st) (norm i) (norm n) (Hi _ eq_refl))
    as [[key|] Ef]; rewrite Ef; cbn [mbind option_bind]; [|done].
  destruct (findCompany_found _ _ _ _ Ef) as [company ->]. cbn [mbind option_bind].
  unfold Part000.dictGet. rewrite (Ht _ eq_refl).
  destruct (mapGet (Part001.keyify t) pm) as [p|]; cbn [mbind option_bind]; [|done].
  by destruct (already company p).
Qed.

(** On covered tables the run stays inside the model. *)
Lemma reconcile_covered cs ps ls :
  LowerAscii -> covered cs ls -> exists out, reconcile cs ps ls = Some out.
Proof.
  intros Hlow [Hcs Hls]. unfold reconcile.
  destruct (forEach_total addProblem ps (fun s a _ => addProblem_total s a Hlow) [])
    as [pm ->]. cbn [mbind option_bind].
  destruct (forEach_total addCompany cs) with (s := @nil (str * Company)) as [cm0 ->].
  { intros s a Ha. apply addCompany_total; [done|].
    rewrite Forall_forall in Hcs. by apply Hcs. }
  cbn [mbind option_bind].
  destruct (forEach_total (attach pm) ls) with (s := Tally cm0 0 0 []) as [st ->].
  { intros s a Ha. rewrite Forall_forall in Hls. destruct (Hls a Ha).
    by apply attach001_total. }
  cbn [mbind option_bind]. by eexists.
Qed.

(** The parts of a run. *)
Lemma reconcile_parts cs ps ls out :
  reconcile cs ps ls = Some out ->
  exists pm cm0 st,
    Part000.forEach addProblem [] ps = Some pm /\
    Part000.forEach addCompany [] cs = Some cm0 /\
    Part000.forEach (attach pm) (Tally cm0 0 0 []) ls = Some st /\
    out = Output (Part000.dictValues (companyMap st)) (matchedLinks st)
                 (unmatchedCompanies st) (unmatchedProblems st).
Proof.
  unfold reconcile.
  destruct (Part000.forEach addProblem [] ps) as [pm|] eqn:Ep;
    cbn [mbind option_bind]; [|done].
  destruct (Part000.forEach addCompany [] cs) as [cm0|] eqn:Ec;
    cbn [mbind option_bind]; [|done].
  destruct (Part000.forEach (attach pm) (Tally cm0 0 0 []) ls) as [st|] eqn:El;
    cbn [mbind option_bind]; [|done].
  intros [= <-]. exists pm, cm0, st. by split_and!.
Qed.

Lemma bare_elem cm cm' k c :
  prod_map Datatypes.id withoutSolutions <$> cm' =
  prod_map Datatypes.id withoutSolutions <$> cm ->
  (k, c) ∈ cm' ->
  exists c0, (k, c0) ∈ cm /\ withoutSolutions c0 = withoutSolutions c.
Proof.
  intros Hb Hin.
  assert (Hin' : (k, withoutSolutions c) ∈ prod_map Datatypes.id withoutSolutions <$> cm).
  { rewrite <- Hb. apply list_elem_of_fmap. by exists (k, c). }
  apply list_elem_of_fmap in Hin' as ([k0 c0] & E & Hc0).
  pose proof (f_equal fst E) as E1. pose proof (f_equal snd E) as E2.
  cbn [fst snd prod_map Datatypes.id] in E1, E2. subst k0. by exists c0.
Qed.

Lemma withoutSolutions_fresh c : solutions c = [] -> withoutSolutions c = c.
Proof. destruct c. simpl. by intros ->. Qed.

(** Every company of the output was built from a row of the Companies table
    that was filed under its key, and no two have the same key. *)
Lemma output001_built cs ps ls out :
  reconcile cs ps ls = Some out ->
  NoDup (companyKey001 <$> companies out) /\
  Forall (fun c => exists r, r ∈ cs /\ filedUnder r = Some (companyKey001 c) /\
                             builtFrom001 r c) (companies out).
Proof.
  intros (pm & cm0 & st & _ & Ec & El & ->)%reconcile_parts. cbn [companies].
  destruct (companyMap001_entries cs cm0 Ec) as [Hnd Hall].
  pose proof (attach001_bare pm ls _ _ El) as Hb. cbn [companyMap] in Hb.
  assert (Hent : Forall (fun e => e.1 = companyKey001 e.2 /\
                                  exists r, r ∈ cs /\ filedUnder r = Some (companyKey001 e.2) /\
                                            builtFrom001 r e.2) (companyMap st)).
  { apply Forall_forall. intros [k c] Hin.
    destruct (bare_elem _ _ _ _ Hb Hin) as (c0 & Hc0 & Hws).
    rewrite Forall_forall in Hall. destruct (Hall _ Hc0) as (r & Hr & Hk & Hrec).
    cbn [fst snd] in *. destruct (record_filed r c0 Hrec) as [Hk' Hs].
    assert (Hkey : companyKey001 c0 = companyKey001 c).
    { change (companyKey001 (withoutSolutions c0) = companyKey001 (withoutSolutions c)).
      by rewrite Hws. }
    assert (k = companyKey001 c) as -> by congruence.
    split; [done|]. exists r. split_and!; [done | done |].
    unfold builtFrom001. by rewrite Hrec, <- Hws, withoutSolutions_fresh. }
  assert (Hkeys : companyKey001 <$> Part000.dictValues (companyMap st) =
                  (Part000.ownEntries (companyMap st)).*1).
  { unfold Part000.dictValues. rewrite <- list_fmap_compose.
    apply Forall_fmap_ext_1. rewrite (ownEntries_perm (companyMap st)).
    eapply Forall_impl; [exact Hent|]. by intros [k c] [-> _]. }
  split.
  - rewrite Hkeys, (ownEntries_perm (companyMap st)).
    replace ((companyMap st).*1) with (cm0.*1); [done|].
    apply (f_equal (fmap fst)) in Hb. rewrite <- !list_fmap_compose in Hb. by symmetry.
  - apply Forall_forall. intros c [k Hin]%dictValues_elem.
    rewrite Forall_forall in Hent. by destruct (Hent _ Hin) as [_ ?].
Qed.

(** When several rows of the Companies table are filed under a key, the
    record of the output under that key is the one built from the last of
    them. *)
Lemma output001_last pre r post ps ls out k :
  reconcile (pre ++ r :: post) ps ls = Some out ->
  filedUnder r = Some k ->
  Forall (fun r' => filedUnder r' <> Some k) post ->
  exists c, c ∈ companies out /\ companyKey001 c = k /\ builtFrom001 r c.
Proof.
  intros Hrun Hk Hpost.
  pose proof Hrun as (pm & cm0 & st & _ & Ec & El & ->)%reconcile_parts. cbn [companies].
  assert (Hrec : exists c0, recordOf r = Some c0).
  { revert Ec. rewrite forEach_app.
    destruct (Part000.forEach addCompany [] pre) as [cm1|]; cbn [mbind option_bind]; [|done].
    cbn [Part000.forEach].
    destruct (addCompany cm1 r) as [cm2|] eqn:Er; cbn [mbind option_bind]; [|done].
    apply addCompany001_cases in Er as [[Hn _] | (k' & c' & _ & Hc' & _)]; [congruence|].
    by exists c'. }
  destruct Hrec as [c0 Hrec].
  pose proof (addCompany_last pre r post cm0 k c0 Ec Hk Hrec Hpost) as Hg.
  apply mapGet_Some_elem in Hg.
  pose proof (attach001_bare pm ls _ _ El) as Hb. cbn [companyMap] in Hb.
  destruct (bare_elem _ _ _ _ (eq_sym Hb) Hg) as (c & Hc & Hws).
  destruct (record_filed r c0 Hrec) as [Hk' Hs].
  exists c. split_and!.
  - apply dictValues_elem. by exists k.
  - assert (Hkey : companyKey001 c = companyKey001 c0).
    { change (companyKey001 (withoutSolutions c) = companyKey001 (withoutSolutions c0)).
      by rewrite Hws. }
    congruence.
  - unfold builtFrom001. by rewrite Hrec, Hws, withoutSolutions_fresh.
Qed.

(** The org types of every company of the output of part_001 are those of
    the cell that [pick] resolves in the row the company was built from. *)
Lemma org_types_of_cell001 cs ps ls out :
  reconcile cs ps ls = Some out ->
  Forall (fun c => exists r cell,
            r ∈ cs /\ builtFrom001 r c /\
            pick (Some r) [lit "Org Types"; lit "Org Types "] = Some cell /\
            org_types c = orgTypes cell) (companies out).
Proof.
  intros [_ Hall]%output001_built. eapply Forall_impl; [exact Hall|].
  intros c (r & Hr & _ & Hb). pose proof Hb as Hb'. unfold builtFrom001, recordOf in Hb'.
  destruct (pick (Some r) [lit "Company ID"; lit "ID"]) as [i|];
    cbn [mbind option_bind] in Hb'; [|done].
  destruct (pick (Some r) [lit "Company Name"; lit "Name"]) as [n|];
    cbn [mbind option_bind] in Hb'; [|done].
  destruct (truthy i && truthy n); [|done].
  apply mkCompany_fields in Hb' as (_ & _ & _ & cell & Hcell & Ho).
  exists r, cell. by split_and!.
Qed.

(** No two solutions of a company of the output have the same key. *)
Lemma solutions001_nodup cs ps ls out :
  reconcile cs ps ls = Some out ->
  Forall (fun c => NoDup (problemKey001 <$> solutions c)) (companies out).
Proof.
  intros (pm & cm0 & st & _ & Ec & El & ->)%reconcile_parts. cbn [companies].
  destruct (companyMap001_entries cs cm0 Ec) as [_ Hall].
  assert (Hinv : Forall (fun e => NoDup (problemKey001 <$> solutions e.2)) (companyMap st)).
  { eapply (attach001_invariant pm
              (Forall (fun e => NoDup (problemKey001 <$> solutions e.2)))); [| |exact El].
    - intros cm key company p Hcm Hg Ha. apply mapSet_Forall; [done|]. simpl.
      apply mapGet_Some_elem in Hg. eapply Forall_forall in Hcm; [|exact Hg].
      rewrite fmap_app. apply NoDup_app. split_and!; [done | | apply NoDup_singleton].
      intros x Hx ->%list_elem_of_singleton. apply already_spec in Hx. congruence.
    - simpl. eapply Forall_impl; [exact Hall|].
      intros [k c] (r & _ & _ & [_ Hs]%record_filed). simpl in *. rewrite Hs. constructor. }
  apply Forall_forall. intros c [k Hc]%dictValues_elem.
  eapply Forall_forall in Hinv; [|exact Hc]. exact Hinv.
Qed.

(** The count of matched links is the number of solutions attached. *)
Lemma matched001_attached cs ps ls out :
  reconcile cs ps ls = Some out ->
  matched out = attachedCount001 (companies out).
Proof.
  intros (pm & cm0 & st & _ & Ec & El & ->)%reconcile_parts. cbn [companies matched].
  destruct (companyMap001_entries cs cm0 Ec) as [_ Hall].
  assert (Hinv : matchedLinks st = attachedCount001 (companyMap st).*2).
  { revert El.
    apply (forEach_invariant (attach pm)
             (fun st => matchedLinks st = attachedCount001 (companyMap st).*2)).
    - intros st0 r st1 Hst0 _ Hr.
      destruct (attach001_cases pm st0 r st1 Hr)
        as [[_ ->] | [(key & _ & Hcm & Hml & _) | (key & company & p & _ & Hg & Ha & ->)]].
      + done.
      + by rewrite Hcm, Hml.
      + simpl. rewrite attachedCount001_mapSet by done. by rewrite Hst0.
    - simpl. clear Ec. induction Hall as [|[k c] m Hc Hm IH]; [done|].
      rewrite attachedCount001_cons, <- IH.
      destruct Hc as (r & _ & _ & [_ Hs]%record_filed). simpl in Hs. by rewrite Hs. }
  rewrite Hinv. unfold attachedCount001, Part000.dictValues.
  apply sum_list_perm, fmap_Permutation, fmap_Permutation, Permutation_sym, ownEntries_perm.
Qed.

(** The count of unmatched companies is the number of link rows that lead
    to no company of the index. *)
Lemma noCompany001_counted cs ps ls cm0 out :
  Part000.forEach addCompany [] cs = Some cm0 ->
  reconcile cs ps ls = Some out ->
  noCompany out = length (List.filter (noTarget cm0) ls).
Proof.
  intros Ecm (pm & cm0' & st & _ & Ec & El & ->)%reconcile_parts. cbn [noCompany].
  assert (cm0' = cm0) as -> by congruence.
  by destruct (attach001_counts pm cm0 ls (Tally cm0 0 0 []) st eq_refl El) as [_ ->].
Qed.

(** A link row resolves to no company when the lookup of the loop finds
    none. *)
Lemma resolvesToNone_target cm r :
  notInherited (linkIdKey r) -> resolvesToNone cm r -> linkTarget cm r = Some None.
Proof.
  intros Hi (i & n & Ei & En & Hkey & Hname). unfold linkTarget, notInherited, linkIdKey in *.
  rewrite Ei, En in *. cbn [mbind option_bind fmap option_fmap option_map] in *.
  unfold findCompany, Part000.dictGet.
  assert (Hfind : List.find (fun e => bool_decide (norm (name e.2) = norm n))
                            (Part000.ownEntries cm) = None).
  { destruct (List.find _ _) as [[k c]|] eqn:Ef; [|done].
    apply find_some in Ef as [Hin%list_elem_of_In Hn%bool_decide_eq_true].
    rewrite (ownEntries_perm cm) in Hin. rewrite Forall_forall in Hname.
    by destruct (Hname _ Hin). }
  destruct Hkey as [-> | ->]; cbn [truthy mbind option_bind].
  - by rewrite Hfind.
  - rewrite (Hi _ eq_refl). destruct (truthy (norm i)); cbn [mbind option_bind];
      by rewrite Hfind.
Qed.

(** The counter apart, the loop body does not look at the count of
    unmatched companies. *)
Lemma attach001_bump pm cm m u up r :
  attach pm (Tally cm m (S u) up) r =
  (fun st => Tally (companyMap st) (matchedLinks st) (S (unmatchedCompanies st))
                   (unmatchedProblems st)) <$> attach pm (Tally cm m u up) r.
Proof.
  unfold attach. cbn [companyMap matchedLinks unmatchedCompanies unmatchedProblems].
  destruct (pick (Some r) [lit "Company ID"; lit "ID"]); cbn [mbind option_bind]; [|done].
  destruct (pick (Some r) [lit "Company Name"; lit "Company"]);
    cbn [mbind option_bind]; [|done].
  destruct (findCompany cm _ _) as [[key|]|]; cbn [mbind option_bind]; [| done | done].
  destruct (mapGet key cm) as [company|]; cbn [mbind option_bind]; [|done].
  destruct (pick (Some r) [lit "Problem"; lit "Common Problem"]);
    cbn [mbind option_bind]; [|done].
  destruct (Part000.dictGet _ pm) as [[p|]|]; cbn [mbind option_bind]; [| done | done].
  by destruct (already company p).
Qed.

Lemma attach001_fold_bump pm ls cm m u up :
  Part000.forEach (attach pm) (Tally cm m (S u) up) ls =
  (fun st => Tally (companyMap st) (matchedLinks st) (S (unmatchedCompanies st))
                   (unmatchedProblems st)) <$> Part000.forEach (attach pm) (Tally cm m u up) ls.
Proof.
  revert cm m u up. induction ls as [|r ls IH]; intros cm m u up; [done|].
  cbn [Part000.forEach]. rewrite attach001_bump.
  destruct (attach pm (Tally cm m u up) r) as [[cm1 m1 u1 up1]|];
    cbn [mbind option_bind fmap option_fmap option_map]; [|done].
  cbn [companyMap matchedLinks unmatchedCompanies unmatchedProblems]. apply IH.
Qed.

Lemma covered_without cs pre r post :
  covered cs (pre ++ r :: post) -> covered cs (pre ++ post).
Proof.
  intros [Hcs Hls]. split; [done|].
  apply Forall_app in Hls as [Hpre Hpost]. apply Forall_cons in Hpost as [_ Hpost].
  apply Forall_app. by split.
Qed.

(** In part_001 a link row that resolves to no company adds one to the
    count of unmatched companies and changes nothing else, whatever its
    problem text: the run is the run without the row, with that count one
    higher. *)
Lemma no_company_bumps001 cs ps pre r post cm0 :
  LowerAscii ->
  covered cs (pre ++ r :: post) ->
  Part000.forEach addCompany [] cs = Some cm0 ->
  resolvesToNone cm0 r ->
  exists out,
    reconcile cs ps (pre ++ post) = Some out /\
    reconcile cs ps (pre ++ r :: post) = Some (oneMoreNoCompany out).
Proof.
  intros Hlow Hcov Ecm Hnone.
  destruct (reconcile_covered cs ps (pre ++ post) Hlow (covered_without _ _ _ _ Hcov))
    as [out Hout].
  exists out. split; [done|].
  pose proof Hout as (pm & cm0' & st & Ep & Ec & El & ->)%reconcile_parts.
  assert (cm0' = cm0) as -> by congruence.
  rewrite forEach_app in El.
  destruct (Part000.forEach (attach pm) (Tally cm0 0 0 []) pre) as [st1|] eqn:Epre;
    cbn [mbind option_bind] in El; [|done].
  destruct (attach001_counts pm cm0 pre (Tally cm0 0 0 []) st1 eq_refl Epre) as [Hsk _].
  assert (Hr : attach pm st1 r =
               Some (Tally (companyMap st1) (matchedLinks st1) (S (unmatchedCompanies st1))
                           (unmatchedProblems st1))).
  { destruct Hcov as [_ Hls]. apply Forall_app in Hls as [_ Hls].
    apply Forall_cons in Hls as [[Hi Hp] _].
    destruct (attach001_total pm st1 r Hlow Hi Hp) as [st1' Hst1'].
    pose proof (resolvesToNone_target cm0 r Hi Hnone) as Ht.
    rewrite <- (linkTarget_skeleton _ _ r Hsk) in Ht.
    destruct (attach001_cases pm st1 r st1' Hst1')
      as [[_ ->] | [(key & Ht' & _) | (key & company & p & Ht' & _)]];
      [done | congruence | congruence]. }
  unfold reconcile. rewrite Ep, Ec. cbn [mbind option_bind].
  rewrite forEach_app, Epre. cbn [mbind option_bind Part000.forEach]. rewrite Hr.
  cbn [mbind option_bind]. destruct st1 as [cm1 m1 u1 up1].
  cbn [companyMap matchedLinks unmatchedCompanies unmatchedProblems] in *.
  rewrite attach001_fold_bump, El. reflexivity.
Qed.

End Links001.

(** ** The reconciler of part_001 *)

Lemma asciiLower_ascii : @LowerAscii asciiLower.
Proof. intros s _. reflexivity. Qed.

Section Part001Reconciler.

Context `{JsLower}.

Import Part001Run.

(** X27.  In part_001, on covered tables (no Companies row filed under
    [__proto__], no link row with an id key or a problem key that is a name
    every object inherits), with a [toLowerCase] that lower-cases ASCII text
    as the host does, the run ends and no two solutions of a company of the
    output have the same keyify key. *)
Theorem part001_solutions_deduplicated cs ps ls :
  LowerAscii -> covered cs ls ->
  exists out,
    reconcile cs ps ls = Some out /\
    Forall (fun c => NoDup (problemKey001 <$> solutions c)) (companies out).
Proof.
  intros Hlow Hcov. destruct (reconcile_covered cs ps ls Hlow Hcov) as [out Hout].
  exists out. split; [done|]. by eapply solutions001_nodup.
Qed.

(** X28.  In part_001, on covered tables, with a [toLowerCase] that
    lower-cases ASCII text as the host does, the run ends and the count of
    matched links is the total number of solutions attached to the companies
    of the output. *)
Theorem part001_matched_links_attached cs ps ls :
  LowerAscii -> covered cs ls ->
  exists out,
    reconcile cs ps ls = Some out /\
    matched out = attachedCount001 (companies out).
Proof.
  intros Hlow Hcov. destruct (reconcile_covered cs ps ls Hlow Hcov) as [out Hout].
  exists out. split; [done|]. by eapply matched001_attached.
Qed.

(** X29.  In part_001, on covered tables, with a [toLowerCase] that
    lower-cases ASCII text as the host does, the run ends and the count of
    unmatched companies is the number of link rows that lead to no company,
    neither by id nor by name, in the company index as the Companies table
    left it, whether or not the row has a problem text. *)
Theorem part001_unmatched_companies_counted cs ps ls :
  LowerAscii -> covered cs ls ->
  exists cm0 out,
    Part000.forEach addCompany [] cs = Some cm0 /\
    reconcile cs ps ls = Some out /\
    noCompany out = length (List.filter (noTarget cm0) ls).
Proof.
  intros Hlow Hcov. destruct (reconcile_covered cs ps ls Hlow Hcov) as [out Hout].
  pose proof Hout as (pm & cm0 & st & _ & Ec & _)%reconcile_parts.
  exists cm0, out. split_and!; [done | done |]. by eapply noCompany001_counted.
Qed.

End Part001Reconciler.

Example part001_sample_parsed :
  Part001Run.parseCSV (textOf ["Company ID,Company Name"; "c1,Acme"; " , "]) =
  [acmeIdRow001].
Proof. vm_compute. reflexivity. Qed.

Example part001_sample_index :
  Part000.forEach (@Part001Run.addCompany asciiLower) [] [acmeIdRow001] =
  Some [(lit "c1", acmeCompany001)].
Proof. vm_compute. reflexivity. Qed.

Example part001_sample_run :
  @Part001Run.reconcile asciiLower [acmeIdRow001] [slowRow001]
    [acmeIdSlowLink001; acmeIdSlowLink001; ghostBlankLink001; acmeUnknownLink001] =
  Some (Part001Run.Output
          [Part001Run.pushSolution acmeCompany001 slowProblem001] 1 1
          [lit "No such problem"]).
Proof. vm_compute. reflexivity. Qed.

Lemma part001_sample_covered :
  @covered asciiLower [acmeIdRow001]
    [acmeIdSlowLink001; acmeIdSlowLink001; ghostBlankLink001; acmeUnknownLink001].
Proof.
  split.
  - repeat constructor. by intros E.
  - repeat constructor; intros k E; vm_compute in E; injection E as <-; reflexivity.
Qed.

Lemma part001_solutions_deduplicated_witness :
  @LowerAscii asciiLower /\
  @covered asciiLower [acmeIdRow001]
    [acmeIdSlowLink001; acmeIdSlowLink001; ghostBlankLink001; acmeUnknownLink001] /\
  exists out,
    @Part001Run.reconcile asciiLower [acmeIdRow001] [slowRow001]
      [acmeIdSlowLink001; acmeIdSlowLink001; ghostBlankLink001; acmeUnknownLink001] =
    Some out /\
    Forall (fun c => NoDup (@problemKey001 asciiLower <$> Part001Run.solutions c))
           (Part001Run.companies out).
Proof.
  split; [exact asciiLower_ascii|]. split; [exact part001_sample_covered|].
  exact (@part001_solutions_deduplicated asciiLower _ _ _ asciiLower_ascii
           part001_sample_covered).
Defined.

Lemma part001_matched_links_attached_witness :
  @LowerAscii asciiLower /\
  @covered asciiLower [acmeIdRow001]
    [acmeIdSlowLink001; acmeIdSlowLink001; ghostBlankLink001; acmeUnknownLink001] /\
  exists out,
    @Part001Run.reconcile asciiLower [acmeIdRow001] [slowRow001]
      [acmeIdSlowLink001; acmeIdSlowLink001; ghostBlankLink001; acmeUnknownLink001] =
    Some out /\
    Part001Run.matched out = attachedCount001 (Part001Run.companies out).
Proof.
  split; [exact asciiLower_ascii|]. split; [exact part001_sample_covered|].
  exact (@part001_matched_links_attached asciiLower _ _ _ asciiLower_ascii
           part001_sample_covered).
Defined.

Lemma part001_unmatched_companies_counted_witness :
  @LowerAscii asciiLower /\
  @covered asciiLower [acmeIdRow001]
    [acmeIdSlowLink001; acmeIdSlowLink001; ghostBlankLink001; acmeUnknownLink001] /\
  exists cm0 out,
    Part000.forEach (@Part001Run.addCompany asciiLower) [] [acmeIdRow001] = Some cm0 /\
    @Part001Run.reconcile asciiLower [acmeIdRow001] [slowRow001]
      [acmeIdSlowLink001; acmeIdSlowLink001; ghostBlankLink001; acmeUnknownLink001] =
    Some out /\
    Part001Run.noCompany out =
    length (List.filter (@noTarget asciiLower cm0)
              [acmeIdSlowLink001; acmeIdSlowLink001; ghostBlankLink001; acmeUnknownLink001]).
Proof.
  split; [exact asciiLower_ascii|]. split; [exact part001_sample_covered|].
  exact (@part001_unmatched_companies_counted asciiLower _ [slowRow001] _ asciiLower_ascii
           part001_sample_covered).
Defined.

Lemma acmeIdRow001_columns h :
  is_Some (cellsOf acmeIdRow001 !! h) -> h = lit "Company ID" \/ h = lit "Company Name".
Proof.
  rewrite cellsOf_lookup. unfold acmeIdRow001, row001.
  cbn [fmap list_fmap fst snd mapGet]. repeat case_bool_decide; subst; auto.
  by intros [? ?].
Qed.

Lemma part001_pick_extends_pick_witness :
  (forall k h, k ∈ [lit "Company ID"; lit "ID"] -> is_Some (cellsOf acmeIdRow001 !! h) ->
               @Part001Run.lowerKey asciiLower h = @Part001Run.lowerKey asciiLower k ->
               h = k) /\
  @Part001Run.pick asciiLower (Some acmeIdRow001) [lit "Company ID"; lit "ID"] =
    Some (lit "c1") /\
  BuildData.pick (Some (cellsOf acmeIdRow001)) [lit "Company ID"; lit "ID"] =
    BuildData.Ok (lit "c1").
Proof.
  assert (Hexact : forall k h, k ∈ [lit "Company ID"; lit "ID"] ->
               is_Some (cellsOf acmeIdRow001 !! h) ->
               @Part001Run.lowerKey asciiLower h = @Part001Run.lowerKey asciiLower k ->
               h = k).
  { intros k h Hk Hh Hlow.
    apply acmeIdRow001_columns in Hh.
    apply elem_of_cons in Hk as [->|Hk]; [|apply list_elem_of_singleton in Hk as ->];
      destruct Hh as [-> | ->]; vm_compute in Hlow; first [done | discriminate Hlow]. }
  assert (Hpick : @Part001Run.pick asciiLower (Some acmeIdRow001) [lit "Company ID"; lit "ID"] =
                  Some (lit "c1")) by (vm_compute; reflexivity).
  split; [exact Hexact|]. split; [exact Hpick|].
  exact (@part001_pick_extends_pick asciiLower _ _ _ Hexact Hpick).
Defined.

(** Where the two field resolvers part: [pick] of part_001 also finds a
    column whose name differs from the alias in case, and of two such
    columns the last. *)
Example part001_pick_ignores_case :
  @Part001Run.pick asciiLower (Some (row001 [("company id", "c1"); ("COMPANY ID", "c2")]))
    [lit "Company ID"; lit "ID"] = Some (lit "c2") /\
  BuildData.pick (Some (cellsOf (row001 [("company id", "c1"); ("COMPANY ID", "c2")])))
    [lit "Company ID"; lit "ID"] = BuildData.Ok [].
Proof. split; vm_compute; reflexivity. Qed.

(** Where the two link loops part: part_001 counts a link row without a
    problem text whose company is not found, and scripts/build-data.mjs
    skips it. *)
Example part001_counts_blank_link :
  Part001Run.noCompany <$>
    @Part001Run.reconcile asciiLower [acmeIdRow001] [slowRow001] [ghostBlankLink001] =
    Some 1%nat /\
  BuildData.missingCompanies
    (@BuildData.reconcile asciiLower [acmeRow] [slowRow] [ghostBlankLink]) = 0%nat.
Proof. split; vm_compute; reflexivity. Qed.

(** ** The claims about both scripts *)

(** [split] cuts at every separator and nowhere else: the pieces hold no
    separator, and joined by it they give the text back. *)
Lemma splitOn_join sep (s : str) :
  joinWith sep (splitOn sep s) = s /\
  Forall (Forall (fun c => c <> sep)) (splitOn sep s).
Proof.
  induction s as [|c r [IHj IHf]]; [by repeat constructor|].
  cbn [splitOn]. destruct (c =? sep) eqn:Ec.
  - apply N.eqb_eq in Ec as ->. split; [|by constructor].
    destruct (splitOn sep r) as [|q qs] eqn:E; [by apply splitOn_not_nil in E|].
    cbn [joinWith app]. cbn [joinWith] in IHj. by rewrite IHj.
  - apply N.eqb_neq in Ec.
    destruct (splitOn sep r) as [|p [|q qs]] eqn:E; [by apply splitOn_not_nil in E | |].
    + cbn [joinWith] in *. subst r. split; [done|].
      apply Forall_cons in IHf as [Hp _]. repeat constructor; done.
    + cbn [joinWith] in *. split; [by rewrite <- IHj|].
      apply Forall_cons in IHf as [Hp Hrest]. constructor; [by constructor | done].
Qed.

(** The org types of a cell: the cell cut at its bars, every piece trimmed,
    the empty pieces dropped. *)
Lemma orgTypes_cut (cell : str) :
  exists pieces,
    joinWith PIPE pieces = cell /\
    Forall (Forall (fun c => c <> PIPE)) pieces /\
    orgTypes cell = List.filter (fun x => bool_decide (x <> [])) (trim <$> pieces).
Proof.
  exists (splitOn PIPE cell). destruct (splitOn_join PIPE cell) as [Hj Hf].
  split_and!; [done | done |]. unfold orgTypes.
  apply filter_ext. intros x. unfold truthy. destruct x; by rewrite ?bool_decide_eq_true_2, ?bool_decide_eq_false_2 by (try done; by intros ?).
Qed.

(** A link row of scripts/build-data.mjs whose company reference or problem
    text is blank leaves the state of the loop as it is. *)
Lemma attach_skips `{JsLower} (s : rowobj) :
  truthy (linkCompany s) = false \/ truthy (linkProblem s) = false ->
  forall pm st, BuildData.attach pm st s = st.
Proof.
  intros Hblank pm st. unfold BuildData.attach.
  fold (linkCompany s). fold (linkProblem s).
  destruct Hblank as [-> | ->]; simpl; [done|].
  by destruct (truthy (linkCompany s)).
Qed.

(** C4.  In both scripts no two companies of the output have the same
    identity key, and when several rows of the Companies table produce a
    key, the record kept under that key is the one built from the last of
    them.  In scripts/build-data.mjs the key is the normalized name.  In
    part_001 it is the normalized id, with a [toLowerCase] that lower-cases
    ASCII text as the host does: when no row is filed under [__proto__] the
    index is built, its keys are distinct and the record under the key is
    the one of the last row; when moreover no link row has an id key or a
    problem key that is a name every object inherits, the run ends and the
    same holds of the companies of its output. *)
Theorem company_last_write_wins `{JsLower} :
  (forall cs ps ls pre r post,
      cs = pre ++ r :: post ->
      truthy (rowName r) = true ->
      (forall r', r' ∈ post -> truthy (rowName r') = true -> rowKey r' <> rowKey r) ->
      NoDup (companyKey <$> BuildData.companies (BuildData.reconcile cs ps ls)) /\
      exists c, c ∈ BuildData.companies (BuildData.reconcile cs ps ls) /\
                companyKey c = rowKey r /\ builtFrom r c) /\
  (LowerAscii ->
   forall cs pre r post k,
      cs = pre ++ r :: post ->
      Forall (fun r' => filedUnder r' <> Some (lit "__proto__")) cs ->
      filedUnder r = Some k ->
      Forall (fun r' => filedUnder r' <> Some k) post ->
      (exists cm c,
         Part000.forEach Part001Run.addCompany [] cs = Some cm /\
         NoDup cm.*1 /\ mapGet k cm = Some c /\ recordOf r = Some c) /\
      forall ps ls,
        covered cs ls ->
        exists out,
          Part001Run.reconcile cs ps ls = Some out /\
          NoDup (companyKey001 <$> Part001Run.companies out) /\
          exists c, c ∈ Part001Run.companies out /\ companyKey001 c = k /\
                    builtFrom001 r c).
Proof.
  split; [intros cs ps ls pre r post; apply last_row_wins_by_name|].
  intros Hlow cs pre r post k -> Hcs Hk Hpost. split.
  - destruct (forEach_total Part001Run.addCompany (pre ++ r :: post))
      with (s := @nil (str * Part001Run.Company)) as [cm Hcm].
    { intros s a Ha. apply addCompany_total; [done|].
      rewrite Forall_forall in Hcs. by apply Hcs. }
    destruct (filed_record r k Hlow Hk) as [c Hc].
    exists cm, c. split_and!; [done | | | done].
    + by destruct (companyMap001_entries _ _ Hcm).
    + by eapply addCompany_last.
  - intros ps ls Hcov.
    destruct (reconcile_covered (pre ++ r :: post) ps ls Hlow Hcov) as [out Hout].
    exists out. split_and!; [done | |].
    + by destruct (output001_built _ _ _ _ Hout).
    + by eapply output001_last.
Qed.

Lemma company_last_write_wins_witness :
  (truthy (rowName acmeAgainRow) = true /\
   exists c, c ∈ BuildData.companies
                   (@BuildData.reconcile asciiLower ([acmeRow] ++ acmeAgainRow :: [betaRow])
                      [slowRow] [acmeSlowLink]) /\
             @companyKey asciiLower c = @rowKey asciiLower acmeAgainRow /\
             @builtFrom asciiLower acmeAgainRow c) /\
  (@LowerAscii asciiLower /\
   @filedUnder asciiLower acmeAgainIdRow001 = Some (lit "c1") /\
   @covered asciiLower ([acmeIdRow001] ++ acmeAgainIdRow001 :: []) [acmeIdSlowLink001] /\
   exists out,
     @Part001Run.reconcile asciiLower ([acmeIdRow001] ++ acmeAgainIdRow001 :: [])
       [slowRow001] [acmeIdSlowLink001] = Some out /\
     NoDup (@companyKey001 asciiLower <$> Part001Run.companies out) /\
     exists c, c ∈ Part001Run.companies out /\ @companyKey001 asciiLower c = lit "c1" /\
               @builtFrom001 asciiLower acmeAgainIdRow001 c).
Proof.
  assert (Hcs : Forall (fun r' => @filedUnder asciiLower r' <> Some (lit "__proto__"))
                       ([acmeIdRow001] ++ acmeAgainIdRow001 :: []))
    by (repeat constructor; by intros E).
  assert (Hcov : @covered asciiLower ([acmeIdRow001] ++ acmeAgainIdRow001 :: [])
                   [acmeIdSlowLink001]).
  { split; [exact Hcs|].
    repeat constructor; intros k E; vm_compute in E; injection E as <-; reflexivity. }
  assert (Hpost : forall r', r' ∈ [betaRow] -> truthy (rowName r') = true ->
                             @rowKey asciiLower r' <> @rowKey asciiLower acmeAgainRow).
  { intros r' ->%list_elem_of_singleton _ E. vm_compute in E. discriminate E. }
  destruct (@company_last_write_wins asciiLower) as [Hname Hid]. split.
  - split; [reflexivity|].
    exact (proj2 (Hname _ [slowRow] [acmeSlowLink] [acmeRow] acmeAgainRow [betaRow]
                    eq_refl eq_refl Hpost)).
  - split; [exact asciiLower_ascii|]. split; [reflexivity|]. split; [exact Hcov|].
    exact (proj2 (Hid asciiLower_ascii _ [acmeIdRow001] acmeAgainIdRow001 [] (lit "c1")
                    eq_refl Hcs eq_refl (Forall_nil_2 _)) [slowRow001] [acmeIdSlowLink001] Hcov).
Defined.



(** C7.  In scripts/build-data.mjs a link row with a company reference and
    a problem text whose company reference is the key of no company adds
    one to the count of unmatched companies and changes nothing else (the
    run is the run without the row, with that count one higher), and a run
    whose sheets were accepted still ends normally; a link row whose
    company reference or problem text is blank is skipped without being
    counted.  In part_001, on covered tables and with a [toLowerCase] that
    lower-cases ASCII text as the host does, every link row that resolves
    to no company, by id or by name, adds one to that count and changes
    nothing else, whatever its problem text, and the run ends. *)
Theorem unmatched_company_counted `{JsLower} :
  (forall cs ps pre r post,
      truthy (linkCompany r) = true ->
      truthy (linkProblem r) = true ->
      mapGet (linkCompany r) (foldl BuildData.addCompany [] cs) = None ->
      BuildData.reconcile cs ps (pre ++ r :: post) =
        oneMoreMissingCompany (BuildData.reconcile cs ps (pre ++ post))
      /\ forall e, sheetsAccepted e cs ps (pre ++ r :: post) ->
           BuildData.main e = BuildData.Ok (BuildData.reconcile cs ps (pre ++ r :: post))) /\
  (forall cs ps pre r post,
      truthy (linkCompany r) = false \/ truthy (linkProblem r) = false ->
      BuildData.reconcile cs ps (pre ++ r :: post) =
      BuildData.reconcile cs ps (pre ++ post)) /\
  (LowerAscii ->
   forall cs ps pre r post cm0,
      covered cs (pre ++ r :: post) ->
      Part000.forEach Part001Run.addCompany [] cs = Some cm0 ->
      resolvesToNone cm0 r ->
      exists out,
        Part001Run.reconcile cs ps (pre ++ post) = Some out /\
        Part001Run.reconcile cs ps (pre ++ r :: post) = Some (oneMoreNoCompany out)).
Proof.
  split_and!.
  - intros cs ps pre r post. apply missing_company_bumps.
  - intros cs ps pre r post Hblank. apply reconcile_skip. by apply attach_skips.
  - intros Hlow cs ps pre r post cm0. by apply no_company_bumps001.
Qed.

Lemma unmatched_company_counted_witness :
  (mapGet (@linkCompany asciiLower ghostLink)
          (foldl (@BuildData.addCompany asciiLower) [] [acmeRow]) = None /\
   @BuildData.reconcile asciiLower [acmeRow] [slowRow] ([acmeSlowLink] ++ ghostLink :: []) =
   oneMoreMissingCompany
     (@BuildData.reconcile asciiLower [acmeRow] [slowRow] ([acmeSlowLink] ++ []))) /\
  (truthy (linkProblem ghostBlankLink) = false /\
   @BuildData.reconcile asciiLower [acmeRow] [slowRow] ([acmeSlowLink] ++ ghostBlankLink :: []) =
   @BuildData.reconcile asciiLower [acmeRow] [slowRow] ([acmeSlowLink] ++ [])) /\
  (@LowerAscii asciiLower /\
   @covered asciiLower [acmeIdRow001] ([acmeIdSlowLink001] ++ ghostBlankLink001 :: []) /\
   @resolvesToNone asciiLower [(lit "c1", acmeCompany001)] ghostBlankLink001 /\
   exists out,
     @Part001Run.reconcile asciiLower [acmeIdRow001] [slowRow001]
       ([acmeIdSlowLink001] ++ []) = Some out /\
     @Part001Run.reconcile asciiLower [acmeIdRow001] [slowRow001]
       ([acmeIdSlowLink001] ++ ghostBlankLink001 :: []) = Some (oneMoreNoCompany out)).
Proof.
  assert (Hcov : @covered asciiLower [acmeIdRow001]
                   ([acmeIdSlowLink001] ++ ghostBlankLink001 :: [])).
  { split; [repeat constructor; by intros E|].
    repeat constructor; intros k E; vm_compute in E; injection E as <-; reflexivity. }
  assert (Hnone : @resolvesToNone asciiLower [(lit "c1", acmeCompany001)] ghostBlankLink001).
  { exists [], (lit "Ghost"). split_and!; [reflexivity | reflexivity | by left |].
    repeat constructor. by intros E. }
  destruct (@unmatched_company_counted asciiLower) as (Hbump & Hskip & H001).
  split_and!.
  - reflexivity.
  - exact (proj1 (Hbump [acmeRow] [slowRow] [acmeSlowLink] ghostLink []
                    eq_refl eq_refl eq_refl)).
  - reflexivity.
  - exact (Hskip [acmeRow] [slowRow] [acmeSlowLink] ghostBlankLink [] (or_intror eq_refl)).
  - exact asciiLower_ascii.
  - exact Hcov.
  - exact Hnone.
  - exact (H001 asciiLower_ascii _ [slowRow001] _ _ _ _ Hcov part001_sample_index Hnone).
Defined.

(** C10.  In both scripts the [org_types] of a company are its Org Types
    cell cut at the bars, every piece trimmed, the empty pieces dropped: the
    pieces hold no bar and, joined by bars, give the cell; no entry is empty
    or blank.  In scripts/build-data.mjs this holds of every company of the
    output, the cell being the one the aliases "Org Types", "Org Type",
    "Category" resolve to in the row the company was built from.  In
    part_001 the cell is what [pick] returns for "Org Types", "Org Types ":
    it holds of every record the script builds from a row and of every
    company of the output of a run, which ends on covered tables, with a
    [toLowerCase] that lower-cases ASCII text as the host does. *)
Theorem org_types_split `{JsLower} :
  (forall cs ps ls,
      Forall (fun c =>
                exists r pieces,
                  r ∈ cs /\ builtFrom r c /\
                  joinWith PIPE pieces =
                    default [] (resolvedCell r [lit "Org Types"; lit "Org Type";
                                                lit "Category"]) /\
                  Forall (Forall (fun x => x <> PIPE)) pieces /\
                  BuildData.org_types c =
                    List.filter (fun x => bool_decide (x <> [])) (trim <$> pieces) /\
                  Forall (fun x => x <> [] /\ forallb isWhite x = false)
                         (BuildData.org_types c))
             (BuildData.companies (BuildData.reconcile cs ps ls))) /\
  (forall r i n c,
      Part001Run.mkCompany r i n = Some c ->
      exists cell pieces,
        Part001Run.pick (Some r) [lit "Org Types"; lit "Org Types "] = Some cell /\
        joinWith PIPE pieces = cell /\
        Forall (Forall (fun x => x <> PIPE)) pieces /\
        Part001Run.org_types c =
          List.filter (fun x => bool_decide (x <> [])) (trim <$> pieces) /\
        Forall (fun x => x <> [] /\ forallb isWhite x = false) (Part001Run.org_types c)) /\
  (LowerAscii -> forall r i n, exists c, Part001Run.mkCompany r i n = Some c) /\
  (forall cs ps ls out,
      Part001Run.reconcile cs ps ls = Some out ->
      Forall (fun c =>
                exists r cell pieces,
                  r ∈ cs /\ builtFrom001 r c /\
                  Part001Run.pick (Some r) [lit "Org Types"; lit "Org Types "] = Some cell /\
                  joinWith PIPE pieces = cell /\
                  Forall (Forall (fun x => x <> PIPE)) pieces /\
                  Part001Run.org_types c =
                    List.filter (fun x => bool_decide (x <> [])) (trim <$> pieces) /\
                  Forall (fun x => x <> [] /\ forallb isWhite x = false)
                         (Part001Run.org_types c))
             (Part001Run.companies out)) /\
  (LowerAscii -> forall cs ps ls,
      covered cs ls -> exists out, Part001Run.reconcile cs ps ls = Some out).
Proof.
  split_and!.
  - intros cs ps ls. eapply Forall_impl; [apply org_types_of_cell|].
    intros c (r & Hr & Hb & Ho).
    destruct (orgTypes_cut (default [] (resolvedCell r [lit "Org Types"; lit "Org Type";
                                                        lit "Category"])))
      as (pieces & Hj & Hf & Hcut).
    exists r, pieces. split_and!; try done; rewrite Ho; [done | apply orgTypes_not_blank].
  - intros r i n c (_ & _ & _ & cell & Hcell & Ho)%mkCompany_fields.
    destruct (orgTypes_cut cell) as (pieces & Hj & Hf & Hcut).
    exists cell, pieces. split_and!; try done; rewrite Ho; [done | apply orgTypes_not_blank].
  - intros Hlow r i n. by apply mkCompany_total.
  - intros cs ps ls out Hout. eapply Forall_impl; [by eapply org_types_of_cell001|].
    intros c (r & cell & Hr & Hb & Hcell & Ho).
    destruct (orgTypes_cut cell) as (pieces & Hj & Hf & Hcut).
    exists r, cell, pieces.
    split_and!; try done; rewrite Ho; [done | apply orgTypes_not_blank].
  - intros Hlow cs ps ls. by apply reconcile_covered.
Qed.

Lemma org_types_split_witness :
  (exists c, @Part001Run.mkCompany asciiLower acmeAgainIdRow001 (lit "C1") (lit "ACME") =
             Some c /\
             Part001Run.org_types c = [lit "Clinic"; lit "Payer"]) /\
  (@LowerAscii asciiLower /\
   @covered asciiLower [acmeAgainIdRow001] [acmeIdSlowLink001] /\
   exists out,
     @Part001Run.reconcile asciiLower [acmeAgainIdRow001] [slowRow001] [acmeIdSlowLink001] =
     Some out /\
     Forall (fun c =>
               exists r cell pieces,
                 r ∈ [acmeAgainIdRow001] /\ @builtFrom001 asciiLower r c /\
                 @Part001Run.pick asciiLower (Some r) [lit "Org Types"; lit "Org Types "] =
                   Some cell /\
                 joinWith PIPE pieces = cell /\
                 Forall (Forall (fun x => x <> PIPE)) pieces /\
                 Part001Run.org_types c =
                   List.filter (fun x => bool_decide (x <> [])) (trim <$> pieces) /\
                 Forall (fun x => x <> [] /\ forallb isWhite x = false)
                        (Part001Run.org_types c))
            (Part001Run.companies out)).
Proof.
  assert (Hcov : @covered asciiLower [acmeAgainIdRow001] [acmeIdSlowLink001]).
  { split; [repeat constructor; by intros E|].
    repeat constructor; intros k E; vm_compute in E; injection E as <-; reflexivity. }
  destruct (@org_types_split asciiLower) as (_ & _ & Hbuilt & Hrun & Hends). split.
  - destruct (Hbuilt asciiLower_ascii acmeAgainIdRow001 (lit "C1") (lit "ACME")) as [c Hc].
    exists c. split; [exact Hc|]. vm_compute in Hc. injection Hc as <-. reflexivity.
  - split; [exact asciiLower_ascii|]. split; [exact Hcov|].
    destruct (Hends asciiLower_ascii _ [slowRow001] _ Hcov) as [out Hout].
    exists out. split; [exact Hout|]. exact (Hrun _ _ _ _ Hout).
Defined.
